(** * rlgl for the PICA200 (3ds-raylib): matrix stack, attribute assembler,
      depth sequencer, texture swizzle and texture registry

    A shallow embedding of the algorithmic parts of [src/source/rlgl.h] and
    the properties proved (or refuted) about them.  Every definition keeps
    the name of the C function or variable it embeds. *)

From Stdlib Require Import ZArith List Bool Lia QArith.
From Stdlib Require Import Floats.SpecFloat Strings.Byte.
From stdpp Require Import base list.
Import ListNotations.

Local Open Scope Z_scope.

(** ** C [float]: IEEE-754 binary32, round to nearest even *)

Module Float32.

Definition prec : Z := 24.
Definition emax : Z := 128.

Definition float : Type := spec_float.

(** [(float)n] for an integer [n]. *)
Definition of_Z (n : Z) : float := binary_normalize prec emax n 0 false.

Definition sub (a b : float) : float := SFsub prec emax a b.
Definition div (a b : float) : float := SFdiv prec emax a b.

Definition zero : float := S754_zero false.
Definition one : float := of_Z 1.

(** The rational number a finite float stands for (0 for infinities and
    NaN, which none of the statements below meets). *)
Definition to_Q (f : float) : Q :=
  match f with
  | S754_finite s m e =>
      let v := if s then Z.neg m else Z.pos m in
      if (0 <=? e)%Z then inject_Z (v * 2 ^ e)
      else Qmake v (Z.to_pos (2 ^ (- e)))
  | _ => 0%Q
  end.

End Float32.

Abbreviation float := Float32.float.

(** ** Value types of raylib *)

Record Vector4 : Type := mkVector4 { vx : float; vy : float; vz : float; vw : float }.

(** raymath's [Matrix]: sixteen floats [m0 .. m15]. *)
Record Matrix : Type := mkMatrix {
  m0 : float; m4 : float; m8 : float;  m12 : float;
  m1 : float; m5 : float; m9 : float;  m13 : float;
  m2 : float; m6 : float; m10 : float; m14 : float;
  m3 : float; m7 : float; m11 : float; m15 : float }.

Definition MatrixIdentity : Matrix :=
  let o := Float32.one in let z := Float32.zero in
  mkMatrix o z z z
           z o z z
           z z o z
           z z z o.

(** Matrix modes and primitive modes ([#define]s of rlgl.h). *)
Definition RL_MODELVIEW : Z := 0x1700.
Definition RL_PROJECTION : Z := 0x1701.
Definition RL_TEXTURE : Z := 0x1702.
Definition RL_PROJECTION_BOTTOM : Z := 0x1703.

Definition RL_LINES : Z := 0x0001.
Definition RL_TRIANGLES : Z := 0x0004.
Definition RL_QUADS : Z := 0x0007.

Definition MAX_MATRIX_STACK_SIZE : Z := 32.

(** Messages of the diagnostic channel ([TRACELOG]). *)
Inductive LogLevel : Type := LOG_INFO | LOG_WARNING | LOG_ERROR.

Inductive LogMsg : Type :=
| MatrixStackOverflow
| TextureFormatNotSupported
| TextureFailedToLoad
| TextureInvalidSize (w_ok h_ok : bool)
| TextureLoaded (id width height mipmaps : Z)
| TextureUnableToUnload.

Definition TraceEntry : Type := (LogLevel * LogMsg)%type.

(** ** The native immediate-mode driver, as a recording sink *)

Inductive GPU_Primitive : Type := GPU_TRIANGLES | GPU_TRIANGLE_STRIP.

Inductive Uniform : Type := uLoc_projection | uLoc_modelView.

Inductive GpuCall : Type :=
| C3D_ImmDrawBegin (prim : GPU_Primitive)
| C3D_ImmSendAttrib (x y z w : float)
| C3D_ImmDrawEnd
| C3D_FVUnifMtx4x4 (loc : Uniform) (m : list float).

(** ** The attribute assembler *)

Module Assembler.

(** [enum Pica200ShaderParams]; [SHD_MAX_PARAMS] is the array size. *)
Inductive Pica200ShaderParams : Type :=
  SHD_POSITION | SHD_TEXCOORD | SHD_COLOR | SHD_NORMAL.

Definition SHD_MAX_PARAMS : Z := 4.

Definition slot_index (p : Pica200ShaderParams) : Z :=
  match p with
  | SHD_POSITION => 0 | SHD_TEXCOORD => 1 | SHD_COLOR => 2 | SHD_NORMAL => 3
  end.

Definition all_slots : list Pica200ShaderParams :=
  [SHD_POSITION; SHD_TEXCOORD; SHD_COLOR; SHD_NORMAL].

(** An array [T a[SHD_MAX_PARAMS]], indexed by the enum. *)
Record Slots (A : Type) : Type := mkSlots {
  at_position : A; at_texcoord : A; at_color : A; at_normal : A }.
Arguments mkSlots {A} _ _ _ _.
Arguments at_position {A} _.
Arguments at_texcoord {A} _.
Arguments at_color {A} _.
Arguments at_normal {A} _.

Definition get {A} (p : Pica200ShaderParams) (a : Slots A) : A :=
  match p with
  | SHD_POSITION => at_position a
  | SHD_TEXCOORD => at_texcoord a
  | SHD_COLOR => at_color a
  | SHD_NORMAL => at_normal a
  end.

Definition set {A} (p : Pica200ShaderParams) (v : A) (a : Slots A) : Slots A :=
  match p with
  | SHD_POSITION => mkSlots v (at_texcoord a) (at_color a) (at_normal a)
  | SHD_TEXCOORD => mkSlots (at_position a) v (at_color a) (at_normal a)
  | SHD_COLOR => mkSlots (at_position a) (at_texcoord a) v (at_normal a)
  | SHD_NORMAL => mkSlots (at_position a) (at_texcoord a) (at_color a) v
  end.

(** The file-level statics of the assembler.  [gpu] is the recording sink
    of native calls, oldest first.  [flushes] is a history variable, not
    program state: one entry per call of [rlPicaAttrFlush], holding
    [lastParams] as it was on entry. *)
Record State : Type := mkState {
  paramsUsed : Slots bool;
  lastParams : Slots Vector4;
  backupParams : Slots Vector4;
  shaderNumParams : Z;
  paramMode : Z;
  paramNum : Z;
  currentDepth : float;
  gpu : list GpuCall;
  flushes : list (Slots Vector4) }.

Definition with_paramsUsed (u : Slots bool) (s : State) : State :=
  mkState u (lastParams s) (backupParams s) (shaderNumParams s) (paramMode s)
          (paramNum s) (currentDepth s) (gpu s) (flushes s).
Definition with_lastParams (l : Slots Vector4) (s : State) : State :=
  mkState (paramsUsed s) l (backupParams s) (shaderNumParams s) (paramMode s)
          (paramNum s) (currentDepth s) (gpu s) (flushes s).
Definition with_backupParams (b : Slots Vector4) (s : State) : State :=
  mkState (paramsUsed s) (lastParams s) b (shaderNumParams s) (paramMode s)
          (paramNum s) (currentDepth s) (gpu s) (flushes s).
Definition with_paramMode (m : Z) (s : State) : State :=
  mkState (paramsUsed s) (lastParams s) (backupParams s) (shaderNumParams s) m
          (paramNum s) (currentDepth s) (gpu s) (flushes s).
Definition with_paramNum (n : Z) (s : State) : State :=
  mkState (paramsUsed s) (lastParams s) (backupParams s) (shaderNumParams s)
          (paramMode s) n (currentDepth s) (gpu s) (flushes s).
Definition with_currentDepth (d : float) (s : State) : State :=
  mkState (paramsUsed s) (lastParams s) (backupParams s) (shaderNumParams s)
          (paramMode s) (paramNum s) d (gpu s) (flushes s).
Definition emit (c : GpuCall) (s : State) : State :=
  mkState (paramsUsed s) (lastParams s) (backupParams s) (shaderNumParams s)
          (paramMode s) (paramNum s) (currentDepth s) (gpu s ++ [c]) (flushes s).
Definition note_flush (s : State) : State :=
  mkState (paramsUsed s) (lastParams s) (backupParams s) (shaderNumParams s)
          (paramMode s) (paramNum s) (currentDepth s) (gpu s)
          (flushes s ++ [lastParams s]).

(** [for (int i = 0; i < n; i++) body(i)] over an array of
    [SHD_MAX_PARAMS] entries.  [shaderNumParams] is only ever assigned
    [SHD_MAX_PARAMS] (its initialiser) and 3 (in [rlglInit]), so no run
    has an index beyond the arrays. *)
Definition for_slots {S : Type} (n : Z)
    (body : Pica200ShaderParams -> S -> S) (s : S) : S :=
  fold_left (fun acc p => if slot_index p <? n then body p acc else acc)
            all_slots s.

Definition rlSetDepth (depth : float) (s : State) : State :=
  with_currentDepth depth s.

Definition rlBackupParams (s : State) : State :=
  for_slots SHD_MAX_PARAMS
    (fun i acc =>
       let l := get i (lastParams acc) in
       with_backupParams
         (set i (mkVector4 (vx l) (vy l) (vz l) (vw l)) (backupParams acc)) acc)
    s.

(** [rlSendAttr(attribs)]; the argument is one of the two arrays, read
    from the state as the loop proceeds. *)
Definition rlSendAttr (attribs : State -> Slots Vector4) (s : State) : State :=
  for_slots (shaderNumParams s)
    (fun i acc =>
       let attr := get i (attribs acc) in
       let acc := emit (C3D_ImmSendAttrib (vx attr) (vy attr) (vz attr) (vw attr)) acc in
       with_paramsUsed (set i false (paramsUsed acc)) acc)
    s.

Definition rlPicaAttrFlush (s0 : State) : State :=
  let s := note_flush s0 in
  if paramMode s =? RL_LINES then
    with_paramNum (if paramNum s =? 0 then 1 else 0) s
  else if paramMode s =? RL_QUADS then
    let s :=
      if paramNum s =? 2 then
        let s := rlBackupParams s in
        for_slots (shaderNumParams s)
          (fun i acc => with_paramsUsed (set i false (paramsUsed acc)) acc) s
      else if paramNum s =? 3 then
        let s := rlSendAttr lastParams s in
        rlSendAttr backupParams s
      else
        rlSendAttr lastParams s in
    let s := with_paramNum (paramNum s + 1) s in
    with_paramNum (Z.rem (paramNum s) 4) s
  else
    rlSendAttr lastParams s.

(** The shared shape of every attribute setter. *)
Definition submit (slot : Pica200ShaderParams) (v : State -> Vector4) (s : State) : State :=
  let s :=
    if get slot (paramsUsed s) && (slot_index slot <? shaderNumParams s)
    then rlPicaAttrFlush s else s in
  let s := with_lastParams (set slot (v s) (lastParams s)) s in
  with_paramsUsed (set slot true (paramsUsed s)) s.

Definition rlVertex2i (x y : Z) : State -> State :=
  submit SHD_POSITION
    (fun _ => mkVector4 (Float32.of_Z x) (Float32.of_Z y) Float32.zero Float32.zero).

Definition rlVertex2f (x y : float) : State -> State :=
  submit SHD_POSITION (fun s => mkVector4 x y (currentDepth s) Float32.zero).

Definition rlVertex3f (x y z : float) : State -> State :=
  submit SHD_POSITION (fun _ => mkVector4 x y z Float32.zero).

Definition rlTexCoord2f (x y : float) : State -> State :=
  submit SHD_TEXCOORD (fun _ => mkVector4 x y Float32.zero Float32.zero).

Definition rlNormal3f (x y z : float) : State -> State :=
  submit SHD_NORMAL (fun _ => mkVector4 x y z Float32.zero).

(** The arguments are [unsigned char]: [0 <= r, g, b, a < 256]. *)
Definition rlColor4ub (r g b a : Z) : State -> State :=
  let ch c := Float32.div (Float32.of_Z c) (Float32.of_Z 255) in
  submit SHD_COLOR (fun _ => mkVector4 (ch r) (ch g) (ch b) (ch a)).

Definition rlColor3f (x y z : float) : State -> State :=
  submit SHD_COLOR (fun _ => mkVector4 x y z Float32.zero).

Definition rlColor4f (x y z w : float) : State -> State :=
  submit SHD_COLOR (fun _ => mkVector4 x y z w).

(** [tmp.m[3] = pro->m0; tmp.m[2] = pro->m1; ...]: the sixteen floats of
    the [C3D_Mtx] handed to the driver, [tmp.m[0]] first. *)
Definition to_C3D_Mtx (p : Matrix) : list float :=
  [ m3 p;  m2 p;  m1 p;  m0 p;
    m7 p;  m6 p;  m5 p;  m4 p;
    m11 p; m10 p; m9 p;  m8 p;
    m15 p; m14 p; m13 p; m12 p ].

(** [rlBegin(mode)].  [bottom], [projection], [projectionBottom] and
    [modelview] are the fields of [RLGL] the function reads. *)
Definition rlBegin (mode : Z) (bottom : bool)
    (projection projectionBottom modelview : Matrix) (s : State) : State :=
  let s :=
    if mode =? RL_LINES then emit (C3D_ImmDrawBegin GPU_TRIANGLE_STRIP) s
    else if mode =? RL_TRIANGLES then emit (C3D_ImmDrawBegin GPU_TRIANGLES) s
    else if mode =? RL_QUADS then emit (C3D_ImmDrawBegin GPU_TRIANGLE_STRIP) s
    else s in
  let s := with_paramMode mode s in
  let s := with_paramNum 0 s in
  let pro := if bottom then projectionBottom else projection in
  let s := emit (C3D_FVUnifMtx4x4 uLoc_projection (to_C3D_Mtx pro)) s in
  let s := emit (C3D_FVUnifMtx4x4 uLoc_modelView (to_C3D_Mtx modelview)) s in
  let s := for_slots SHD_MAX_PARAMS
             (fun i acc => with_paramsUsed (set i false (paramsUsed acc)) acc) s in
  let z := Float32.zero in let o := Float32.one in
  let s := with_lastParams (set SHD_POSITION (mkVector4 z z z z) (lastParams s)) s in
  let s := with_lastParams (set SHD_TEXCOORD (mkVector4 z z z z) (lastParams s)) s in
  let s := with_lastParams (set SHD_COLOR (mkVector4 o o o o) (lastParams s)) s in
  with_lastParams (set SHD_NORMAL (mkVector4 z z o z) (lastParams s)) s.

(** [1.0f/20000.0f], a float division. *)
Definition depth_epsilon : float :=
  Float32.div Float32.one (Float32.of_Z 20000).

Definition rlEnd (s : State) : State :=
  let s := rlPicaAttrFlush s in
  let s := emit C3D_ImmDrawEnd s in
  with_currentDepth (Float32.sub (currentDepth s) depth_epsilon) s.

(** The statics once [rlglInit] has run: zero-initialised, with
    [shaderNumParams = 3]. *)
Definition rlglInit : State :=
  let z := Float32.zero in
  let v := mkVector4 z z z z in
  mkState (mkSlots false false false false) (mkSlots v v v v) (mkSlots v v v v)
          3 0 0 z [] [].

(** The attribute sets a flush sends, as the sink sees them. *)
Definition sent (N : Z) (a : Slots Vector4) : list GpuCall :=
  map (fun p => let v := get p a in C3D_ImmSendAttrib (vx v) (vy v) (vz v) (vw v))
      (List.filter (fun p => slot_index p <? N) all_slots).

End Assembler.

(** ** The matrix stack *)

Module MatrixStack.

(** What [RLGL.State.currentMatrix] can point at. *)
Inductive MatrixRef : Type :=
  RefModelview | RefProjection | RefProjectionBottom | RefTransform.

(** A store or load of [stack[i]] with [i] outside [0 .. 31].  C leaves
    its effect undefined; the model records that it happened. *)
Inductive Fault : Type :=
| StoreOutOfBounds (index : Z)
| LoadOutOfBounds (index : Z).

(** The matrix part of [RLGL.State], with the diagnostic channel. *)
Record State : Type := mkState {
  currentMatrixMode : Z;
  currentMatrix : MatrixRef;
  modelview : Matrix;
  projection : Matrix;
  projectionBottom : Matrix;
  transform : Matrix;
  transformRequired : bool;
  stack : list Matrix;
  stackCounter : Z;
  tracelog : list TraceEntry;
  faults : list Fault }.

Definition with_mode (m : Z) (s : State) : State :=
  mkState m (currentMatrix s) (modelview s) (projection s) (projectionBottom s)
          (transform s) (transformRequired s) (stack s) (stackCounter s)
          (tracelog s) (faults s).
Definition with_currentMatrix (r : MatrixRef) (s : State) : State :=
  mkState (currentMatrixMode s) r (modelview s) (projection s) (projectionBottom s)
          (transform s) (transformRequired s) (stack s) (stackCounter s)
          (tracelog s) (faults s).
Definition with_transformRequired (b : bool) (s : State) : State :=
  mkState (currentMatrixMode s) (currentMatrix s) (modelview s) (projection s)
          (projectionBottom s) (transform s) b (stack s) (stackCounter s)
          (tracelog s) (faults s).
Definition with_stack (st : list Matrix) (s : State) : State :=
  mkState (currentMatrixMode s) (currentMatrix s) (modelview s) (projection s)
          (projectionBottom s) (transform s) (transformRequired s) st
          (stackCounter s) (tracelog s) (faults s).
Definition with_stackCounter (c : Z) (s : State) : State :=
  mkState (currentMatrixMode s) (currentMatrix s) (modelview s) (projection s)
          (projectionBottom s) (transform s) (transformRequired s) (stack s) c
          (tracelog s) (faults s).
Definition TRACELOG (l : LogLevel) (m : LogMsg) (s : State) : State :=
  mkState (currentMatrixMode s) (currentMatrix s) (modelview s) (projection s)
          (projectionBottom s) (transform s) (transformRequired s) (stack s)
          (stackCounter s) (tracelog s ++ [(l, m)]) (faults s).
Definition fault (f : Fault) (s : State) : State :=
  mkState (currentMatrixMode s) (currentMatrix s) (modelview s) (projection s)
          (projectionBottom s) (transform s) (transformRequired s) (stack s)
          (stackCounter s) (tracelog s) (faults s ++ [f]).

(** Reading and assigning through a matrix pointer. *)
Definition deref (r : MatrixRef) (s : State) : Matrix :=
  match r with
  | RefModelview => modelview s
  | RefProjection => projection s
  | RefProjectionBottom => projectionBottom s
  | RefTransform => transform s
  end.

Definition assign (r : MatrixRef) (m : Matrix) (s : State) : State :=
  match r with
  | RefModelview =>
      mkState (currentMatrixMode s) (currentMatrix s) m (projection s)
              (projectionBottom s) (transform s) (transformRequired s) (stack s)
              (stackCounter s) (tracelog s) (faults s)
  | RefProjection =>
      mkState (currentMatrixMode s) (currentMatrix s) (modelview s) m
              (projectionBottom s) (transform s) (transformRequired s) (stack s)
              (stackCounter s) (tracelog s) (faults s)
  | RefProjectionBottom =>
      mkState (currentMatrixMode s) (currentMatrix s) (modelview s) (projection s)
              m (transform s) (transformRequired s) (stack s)
              (stackCounter s) (tracelog s) (faults s)
  | RefTransform =>
      mkState (currentMatrixMode s) (currentMatrix s) (modelview s) (projection s)
              (projectionBottom s) m (transformRequired s) (stack s)
              (stackCounter s) (tracelog s) (faults s)
  end.

(** The matrix seen through [RLGL.State.currentMatrix]. *)
Definition current (s : State) : Matrix := deref (currentMatrix s) s.

Definition in_bounds (i : Z) : bool := (0 <=? i) && (i <? MAX_MATRIX_STACK_SIZE).

(** [RLGL.State.stack[i] = m]. *)
Definition stack_store (i : Z) (m : Matrix) (s : State) : State :=
  if in_bounds i then with_stack (<[Z.to_nat i := m]> (stack s)) s
  else fault (StoreOutOfBounds i) s.

(** The state [rlglInit] leaves: identities everywhere, [currentMatrix]
    on the modelview matrix, and the zero-initialised fields of the
    global [RLGL] it does not assign. *)
Definition rlglInit : State :=
  mkState 0 RefModelview MatrixIdentity MatrixIdentity MatrixIdentity MatrixIdentity
          false (replicate (Z.to_nat MAX_MATRIX_STACK_SIZE) MatrixIdentity) 0 [] [].

Definition rlMatrixMode (mode : Z) (s : State) : State :=
  let s :=
    if mode =? RL_PROJECTION then with_currentMatrix RefProjection s
    else if mode =? RL_PROJECTION_BOTTOM then with_currentMatrix RefProjectionBottom s
    else if mode =? RL_MODELVIEW then with_currentMatrix RefModelview s
    else s in
  with_mode mode s.

Definition rlPushMatrix (s : State) : State :=
  let s :=
    if stackCounter s >=? MAX_MATRIX_STACK_SIZE
    then TRACELOG LOG_ERROR MatrixStackOverflow s else s in
  let s :=
    if currentMatrixMode s =? RL_MODELVIEW
    then with_currentMatrix RefTransform (with_transformRequired true s)
    else s in
  let s := stack_store (stackCounter s) (current s) s in
  with_stackCounter (stackCounter s + 1) s.

Definition rlPopMatrix (s : State) : State :=
  let s :=
    if stackCounter s >? 0 then
      let s :=
        if in_bounds (stackCounter s - 1) then
          match stack s !! Z.to_nat (stackCounter s - 1) with
          | Some mat => assign (currentMatrix s) mat s
          | None => fault (LoadOutOfBounds (stackCounter s - 1)) s
          end
        else fault (LoadOutOfBounds (stackCounter s - 1)) s in
      with_stackCounter (stackCounter s - 1) s
    else s in
  if (stackCounter s =? 0) && (currentMatrixMode s =? RL_MODELVIEW)
  then with_transformRequired false (with_currentMatrix RefModelview s)
  else s.

Definition rlLoadIdentity (s : State) : State :=
  assign (currentMatrix s) MatrixIdentity s.

(** The current matrix replaced by a function [f] of itself: the shape
    of [rlLoadIdentity], [rlTranslatef], [rlRotatef], [rlScalef],
    [rlMultMatrixf], [rlFrustum], [rlOrtho] and [rlOrthoTilt], whose
    matrix arithmetic lives in raymath. *)
Definition edit_current (f : Matrix -> Matrix) (s : State) : State :=
  assign (currentMatrix s) (f (current s)) s.

(** Programs of pushes, pops and edits of the current matrix. *)
Inductive Op : Type :=
| Push
| Pop
| Edit (f : Matrix -> Matrix).

Definition step (o : Op) (s : State) : State :=
  match o with
  | Push => rlPushMatrix s
  | Pop => rlPopMatrix s
  | Edit f => edit_current f s
  end.

Definition run (w : list Op) (s : State) : State :=
  fold_left (fun acc o => step o acc) w s.

(** Balanced programs: every [Pop] closes the nearest open [Push]. *)
Inductive balanced : list Op -> Prop :=
| balanced_nil : balanced []
| balanced_edit f w : balanced w -> balanced (Edit f :: w)
| balanced_nest u w :
    balanced u -> balanced w -> balanced (Push :: u ++ Pop :: w).

(** The deepest nesting of pushes a program reaches above depth [d]. *)
Fixpoint peak (d : Z) (w : list Op) : Z :=
  match w with
  | [] => d
  | Push :: w => Z.max d (peak (d + 1) w)
  | Pop :: w => Z.max d (peak (d - 1) w)
  | Edit _ :: w => peak d w
  end.

End MatrixStack.

(** ** Texture formats, the swizzle and the texture registry *)

Module Texture.

(** raylib's [PixelFormat], the cases of the switch in
    [rlGetPica200TextureFormat]. *)
Inductive PixelFormat : Type :=
| PIXELFORMAT_UNCOMPRESSED_GRAYSCALE
| PIXELFORMAT_UNCOMPRESSED_GRAY_ALPHA
| PIXELFORMAT_UNCOMPRESSED_R5G6B5
| PIXELFORMAT_UNCOMPRESSED_R8G8B8
| PIXELFORMAT_UNCOMPRESSED_R5G5B5A1
| PIXELFORMAT_UNCOMPRESSED_R4G4B4A4
| PIXELFORMAT_UNCOMPRESSED_R8G8B8A8
| PIXELFORMAT_UNCOMPRESSED_R32
| PIXELFORMAT_UNCOMPRESSED_R32G32B32
| PIXELFORMAT_UNCOMPRESSED_R32G32B32A32
| PIXELFORMAT_COMPRESSED_DXT1_RGB
| PIXELFORMAT_COMPRESSED_DXT1_RGBA
| PIXELFORMAT_COMPRESSED_DXT3_RGBA
| PIXELFORMAT_COMPRESSED_DXT5_RGBA
| PIXELFORMAT_COMPRESSED_ETC1_RGB
| PIXELFORMAT_COMPRESSED_ETC2_RGB
| PIXELFORMAT_COMPRESSED_ETC2_EAC_RGBA
| PIXELFORMAT_COMPRESSED_PVRT_RGB
| PIXELFORMAT_COMPRESSED_PVRT_RGBA
| PIXELFORMAT_COMPRESSED_ASTC_4x4_RGBA
| PIXELFORMAT_COMPRESSED_ASTC_8x8_RGBA.

(** The native texel formats, the cases of [rlGetPica200TextureBpp]. *)
Inductive GPU_TEXCOLOR : Type :=
| GPU_RGBA8 | GPU_RGB8 | GPU_RGBA5551 | GPU_RGB565 | GPU_RGBA4 | GPU_LA8
| GPU_HILO8 | GPU_L8 | GPU_A8 | GPU_LA4 | GPU_L4 | GPU_A4 | GPU_ETC1
| GPU_ETC1A4.

(** [None] stands for [(GPU_TEXCOLOR)-1]. *)
Definition rlGetPica200TextureFormat (format : PixelFormat) : option GPU_TEXCOLOR :=
  match format with
  | PIXELFORMAT_COMPRESSED_ASTC_4x4_RGBA => None
  | PIXELFORMAT_COMPRESSED_ASTC_8x8_RGBA => None
  | PIXELFORMAT_COMPRESSED_DXT1_RGB => None
  | PIXELFORMAT_COMPRESSED_DXT1_RGBA => None
  | PIXELFORMAT_COMPRESSED_DXT3_RGBA => None
  | PIXELFORMAT_COMPRESSED_DXT5_RGBA => None
  | PIXELFORMAT_COMPRESSED_ETC1_RGB => Some GPU_ETC1
  | PIXELFORMAT_COMPRESSED_ETC2_EAC_RGBA => None
  | PIXELFORMAT_COMPRESSED_ETC2_RGB => None
  | PIXELFORMAT_COMPRESSED_PVRT_RGB => None
  | PIXELFORMAT_COMPRESSED_PVRT_RGBA => None
  | PIXELFORMAT_UNCOMPRESSED_GRAY_ALPHA => Some GPU_LA8
  | PIXELFORMAT_UNCOMPRESSED_GRAYSCALE => Some GPU_L8
  | PIXELFORMAT_UNCOMPRESSED_R32 => None
  | PIXELFORMAT_UNCOMPRESSED_R32G32B32 => None
  | PIXELFORMAT_UNCOMPRESSED_R32G32B32A32 => None
  | PIXELFORMAT_UNCOMPRESSED_R4G4B4A4 => Some GPU_RGBA4
  | PIXELFORMAT_UNCOMPRESSED_R5G5B5A1 => Some GPU_RGBA5551
  | PIXELFORMAT_UNCOMPRESSED_R5G6B5 => Some GPU_RGB565
  | PIXELFORMAT_UNCOMPRESSED_R8G8B8 => Some GPU_RGB8
  | PIXELFORMAT_UNCOMPRESSED_R8G8B8A8 => Some GPU_RGBA8
  end.

Definition rlGetPica200TextureBpp (format : GPU_TEXCOLOR) : Z :=
  match format with
  | GPU_RGBA8 => 32
  | GPU_RGB8 => 24
  | GPU_RGBA5551 => 16
  | GPU_RGB565 => 16
  | GPU_RGBA4 => 16
  | GPU_LA8 => 16
  | GPU_HILO8 => 16
  | GPU_L8 => 8
  | GPU_A8 => 8
  | GPU_LA4 => 8
  | GPU_L4 => 4
  | GPU_A4 => 4
  | GPU_ETC1 => 4
  | GPU_ETC1A4 => 4
  end.

Definition u8 : Type := Byte.byte.

(** Conversion to [u32] / [unsigned int]. *)
Definition u32 (n : Z) : Z := n mod 2 ^ 32.

(** A native texture once [C3D_TexInit] has succeeded on it.  A byte of
    [tex_data] is [None] while nothing has been stored in it. *)
Record C3D_Tex : Type := mkTex {
  tex_width : Z;
  tex_height : Z;
  tex_fmt : GPU_TEXCOLOR;
  tex_data : list (option u8) }.

(** A node of the list hanging off [rootTex]; [next] is the tail of the
    Rocq list.  [tex] is [None] while the node holds no initialised
    native texture. *)
Record TexLinkedList_t : Type := mkNode {
  id : Z;
  tex : option C3D_Tex }.

Record State : Type := mkState {
  rootTex : list TexLinkedList_t;
  tracelog : list TraceEntry }.

Definition TRACELOG (l : LogLevel) (m : LogMsg) (s : State) : State :=
  mkState (rootTex s) (tracelog s ++ [(l, m)]).

(** [rlGetPica200Tex(id)]: the first node carrying the id, if any. *)
Fixpoint rlGetPica200Tex (id0 : Z) (curr : list TexLinkedList_t) : option TexLinkedList_t :=
  match curr with
  | [] => None
  | c :: next => if id c =? id0 then Some c else rlGetPica200Tex id0 next
  end.

(** A node fresh from [RL_MALLOC], its id assigned. *)
Definition new_node (newId : Z) : TexLinkedList_t := mkNode newId None.

(** The while loop of [rlNewPica200Tex].  [upto_prev] is the list from the
    root to [prev]; [curr] is the rest.  On a gap the new node takes
    [curr->next] as its successor, so [curr] itself leaves the list. *)
Fixpoint rlNewPica200Tex_loop (newId : Z) (upto_prev curr : list TexLinkedList_t)
    : Z * list TexLinkedList_t :=
  match curr with
  | [] => (newId, upto_prev ++ [new_node newId])
  | c :: next =>
      if newId <? id c then (newId, upto_prev ++ new_node newId :: next)
      else rlNewPica200Tex_loop (u32 (id c + 1)) (upto_prev ++ [c]) next
  end.

Definition rlNewPica200Tex (root : list TexLinkedList_t) : Z * list TexLinkedList_t :=
  let newId := 1 in
  match root with
  | [] => (newId, [new_node newId])
  | r :: rest => rlNewPica200Tex_loop (u32 (newId + 1)) [r] rest
  end.

(** The while loop of [rlRemovePica200Tex]: the successors of the first
    node after the root that carries the id. *)
Fixpoint rlRemovePica200Tex_loop (id0 : Z) (curr : list TexLinkedList_t)
    : option (list TexLinkedList_t) :=
  match curr with
  | [] => None
  | c :: next => if id c =? id0 then Some next else rlRemovePica200Tex_loop id0 next
  end.

(** [prev] is never advanced in the loop: it is the root throughout, and
    the root is linked to the successors of the node found. *)
Definition rlRemovePica200Tex (id0 : Z) (root : list TexLinkedList_t)
    : list TexLinkedList_t :=
  match root with
  | [] => []
  | r :: rest =>
      if id r =? id0 then rest
      else match rlRemovePica200Tex_loop id0 rest with
           | Some next => r :: next
           | None => r :: rest
           end
  end.

Definition swizzleArr : list Z :=
  [  0;  1;  4;  5; 16; 17; 20; 21;
     2;  3;  6;  7; 18; 19; 22; 23;
     8;  9; 12; 13; 24; 25; 28; 29;
    10; 11; 14; 15; 26; 27; 30; 31;
    32; 33; 36; 37; 48; 49; 52; 53;
    34; 35; 38; 39; 50; 51; 54; 55;
    40; 41; 44; 45; 56; 57; 60; 61;
    42; 43; 46; 47; 58; 59; 62; 63 ].

Definition swizzle_at (i : Z) : Z := nth (Z.to_nat i) swizzleArr 0.

(** The argument has already been converted to [u32]. *)
Definition checkTexSize (size : Z) : bool :=
  if (size <? 8) || (size >? 1024) then false
  else if negb (Z.land size (size - 1) =? 0) then false
  else true.

(** The values [0, step, 2*step, ...] below [hi]. *)
Definition iterations (hi step : Z) : list Z :=
  map (fun n => step * Z.of_nat n) (seq 0 (Z.to_nat ((hi + step - 1) / step))).

(** [for (int i = 0; i < hi; i += step) body(i)]. *)
Definition for_loop {S : Type} (hi step : Z) (body : Z -> S -> S) (s : S) : S :=
  fold_left (fun acc i => body i acc) (iterations hi step) s.

(** Byte-granular accesses through [src] and [dest].  An access outside
    the buffer is undefined in C: a load then yields an indeterminate
    byte and a store is dropped. *)
Definition load (data : list u8) (off : Z) : option u8 :=
  if 0 <=? off then data !! Z.to_nat off else None.

Definition store (off : Z) (v : option u8) (buf : list (option u8)) : list (option u8) :=
  if 0 <=? off then <[Z.to_nat off := v]> buf else buf.

(** The allocation of [swizzled] and the loop nest of [rlLoadTexture]. *)
Definition swizzle_loops (data : list u8) (width height bpp : Z) : list (option u8) :=
  let swizzled : list (option u8) :=
    replicate (Z.to_nat (Z.quot (width * height * bpp) 8)) None in
  for_loop (Z.quot width 8) 1 (fun w buf =>
    let pixelX := w * 8 in
    for_loop (Z.quot height 8) 1 (fun h buf =>
      let pixelY := h * 8 in
      let tileNum := w + Z.quot (h * width) 8 in
      for_loop 64 2 (fun i buf =>
        let pixelNum :=
          pixelX + Z.rem i 8 + (height - (pixelY + Z.quot i 8) - 1) * width in
        let src := Z.quot (pixelNum * bpp) 8 in
        let dest := Z.quot (tileNum * 64 * bpp) 8 + Z.quot (swizzle_at i * bpp) 8 in
        let numPixels := 2 in
        let numBytes := Z.quot bpp 8 in
        let numBytes := if numBytes =? 0 then 1 else numBytes in
        for_loop numPixels 1 (fun j buf =>
          for_loop numBytes 1 (fun k buf =>
            store (dest + numBytes * j + numBytes - k - 1)
                  (load data (src + k + numBytes * j)) buf)
          buf)
        buf)
      buf)
    buf)
  swizzled.

(** Modelled from the spec: [C3D_TexInit] belongs to the native driver
    (citro3d) and is not part of rlgl.h.  Following section 4.4 of the
    spec and the failure message of [rlLoadTexture], it succeeds exactly
    when both dimensions pass [checkTexSize], and then gives the texture
    storage of [width*height*bpp/8] bytes. *)
Definition C3D_TexInit (width height : Z) (format : GPU_TEXCOLOR) : option C3D_Tex :=
  if checkTexSize (u32 width) && checkTexSize (u32 height)
  then Some (mkTex width height format
               (replicate (Z.to_nat (Z.quot (width * height * rlGetPica200TextureBpp format) 8)) None))
  else None.

(** Modelled from the spec: [C3D_TexUpload] (native driver) takes the
    tiled buffer unmodified. *)
Definition C3D_TexUpload (t : C3D_Tex) (data : list (option u8)) : C3D_Tex :=
  mkTex (tex_width t) (tex_height t) (tex_fmt t) data.

(** A write through the pointer [rlGetPica200Tex(id)] returned. *)
Fixpoint assign_tex (id0 : Z) (t : option C3D_Tex) (curr : list TexLinkedList_t)
    : list TexLinkedList_t :=
  match curr with
  | [] => []
  | c :: next =>
      if id c =? id0 then mkNode (id c) t :: next
      else c :: assign_tex id0 t next
  end.

Definition rlLoadTexture (data : list u8) (width height : Z) (format : PixelFormat)
    (mipmapCount : Z) (s : State) : Z * State :=
  match rlGetPica200TextureFormat format with
  | None =>
      (0, TRACELOG LOG_WARNING TextureFailedToLoad
            (TRACELOG LOG_WARNING TextureFormatNotSupported s))
  | Some texColor =>
      let (id, root) := rlNewPica200Tex (rootTex s) in
      let s := mkState root (tracelog s) in
      match C3D_TexInit width height texColor with
      | None =>
          (0, TRACELOG LOG_WARNING
                (TextureInvalidSize (checkTexSize (u32 width)) (checkTexSize (u32 height))) s)
      | Some t =>
          let bpp := rlGetPica200TextureBpp texColor in
          let swizzled := swizzle_loops data width height bpp in
          let s := mkState (assign_tex id (Some (C3D_TexUpload t swizzled)) (rootTex s))
                           (tracelog s) in
          (id, TRACELOG LOG_INFO (TextureLoaded id width height mipmapCount) s)
      end
  end.

(** [C3D_TexDelete] releases the native texture of the node; the node is
    then unlinked. *)
Definition rlUnloadTexture (id0 : Z) (s : State) : State :=
  match rlGetPica200Tex id0 (rootTex s) with
  | None => TRACELOG LOG_WARNING TextureUnableToUnload s
  | Some _ =>
      let s := mkState (assign_tex id0 None (rootTex s)) (tracelog s) in
      mkState (rlRemovePica200Tex id0 (rootTex s)) (tracelog s)
  end.

Definition ids (root : list TexLinkedList_t) : list Z := map id root.

End Texture.



(** ** Concrete inputs and auxiliary predicates *)

Section AssemblerInputs.

Import Assembler.

Definition fz (n : Z) : float := Float32.of_Z n.

Definition begin_with (mode : Z) (s : State) : State :=
  rlBegin mode false MatrixIdentity MatrixIdentity MatrixIdentity s.

(** [rlBegin(RL_QUADS)] and the four corners of the unit square, the
    last one still cached. *)
Definition quad_before_end : State :=
  rlVertex3f (fz 1) (fz 0) (fz 0)
    (rlVertex3f (fz 1) (fz 1) (fz 0)
       (rlVertex3f (fz 0) (fz 1) (fz 0)
          (rlVertex3f (fz 0) (fz 0) (fz 0)
             (begin_with RL_QUADS rlglInit)))).

(** [rlBegin(RL_LINES)] and one vertex, cached and pending. *)
Definition line_one_vertex : State :=
  rlVertex2f (fz 3) (fz 4) (begin_with RL_LINES rlglInit).

(** [rlBegin(RL_TRIANGLES)], a colour and a position. *)
Definition triangle_one_vertex : State :=
  rlVertex3f (fz 5) (fz 6) (fz 7)
    (rlColor3f (fz 1) (fz 0) (fz 0) (begin_with RL_TRIANGLES rlglInit)).

Definition at_depth (d : float) : State := rlSetDepth d rlglInit.

(** What a flush leaves alone: the cached values, the active count, the
    mode, the depth counter and the history. *)
Definition same_frame (s s' : State) : Prop :=
  lastParams s' = lastParams s
  /\ shaderNumParams s' = shaderNumParams s
  /\ paramMode s' = paramMode s
  /\ currentDepth s' = currentDepth s
  /\ flushes s' = flushes s.

End AssemblerInputs.



Section MatrixInputs.

Import MatrixStack.

(** The stack filled to capacity: 32 pushes after [rlglInit]. *)
Definition full_stack : State :=
  run (replicate 32 Push) rlglInit.

(** A matrix other than the identity: the translation by 1 along x. *)
Definition camera : Matrix :=
  let o := Float32.one in let z := Float32.zero in
  mkMatrix o z z o
           z o z z
           z z o z
           z z z o.

(** The state a 3D or 2D camera mode leaves: the projection pushed, the
    mode back on Modelview, and the modelview matrix given the camera
    matrix by the transform entry points. *)
Definition camera_mode : State :=
  edit_current (fun _ => camera)
    (rlMatrixMode RL_MODELVIEW
       (rlPushMatrix (rlMatrixMode RL_PROJECTION rlglInit))).

(** States on which a push and its pop give back the current matrix. *)
Definition settled (s : State) : Prop :=
  currentMatrixMode s <> RL_MODELVIEW
  \/ (stackCounter s = 0 /\ currentMatrix s = RefModelview)
  \/ (0 < stackCounter s /\ currentMatrix s = RefTransform).

(** The stack array has its declared size. *)
Definition well_formed (s : State) : Prop :=
  length (stack s) = Z.to_nat MAX_MATRIX_STACK_SIZE.

(** States in which a push does not move the current-matrix pointer and
    the matching pop does not move it back. *)
Definition steady (s : State) : Prop :=
  currentMatrixMode s <> RL_MODELVIEW
  \/ (0 < stackCounter s /\ currentMatrix s = RefTransform).

(** What a balanced program preserves. *)
Definition preserved (s s' : State) : Prop :=
  well_formed s'
  /\ stackCounter s' = stackCounter s
  /\ currentMatrix s' = currentMatrix s
  /\ currentMatrixMode s' = currentMatrixMode s
  /\ (forall r, r <> currentMatrix s -> deref r s' = deref r s)
  /\ (forall i : nat, (i < Z.to_nat (stackCounter s))%nat -> stack s' !! i = stack s !! i).

Definition inner (w : list Op) : Prop :=
  forall s, well_formed s -> 0 <= stackCounter s ->
            peak (stackCounter s) w <= MAX_MATRIX_STACK_SIZE -> steady s ->
            preserved s (run w s).

End MatrixInputs.


Section TextureInputs.

Import Texture.

(** The registry after [n] allocations on the empty list. *)
Fixpoint allocations (n : nat) : list TexLinkedList_t :=
  match n with
  | O => []
  | S n => snd (rlNewPica200Tex (allocations n))
  end.

Definition empty_registry : State := mkState [] [].

(** An image of [n] bytes, all white. *)
Definition white (n : nat) : list u8 := replicate n Byte.xff.

(** An image of [n] bytes counting up from 0. *)
Definition gradient (n : nat) : list u8 :=
  map (fun k => default Byte.x00 (Byte.of_nat k)) (seq 0 n).

(** One step of the swizzle: the destination offset and the byte (or
    indeterminate value) stored there. *)
Definition Write : Type := (Z * option u8)%type.

Definition write (buf : list (option u8)) (x : Write) : list (option u8) :=
  store (fst x) (snd x) buf.

(** The stores of the loop nest of [rlLoadTexture], in program order. *)
Definition writes (data : list u8) (width height bpp : Z) : list Write :=
  flat_map (fun w =>
    flat_map (fun h =>
      flat_map (fun i =>
        let pixelNum :=
          w * 8 + Z.rem i 8 + (height - (h * 8 + Z.quot i 8) - 1) * width in
        let src := Z.quot (pixelNum * bpp) 8 in
        let dest := Z.quot ((w + Z.quot (h * width) 8) * 64 * bpp) 8
                    + Z.quot (swizzle_at i * bpp) 8 in
        let numBytes := if Z.quot bpp 8 =? 0 then 1 else Z.quot bpp 8 in
        flat_map (fun j =>
          map (fun k => (dest + numBytes * j + numBytes - k - 1,
                         load data (src + k + numBytes * j)))
              (iterations numBytes 1))
          (iterations 2 1))
        (iterations 64 2))
      (iterations (Z.quot height 8) 1))
    (iterations (Z.quot width 8) 1).

(** The position of [p] in [swizzleArr] (64 when it is absent). *)
Definition unswizzle (p : Z) : Z :=
  (fix find (l : list Z) (n : Z) : Z :=
     match l with
     | [] => n
     | x :: l => if x =? p then n else find l (n + 1)
     end) swizzleArr 0.

(** Byte offsets of byte [k] of the pixel with index [i] in tile
    [(w, h)], for an image of [8*a] by [8*b] pixels of [nb] bytes: where
    the swizzle puts it, and where it comes from. *)
Definition dest_offset (a nb w h i k : Z) : Z :=
  ((w + h * a) * 64 + swizzle_at i) * nb + (nb - 1 - k).

Definition source_offset (a b nb w h i k : Z) : Z :=
  ((8 * b - (h * 8 + i / 8) - 1) * (8 * a) + (w * 8 + i mod 8)) * nb + k.

(** The numbers [0 .. n-1]. *)
Definition below (n : nat) : list Z := map Z.of_nat (seq 0 n).

End TextureInputs.

(** ** Streams of vertices *)

Section AssemblerStreams.

Import Assembler.

(** A vertex as client code gives it: a position through [rlVertex3f], a
    texture coordinate through [rlTexCoord2f] and a colour through
    [rlColor4f]. *)
Record Vertex : Type := mkVertex {
  px : float; py : float; pz : float;
  tu : float; tv : float;
  cr : float; cg : float; cb : float; ca : float }.

(** The call that submits one attribute of a vertex. *)
Definition give (v : Vertex) (slot : Pica200ShaderParams) : State -> State :=
  match slot with
  | SHD_POSITION => rlVertex3f (px v) (py v) (pz v)
  | SHD_TEXCOORD => rlTexCoord2f (tu v) (tv v)
  | SHD_COLOR => rlColor4f (cr v) (cg v) (cb v) (ca v)
  | SHD_NORMAL => fun s => s
  end.

(** The six orders in which the three attributes of a vertex can come. *)
Definition orders : list (list Pica200ShaderParams) :=
  [ [SHD_POSITION; SHD_TEXCOORD; SHD_COLOR];
    [SHD_POSITION; SHD_COLOR; SHD_TEXCOORD];
    [SHD_TEXCOORD; SHD_POSITION; SHD_COLOR];
    [SHD_TEXCOORD; SHD_COLOR; SHD_POSITION];
    [SHD_COLOR; SHD_POSITION; SHD_TEXCOORD];
    [SHD_COLOR; SHD_TEXCOORD; SHD_POSITION] ].

(** One vertex, its three attributes submitted in the given order. *)
Definition give_vertex (ov : list Pica200ShaderParams * Vertex) (s : State) : State :=
  fold_left (fun acc slot => give (snd ov) slot acc) (fst ov) s.

Definition give_vertices (vs : list (list Pica200ShaderParams * Vertex)) (s : State)
    : State :=
  fold_left (fun acc ov => give_vertex ov acc) vs s.

(** What the sink receives for one vertex. *)
Definition attrs_of (v : Vertex) : list GpuCall :=
  [ C3D_ImmSendAttrib (px v) (py v) (pz v) Float32.zero;
    C3D_ImmSendAttrib (tu v) (tv v) Float32.zero Float32.zero;
    C3D_ImmSendAttrib (cr v) (cg v) (cb v) (ca v) ].

(** The vertex cached in the slots, all three attributes pending, with
    three active attributes. *)
Definition loaded (v : Vertex) (s : State) : Prop :=
  shaderNumParams s = 3
  /\ at_position (paramsUsed s) = true
  /\ at_texcoord (paramsUsed s) = true
  /\ at_color (paramsUsed s) = true
  /\ sent 3 (lastParams s) = attrs_of v.

(** Nothing pending among the three active attributes. *)
Definition cleared (s : State) : Prop :=
  shaderNumParams s = 3
  /\ at_position (paramsUsed s) = false
  /\ at_texcoord (paramsUsed s) = false
  /\ at_color (paramsUsed s) = false.

(** A quad: four vertices, each with the order of its attributes. *)
Definition Quad : Type :=
  ((list Pica200ShaderParams * Vertex) * (list Pica200ShaderParams * Vertex)
   * (list Pica200ShaderParams * Vertex) * (list Pica200ShaderParams * Vertex))%type.

Definition give_quad (q : Quad) (s : State) : State :=
  let '(v0, v1, v2, v3) := q in
  give_vertex v3 (give_vertex v2 (give_vertex v1 (give_vertex v0 s))).

Definition give_quads (qs : list Quad) (s : State) : State :=
  fold_left (fun acc q => give_quad q acc) qs s.

(** The strip the sink receives for one quad: corners 0, 1, 3, 2. *)
Definition strip_of (q : Quad) : list GpuCall :=
  let '(v0, v1, v2, v3) := q in
  attrs_of (snd v0) ++ attrs_of (snd v1) ++ attrs_of (snd v3) ++ attrs_of (snd v2).

Definition quad_orders_ok (q : Quad) : Prop :=
  let '(v0, v1, v2, v3) := q in
  In (fst v0) orders /\ In (fst v1) orders /\ In (fst v2) orders /\ In (fst v3) orders.

(** The attribute sets [rlBegin] starts from, as the sink would see them. *)
Definition default_attrs : list GpuCall :=
  [ C3D_ImmSendAttrib Float32.zero Float32.zero Float32.zero Float32.zero;
    C3D_ImmSendAttrib Float32.zero Float32.zero Float32.zero Float32.zero;
    C3D_ImmSendAttrib Float32.one Float32.one Float32.one Float32.one ].

(** The native calls [rlBegin] issues. *)
Definition begin_calls (mode : Z) (bottom : bool)
    (projection projectionBottom modelview : Matrix) : list GpuCall :=
  (if mode =? RL_LINES then [C3D_ImmDrawBegin GPU_TRIANGLE_STRIP]
   else if mode =? RL_TRIANGLES then [C3D_ImmDrawBegin GPU_TRIANGLES]
   else if mode =? RL_QUADS then [C3D_ImmDrawBegin GPU_TRIANGLE_STRIP]
   else [])
  ++ [ C3D_FVUnifMtx4x4 uLoc_projection
         (to_C3D_Mtx (if bottom then projectionBottom else projection));
       C3D_FVUnifMtx4x4 uLoc_modelView (to_C3D_Mtx modelview) ].

(** Any setter call: a slot and the value submitted to it. *)
Definition Submission : Type := (Pica200ShaderParams * (State -> Vector4))%type.

Definition submit_all (calls : list Submission) (s : State) : State :=
  fold_left (fun acc c => submit (fst c) (snd c) acc) calls s.

(** [(float)c/255], the channel [rlColor4ub] stores for the byte [c]. *)
Definition channel (c : Z) : float :=
  Float32.div (Float32.of_Z c) (Float32.of_Z 255).

(** The integers [lo, lo+1, ..., lo+n-1]. *)
Definition span (lo : Z) (n : nat) : list Z := map (fun k => lo + Z.of_nat k) (seq 0 n).

(** Concrete vertices for the examples: a corner of the unit square,
    white. *)
Definition corner (x y : Z) : Vertex :=
  mkVertex (fz x) (fz y) (fz 0) (fz x) (fz y) (fz 1) (fz 1) (fz 1) (fz 1).

Definition position_first : list Pica200ShaderParams :=
  [SHD_POSITION; SHD_TEXCOORD; SHD_COLOR].

Definition colour_first : list Pica200ShaderParams :=
  [SHD_COLOR; SHD_TEXCOORD; SHD_POSITION].

Definition unit_square : Quad :=
  ((colour_first, corner 0 0), (colour_first, corner 0 1),
   (position_first, corner 1 1), (colour_first, corner 1 0)).

End AssemblerStreams.

(** ** Programs over the whole matrix interface *)

Section MatrixCalls.

Import MatrixStack.

(** A call of the matrix interface. *)
Inductive Call : Type :=
| CallPush
| CallPop
| CallEdit (f : Matrix -> Matrix)
| CallMode (mode : Z).

Definition call (c : Call) (s : State) : State :=
  match c with
  | CallPush => rlPushMatrix s
  | CallPop => rlPopMatrix s
  | CallEdit f => edit_current f s
  | CallMode mode => rlMatrixMode mode s
  end.

Definition calls (cs : list Call) (s : State) : State :=
  fold_left (fun acc c => call c acc) cs s.

(** Every push of the program finds the counter, started at [c], below
    the capacity.  A pop at counter 0 leaves it at 0, as the code does. *)
Fixpoint within_capacity (c : Z) (cs : list Call) : bool :=
  match cs with
  | [] => true
  | CallPush :: cs => (c <? MAX_MATRIX_STACK_SIZE) && within_capacity (c + 1) cs
  | CallPop :: cs => within_capacity (if c >? 0 then c - 1 else c) cs
  | _ :: cs => within_capacity c cs
  end.

(** [rlBegin(mode)] reading the matrices of an [RLGL] state. *)
Definition rlBegin_with (m : State) (mode : Z) (bottom : bool)
    (a : Assembler.State) : Assembler.State :=
  Assembler.rlBegin mode bottom (projection m) (projectionBottom m) (modelview m) a.


End MatrixCalls.

(** ** Registry states and swizzle coverage *)

Section TextureRegistry.

Import Texture.

(** A list of ids that grows strictly, every id above [lo]. *)
Fixpoint ascending_from (lo : Z) (l : list Z) : Prop :=
  match l with
  | [] => True
  | x :: l => lo < x /\ ascending_from x l
  end.

(** The registry as allocation keeps it while id 1 stays live: empty, or
    starting at id 1 and strictly ascending. *)
Definition rooted (root : list TexLinkedList_t) : Prop :=
  match ids root with
  | [] => True
  | x :: l => x = 1 /\ ascending_from 1 l
  end.

(** Ids that the next allocation cannot wrap around. *)
Definition ids_bounded (root : list TexLinkedList_t) : Prop :=
  Forall (fun x => 0 <= x < 2 ^ 32 - 1) (ids root).

(** The sizes [checkTexSize] accepts. *)
Definition texture_sizes : list Z := [8; 16; 32; 64; 128; 256; 512; 1024].

(** A registry with a gap at id 2 and two nodes behind it. *)
Definition gapped_registry : list TexLinkedList_t :=
  [mkNode 1 None; mkNode 3 None; mkNode 4 None].

End TextureRegistry.


(** * Properties *)

(** ** Attribute assembler *)

Section AssemblerFacts.

Import Assembler.

(** Case analysis on which of the four slots a loop bounded by [N]
    visits. *)
Ltac slots_cases N :=
  destruct (0 <? N); destruct (1 <? N); destruct (2 <? N); destruct (3 <? N).

Lemma rlSendAttr_lastParams s :
  let s' := rlSendAttr lastParams s in
  gpu s' = gpu s ++ sent (shaderNumParams s) (lastParams s)
  /\ lastParams s' = lastParams s /\ backupParams s' = backupParams s
  /\ shaderNumParams s' = shaderNumParams s /\ paramMode s' = paramMode s
  /\ paramNum s' = paramNum s /\ currentDepth s' = currentDepth s
  /\ flushes s' = flushes s.
Proof.
  destruct s as [u l b N m n d g f].
  unfold rlSendAttr, for_slots, sent; simpl.
  slots_cases N; simpl; rewrite <- ?app_assoc, ?app_nil_r; simpl; repeat split; reflexivity.
Qed.

Lemma rlSendAttr_backupParams s :
  let s' := rlSendAttr backupParams s in
  gpu s' = gpu s ++ sent (shaderNumParams s) (backupParams s)
  /\ lastParams s' = lastParams s /\ backupParams s' = backupParams s
  /\ shaderNumParams s' = shaderNumParams s /\ paramMode s' = paramMode s
  /\ paramNum s' = paramNum s /\ currentDepth s' = currentDepth s
  /\ flushes s' = flushes s.
Proof.
  destruct s as [u l b N m n d g f].
  unfold rlSendAttr, for_slots, sent; simpl.
  slots_cases N; simpl; rewrite <- ?app_assoc, ?app_nil_r; simpl; repeat split; reflexivity.
Qed.

Lemma same_frame_refl s : same_frame s s.
Proof. repeat split. Qed.

Lemma same_frame_trans s1 s2 s3 :
  same_frame s1 s2 -> same_frame s2 s3 -> same_frame s1 s3.
Proof. unfold same_frame; intuition congruence. Qed.

Lemma same_frame_paramNum n s : same_frame s (with_paramNum n s).
Proof. repeat split. Qed.

Lemma same_frame_send_last s : same_frame s (rlSendAttr lastParams s).
Proof.
  pose proof (rlSendAttr_lastParams s) as H; cbv zeta in H.
  unfold same_frame; intuition congruence.
Qed.

Lemma same_frame_send_backup s : same_frame s (rlSendAttr backupParams s).
Proof.
  pose proof (rlSendAttr_backupParams s) as H; cbv zeta in H.
  unfold same_frame; intuition congruence.
Qed.

Lemma same_frame_backup s :
  same_frame s
    (for_slots (shaderNumParams (rlBackupParams s))
       (fun i acc => with_paramsUsed (set i false (paramsUsed acc)) acc)
       (rlBackupParams s)).
Proof.
  destruct s as [u l b N m n d g f].
  unfold rlBackupParams, for_slots; simpl.
  slots_cases N; repeat split.
Qed.

(** A flush is recorded once in the history, with the set it found, and
    changes nothing else of the frame. *)
Lemma rlPicaAttrFlush_frame s :
  let s' := rlPicaAttrFlush s in
  lastParams s' = lastParams s
  /\ shaderNumParams s' = shaderNumParams s
  /\ paramMode s' = paramMode s
  /\ currentDepth s' = currentDepth s
  /\ flushes s' = flushes s ++ [lastParams s].
Proof.
  cbv zeta.
  assert (H : same_frame (note_flush s) (rlPicaAttrFlush s)).
  { unfold rlPicaAttrFlush.
    generalize (note_flush s); intros s1.
    destruct (paramMode s1 =? RL_LINES); [apply same_frame_paramNum|].
    destruct (paramMode s1 =? RL_QUADS); [|apply same_frame_send_last].
    eapply same_frame_trans; [|apply same_frame_paramNum].
    eapply same_frame_trans; [|apply same_frame_paramNum].
    destruct (paramNum s1 =? 2); [apply same_frame_backup|].
    destruct (paramNum s1 =? 3); [|apply same_frame_send_last].
    eapply same_frame_trans; [apply same_frame_send_last|apply same_frame_send_backup]. }
  destruct H as (Hl & HN & Hm & Hd & Hf).
  repeat split; assumption.
Qed.

Lemma submit_frame slot v s :
  let s' := submit slot v s in
  shaderNumParams s' = shaderNumParams s
  /\ paramMode s' = paramMode s
  /\ currentDepth s' = currentDepth s
  /\ get slot (paramsUsed s') = true.
Proof.
  unfold submit.
  destruct (get slot (paramsUsed s) && (slot_index slot <? shaderNumParams s)).
  - destruct (rlPicaAttrFlush_frame s) as (_ & HN & Hm & Hd & _).
    destruct slot; simpl; repeat split; congruence.
  - destruct slot; simpl; repeat split; reflexivity.
Qed.

Lemma submit_lastParams slot v s :
  v (rlPicaAttrFlush s) = v s ->
  lastParams (submit slot v s) = set slot (v s) (lastParams s).
Proof.
  intros Hv. unfold submit.
  destruct (get slot (paramsUsed s) && (slot_index slot <? shaderNumParams s)).
  - destruct (rlPicaAttrFlush_frame s) as (Hl & _).
    destruct slot; simpl; rewrite Hl, Hv; reflexivity.
  - destruct slot; reflexivity.
Qed.

(** The rule shared by all setters: a slot submitted while it is pending
    and active is flushed, once, before it is overwritten. *)
Lemma submit_pending slot v s :
  get slot (paramsUsed s) = true ->
  slot_index slot < shaderNumParams s ->
  flushes (submit slot v s) = flushes s ++ [lastParams s].
Proof.
  intros Hu HN. unfold submit.
  rewrite Hu. apply Z.ltb_lt in HN. rewrite HN. simpl andb. cbv iota.
  destruct (rlPicaAttrFlush_frame s) as (_ & _ & _ & _ & Hf).
  destruct slot; simpl; exact Hf.
Qed.

Lemma submit_not_pending slot v s :
  get slot (paramsUsed s) = false ->
  flushes (submit slot v s) = flushes s
  /\ lastParams (submit slot v s) = set slot (v s) (lastParams s)
  /\ paramsUsed (submit slot v s) = set slot true (paramsUsed s)
  /\ shaderNumParams (submit slot v s) = shaderNumParams s.
Proof.
  intros Hu. unfold submit. rewrite Hu. simpl andb. cbv iota.
  destruct slot; repeat split; reflexivity.
Qed.

(** In a mode that is neither Lines nor Quads a flush sends the current
    set and nothing else. *)
Lemma rlPicaAttrFlush_triangles s :
  paramMode s <> RL_LINES -> paramMode s <> RL_QUADS ->
  gpu (rlPicaAttrFlush s) = gpu s ++ sent (shaderNumParams s) (lastParams s).
Proof.
  intros H1 H2. unfold rlPicaAttrFlush.
  change (paramMode (note_flush s)) with (paramMode s).
  apply Z.eqb_neq in H1, H2. rewrite H1, H2.
  pose proof (rlSendAttr_lastParams (note_flush s)) as H; cbv zeta in H.
  destruct H as (G & _). exact G.
Qed.

(** In Lines mode a flush only toggles the phase. *)
Lemma rlPicaAttrFlush_lines s :
  paramMode s = RL_LINES ->
  gpu (rlPicaAttrFlush s) = gpu s
  /\ paramsUsed (rlPicaAttrFlush s) = paramsUsed s
  /\ paramNum (rlPicaAttrFlush s) = (if paramNum s =? 0 then 1 else 0).
Proof.
  intros H. unfold rlPicaAttrFlush.
  change (paramMode (note_flush s)) with (paramMode s).
  rewrite H. change (RL_LINES =? RL_LINES) with true. cbv iota.
  repeat split.
Qed.

Lemma rlBegin_resets mode bottom pr prb mv s :
  let s' := rlBegin mode bottom pr prb mv s in
  paramsUsed s' = mkSlots false false false false
  /\ lastParams s'
     = mkSlots (mkVector4 Float32.zero Float32.zero Float32.zero Float32.zero)
               (mkVector4 Float32.zero Float32.zero Float32.zero Float32.zero)
               (mkVector4 Float32.one Float32.one Float32.one Float32.one)
               (mkVector4 Float32.zero Float32.zero Float32.one Float32.zero)
  /\ paramMode s' = mode /\ paramNum s' = 0
  /\ shaderNumParams s' = shaderNumParams s
  /\ currentDepth s' = currentDepth s
  /\ flushes s' = flushes s.
Proof.
  unfold rlBegin.
  destruct (mode =? RL_LINES); [|destruct (mode =? RL_TRIANGLES);
                                  [|destruct (mode =? RL_QUADS)]];
    repeat split; reflexivity.
Qed.

End AssemblerFacts.


Section AssemblerClaims.

Import Assembler.

(** **** C1 *)

(** C1, as stated, fails: on the fourth flush of a quad the code does not
    send the backup set first.  After [rlBegin(RL_QUADS)] and four
    positions the assembler is in phase 3, the backup holds the third
    corner and the current set the fourth, and the flush does not append
    the backup set followed by the current set to the sink. *)
Lemma quads_phase3_backup_first_refuted :
  paramMode quad_before_end = RL_QUADS
  /\ paramNum quad_before_end = 3
  /\ shaderNumParams quad_before_end = 3
  /\ get SHD_POSITION (backupParams quad_before_end)
     = mkVector4 (fz 1) (fz 1) (fz 0) Float32.zero
  /\ get SHD_POSITION (lastParams quad_before_end)
     = mkVector4 (fz 1) (fz 0) (fz 0) Float32.zero
  /\ gpu (rlPicaAttrFlush quad_before_end)
     <> gpu quad_before_end
        ++ sent 3 (backupParams quad_before_end)
        ++ sent 3 (lastParams quad_before_end).
Proof.
  repeat split.
  vm_compute. intros H. discriminate H.
Qed.

(** C1, amended: for a Quads primitive in phase 3 the flush performs
    exactly two attribute-set sends, first the current set and then the
    set saved in the backup at phase 2; it leaves both sets as they were
    and returns the phase to 0. *)
Theorem quads_phase3_sends_current_then_backup (s : State) :
  paramMode s = RL_QUADS ->
  paramNum s = 3 ->
  let s' := rlPicaAttrFlush s in
  gpu s' = gpu s
           ++ sent (shaderNumParams s) (lastParams s)
           ++ sent (shaderNumParams s) (backupParams s)
  /\ lastParams s' = lastParams s
  /\ backupParams s' = backupParams s
  /\ paramNum s' = 0.
Proof.
  intros Hm Hn. cbv zeta.
  set (s1 := note_flush s).
  set (s3 := rlSendAttr backupParams (rlSendAttr lastParams s1)).
  assert (E : rlPicaAttrFlush s
              = with_paramNum (Z.rem (paramNum (with_paramNum (paramNum s3 + 1) s3)) 4)
                  (with_paramNum (paramNum s3 + 1) s3)).
  { unfold rlPicaAttrFlush. fold s1.
    replace (paramMode s1) with RL_QUADS by (symmetry; exact Hm).
    replace (paramNum s1) with 3 by (symmetry; exact Hn).
    reflexivity. }
  rewrite E. cbn [gpu lastParams backupParams paramNum with_paramNum].
  pose proof (rlSendAttr_lastParams s1) as H1; cbv zeta in H1.
  pose proof (rlSendAttr_backupParams (rlSendAttr lastParams s1)) as H2; cbv zeta in H2.
  fold s3 in H2.
  destruct H1 as (G1 & L1 & B1 & N1 & _ & P1 & _).
  destruct H2 as (G2 & L2 & B2 & N2 & _ & P2 & _).
  assert (P3 : paramNum s3 = 3) by (rewrite P2, P1; exact Hn).
  rewrite G2, G1, L2, B2, L1, ?N1, ?B1, P3, <- app_assoc.
  repeat split; reflexivity.
Qed.

Lemma quads_phase3_sends_current_then_backup_witness :
  gpu (rlPicaAttrFlush quad_before_end)
  = gpu quad_before_end
    ++ sent (shaderNumParams quad_before_end) (lastParams quad_before_end)
    ++ sent (shaderNumParams quad_before_end) (backupParams quad_before_end)
  /\ lastParams (rlPicaAttrFlush quad_before_end) = lastParams quad_before_end
  /\ backupParams (rlPicaAttrFlush quad_before_end) = backupParams quad_before_end
  /\ paramNum (rlPicaAttrFlush quad_before_end) = 0.
Proof.
  apply (quads_phase3_sends_current_then_backup quad_before_end); reflexivity.
Defined.

(** **** C2 *)

(** C2, evaluated on the code: after [rlBegin(RL_LINES)] and one
    position, which is cached and pending, a flush toggles the phase from
    0 to 1 but sends nothing and clears no pending flag, and a whole
    two-vertex line reaches the sink without a single attribute. *)
Theorem lines_flush_sends_nothing :
  paramMode line_one_vertex = RL_LINES
  /\ get SHD_POSITION (paramsUsed line_one_vertex) = true
  /\ paramNum line_one_vertex = 0
  /\ paramNum (rlPicaAttrFlush line_one_vertex) = 1
  /\ gpu (rlPicaAttrFlush line_one_vertex) = gpu line_one_vertex
  /\ paramsUsed (rlPicaAttrFlush line_one_vertex) = paramsUsed line_one_vertex
  /\ gpu (rlEnd (rlVertex2f (fz 8) (fz 9) line_one_vertex))
     = [ C3D_ImmDrawBegin GPU_TRIANGLE_STRIP;
         C3D_FVUnifMtx4x4 uLoc_projection (to_C3D_Mtx MatrixIdentity);
         C3D_FVUnifMtx4x4 uLoc_modelView (to_C3D_Mtx MatrixIdentity);
         C3D_ImmDrawEnd ].
Proof.
  assert (Hm : paramMode line_one_vertex = RL_LINES) by reflexivity.
  destruct (rlPicaAttrFlush_lines line_one_vertex Hm) as (Hg & Hu & Hn).
  repeat split; try assumption; vm_compute; reflexivity.
Qed.

(** **** C8 *)

(** C8: two positions submitted in a row, with nothing submitted between
    them, cause exactly one flush, which happens before the second value
    is stored: the set it finds holds the first position, the other slots
    are those of the state before, and after [rlBegin] they are the
    defaults, or the colour and texture coordinate set since.  This holds
    for [rlVertex3f] and for [rlVertex2f], which stamps the depth
    counter into the third component. *)
Theorem position_twice_flushes_once (s : State) (x1 y1 z1 x2 y2 z2 : float) :
  0 < shaderNumParams s ->
  let z := Float32.zero in
  let o := Float32.one in
  (let s1 := rlVertex3f x1 y1 z1 s in
   let s2 := rlVertex3f x2 y2 z2 s1 in
   flushes s2
   = flushes s1 ++ [set SHD_POSITION (mkVector4 x1 y1 z1 z) (lastParams s)]
   /\ lastParams s2 = set SHD_POSITION (mkVector4 x2 y2 z2 z) (lastParams s))
  /\ (let s1 := rlVertex2f x1 y1 s in
      let s2 := rlVertex2f x2 y2 s1 in
      flushes s2
      = flushes s1
        ++ [set SHD_POSITION (mkVector4 x1 y1 (currentDepth s) z) (lastParams s)]
      /\ lastParams s2
         = set SHD_POSITION (mkVector4 x2 y2 (currentDepth s) z) (lastParams s))
  /\ (forall mode bottom pr prb mv,
        let s0 := rlBegin mode bottom pr prb mv s in
        flushes (rlVertex3f x2 y2 z2 (rlVertex3f x1 y1 z1 s0))
        = flushes s
          ++ [mkSlots (mkVector4 x1 y1 z1 z) (mkVector4 z z z z)
                      (mkVector4 o o o o) (mkVector4 z z o z)])
  /\ (forall mode bottom pr prb mv u v r g b a,
        let s0 := rlBegin mode bottom pr prb mv s in
        flushes (rlVertex3f x2 y2 z2
                   (rlVertex3f x1 y1 z1 (rlTexCoord2f u v (rlColor4f r g b a s0))))
        = flushes s
          ++ [mkSlots (mkVector4 x1 y1 z1 z) (mkVector4 u v z z)
                      (mkVector4 r g b a) (mkVector4 z z o z)]).
Proof.
  intros HN z o.
  assert (twice : forall (v1 v2 : State -> Vector4) t,
             0 < shaderNumParams t ->
             v1 (rlPicaAttrFlush t) = v1 t ->
             v2 (rlPicaAttrFlush (submit SHD_POSITION v1 t))
             = v2 (submit SHD_POSITION v1 t) ->
             v2 (submit SHD_POSITION v1 t) = v2 t ->
             flushes (submit SHD_POSITION v2 (submit SHD_POSITION v1 t))
             = flushes (submit SHD_POSITION v1 t)
               ++ [set SHD_POSITION (v1 t) (lastParams t)]
             /\ lastParams (submit SHD_POSITION v2 (submit SHD_POSITION v1 t))
                = set SHD_POSITION (v2 t) (lastParams t)).
  { intros v1 v2 t Ht H1 H2 H3.
    destruct (submit_frame SHD_POSITION v1 t) as (EN & _ & _ & EU); cbv zeta in *.
    split.
    - rewrite submit_pending; [|exact EU|rewrite EN; exact Ht].
      rewrite submit_lastParams by exact H1. reflexivity.
    - rewrite submit_lastParams by exact H2.
      rewrite submit_lastParams by exact H1. rewrite H3.
      destruct (lastParams t); reflexivity. }
  assert (depth_flush : forall t, currentDepth (rlPicaAttrFlush t) = currentDepth t).
  { intros t. destruct (rlPicaAttrFlush_frame t) as (_ & _ & _ & Hd & _). exact Hd. }
  assert (depth_submit : forall slot v t, currentDepth (submit slot v t) = currentDepth t).
  { intros slot v t. destruct (submit_frame slot v t) as (_ & _ & Hd & _). exact Hd. }
  split; [|split; [|split]].
  - cbv zeta. unfold rlVertex3f. apply twice; [exact HN|reflexivity|reflexivity|reflexivity].
  - cbv zeta. unfold rlVertex2f.
    apply (twice (fun t => mkVector4 x1 y1 (currentDepth t) Float32.zero)
                 (fun t => mkVector4 x2 y2 (currentDepth t) Float32.zero)).
    + exact HN.
    + rewrite depth_flush. reflexivity.
    + rewrite depth_flush. reflexivity.
    + rewrite depth_submit. reflexivity.
  - intros mode bottom pr prb mv s0.
    destruct (rlBegin_resets mode bottom pr prb mv s) as (Hu & Hl & _ & _ & EN & _ & Hf).
    fold s0 in Hu, Hl, EN, Hf. clearbody s0.
    unfold rlVertex3f.
    destruct (twice (fun _ => mkVector4 x1 y1 z1 Float32.zero)
                    (fun _ => mkVector4 x2 y2 z2 Float32.zero) s0) as (F & _);
      [rewrite EN; exact HN|reflexivity|reflexivity|reflexivity|].
    rewrite F.
    destruct (submit_not_pending SHD_POSITION (fun _ => mkVector4 x1 y1 z1 Float32.zero) s0)
      as (F1 & _); [rewrite Hu; reflexivity|].
    rewrite F1, Hf, Hl. reflexivity.
  - intros mode bottom pr prb mv u v r g b a s0.
    destruct (rlBegin_resets mode bottom pr prb mv s) as (Hu & Hl & _ & _ & EN & _ & Hf).
    fold s0 in Hu, Hl, EN, Hf. clearbody s0.
    set (sc := rlColor4f r g b a s0).
    destruct (submit_not_pending SHD_COLOR (fun _ => mkVector4 r g b a) s0)
      as (Fc & Lc & Uc & Nc); [rewrite Hu; reflexivity|].
    fold (rlColor4f r g b a) in Fc, Lc, Uc, Nc. fold sc in Fc, Lc, Uc, Nc.
    clearbody sc.
    set (st := rlTexCoord2f u v sc).
    destruct (submit_not_pending SHD_TEXCOORD
                (fun _ => mkVector4 u v Float32.zero Float32.zero) sc)
      as (Ft & Lt & Ut & Nt); [rewrite Uc, Hu; reflexivity|].
    fold (rlTexCoord2f u v) in Ft, Lt, Ut, Nt. fold st in Ft, Lt, Ut, Nt.
    clearbody st.
    unfold rlVertex3f.
    destruct (twice (fun _ => mkVector4 x1 y1 z1 Float32.zero)
                    (fun _ => mkVector4 x2 y2 z2 Float32.zero) st) as (F & _);
      [rewrite Nt, Nc, EN; exact HN|reflexivity|reflexivity|reflexivity|].
    rewrite F.
    destruct (submit_not_pending SHD_POSITION (fun _ => mkVector4 x1 y1 z1 Float32.zero) st)
      as (F1 & _); [rewrite Ut, Uc, Hu; reflexivity|].
    rewrite F1, Ft, Fc, Hf, Lt, Lc, Hl. reflexivity.
Qed.

Lemma position_twice_flushes_once_witness :
  flushes (rlVertex3f (fz 3) (fz 4) (fz 0)
             (rlVertex3f (fz 1) (fz 2) (fz 0) (begin_with RL_TRIANGLES rlglInit)))
  = [mkSlots (mkVector4 (fz 1) (fz 2) (fz 0) Float32.zero)
             (mkVector4 Float32.zero Float32.zero Float32.zero Float32.zero)
             (mkVector4 Float32.one Float32.one Float32.one Float32.one)
             (mkVector4 Float32.zero Float32.zero Float32.one Float32.zero)].
Proof.
  assert (H : 0 < shaderNumParams rlglInit) by reflexivity.
  destruct (position_twice_flushes_once rlglInit (fz 1) (fz 2) (fz 0) (fz 3) (fz 4) (fz 0) H)
    as (_ & _ & H3 & _).
  exact (H3 RL_TRIANGLES false MatrixIdentity MatrixIdentity MatrixIdentity).
Defined.

(** **** C9 *)

(** C9, as stated, fails: the counter is a C [float] and [rlEnd]
    subtracts with rounding.  From depth 0 one [rlEnd] leaves the float
    nearest to -1/20000, which is not -1/20000; and from depth 2^24 the
    counter does not move at all, however often [rlEnd] is called. *)
Lemma depth_exact_decrement_refuted :
  ~ (Float32.to_Q (currentDepth (rlEnd (at_depth (fz 0))))
     == Float32.to_Q (fz 0) - 1 * (1 # 20000))%Q
  /\ currentDepth (rlEnd (at_depth (fz 16777216))) = fz 16777216
  /\ currentDepth (Nat.iter 1000 rlEnd (at_depth (fz 16777216))) = fz 16777216
  /\ ~ (Float32.to_Q (currentDepth (Nat.iter 1000 rlEnd (at_depth (fz 16777216))))
        == Float32.to_Q (fz 16777216) - 1000 * (1 # 20000))%Q.
Proof.
  repeat split; try (vm_compute; reflexivity);
    vm_compute; intros H; discriminate H.
Qed.

(** C9, amended: each [rlEnd] replaces the depth counter [c] by the
    single-precision difference of [c] and the float constant
    [1.0f/20000.0f], so [N] calls apply that rounded subtraction [N]
    times to the starting depth; [rlSetDepth] stores its argument, and
    neither a flush, nor a setter, nor [rlBegin] changes the counter. *)
Theorem depth_after_ends (N : nat) (s : State) :
  currentDepth (Nat.iter N rlEnd s)
  = Nat.iter N (fun c => Float32.sub c depth_epsilon) (currentDepth s)
  /\ currentDepth (rlEnd s) = Float32.sub (currentDepth s) depth_epsilon
  /\ (forall d, currentDepth (rlSetDepth d s) = d)
  /\ currentDepth (rlPicaAttrFlush s) = currentDepth s
  /\ (forall slot v, currentDepth (submit slot v s) = currentDepth s)
  /\ (forall mode bottom pr prb mv,
        currentDepth (rlBegin mode bottom pr prb mv s) = currentDepth s).
Proof.
  assert (E : forall t, currentDepth (rlEnd t) = Float32.sub (currentDepth t) depth_epsilon).
  { intros t. unfold rlEnd.
    destruct (rlPicaAttrFlush_frame t) as (_ & _ & _ & Hd & _).
    cbn [currentDepth with_currentDepth emit]. rewrite Hd. reflexivity. }
  split; [|split; [|split; [|split; [|split]]]].
  - induction N as [|n IH]; [reflexivity|].
    cbn [Nat.iter nat_rect]. change (nat_rect _ ?a ?f n) with (Nat.iter n (fun x => f n x) a) in *.
    rewrite E. f_equal. exact IH.
  - apply E.
  - reflexivity.
  - destruct (rlPicaAttrFlush_frame s) as (_ & _ & _ & Hd & _). exact Hd.
  - intros slot v. destruct (submit_frame slot v s) as (_ & _ & Hd & _). exact Hd.
  - intros. destruct (rlBegin_resets mode bottom pr prb mv s) as (_ & _ & _ & _ & _ & Hd & _).
    exact Hd.
Qed.

(** **** C10 *)

(** C10: [rlColor3f] stores [(x, y, z, 0)] in the colour slot, with a
    fourth component 0 where the default set by [rlBegin] has 1, and a
    flush in Triangles mode with the three active attributes then sends
    that colour, alpha 0, as its third attribute. *)
Theorem rlColor3f_alpha_zero (s : State) (x y z : float) :
  paramMode s = RL_TRIANGLES ->
  shaderNumParams s = 3 ->
  let s1 := rlColor3f x y z s in
  let p := get SHD_POSITION (lastParams s) in
  let t := get SHD_TEXCOORD (lastParams s) in
  get SHD_COLOR (lastParams s1) = mkVector4 x y z Float32.zero
  /\ vw (get SHD_COLOR (lastParams s1)) <> Float32.one
  /\ (forall mode bottom pr prb mv,
        get SHD_COLOR (lastParams (rlBegin mode bottom pr prb mv s))
        = mkVector4 Float32.one Float32.one Float32.one Float32.one)
  /\ gpu (rlPicaAttrFlush s1)
     = gpu s1 ++ [ C3D_ImmSendAttrib (vx p) (vy p) (vz p) (vw p);
                   C3D_ImmSendAttrib (vx t) (vy t) (vz t) (vw t);
                   C3D_ImmSendAttrib x y z Float32.zero ].
Proof.
  intros Hm HN s1 p t.
  assert (HL : lastParams s1 = set SHD_COLOR (mkVector4 x y z Float32.zero) (lastParams s)).
  { unfold s1, rlColor3f. apply submit_lastParams. reflexivity. }
  destruct (submit_frame SHD_COLOR (fun _ => mkVector4 x y z Float32.zero) s)
    as (EN & EM & _ & _).
  fold (rlColor3f x y z) in EN, EM. fold s1 in EN, EM.
  split; [|split; [|split]].
  - rewrite HL. reflexivity.
  - rewrite HL. cbn [get set at_color vw]. vm_compute. intros H. discriminate H.
  - intros. destruct (rlBegin_resets mode bottom pr prb mv s) as (_ & Hl & _).
    rewrite Hl. reflexivity.
  - rewrite rlPicaAttrFlush_triangles.
    + rewrite EN, HN, HL. reflexivity.
    + rewrite EM, Hm. vm_compute. intros H. discriminate H.
    + rewrite EM, Hm. vm_compute. intros H. discriminate H.
Qed.

Lemma rlColor3f_alpha_zero_witness :
  get SHD_COLOR (lastParams (rlColor3f (fz 1) (fz 0) (fz 0) (begin_with RL_TRIANGLES rlglInit)))
  = mkVector4 (fz 1) (fz 0) (fz 0) Float32.zero
  /\ gpu (rlPicaAttrFlush triangle_one_vertex)
     = gpu triangle_one_vertex
       ++ [ C3D_ImmSendAttrib (fz 5) (fz 6) (fz 7) Float32.zero;
            C3D_ImmSendAttrib Float32.zero Float32.zero Float32.zero Float32.zero;
            C3D_ImmSendAttrib (fz 1) (fz 0) (fz 0) Float32.zero ].
Proof.
  assert (Hm : paramMode (begin_with RL_TRIANGLES rlglInit) = RL_TRIANGLES) by reflexivity.
  assert (HN : shaderNumParams (begin_with RL_TRIANGLES rlglInit) = 3) by reflexivity.
  destruct (rlColor3f_alpha_zero (begin_with RL_TRIANGLES rlglInit) (fz 1) (fz 0) (fz 0) Hm HN)
    as (H1 & _ & _ & _).
  split; [exact H1|].
  vm_compute. reflexivity.
Defined.

End AssemblerClaims.


(** ** Matrix stack *)

Section MatrixStackFacts.

Import MatrixStack.

(** Evaluation of field accesses and updates, leaving arithmetic alone. *)
Ltac fields :=
  cbv beta iota zeta delta
    [currentMatrixMode currentMatrix modelview projection projectionBottom
     transform transformRequired stack stackCounter tracelog faults
     with_mode with_currentMatrix with_transformRequired with_stack
     with_stackCounter TRACELOG fault deref assign current stack_store] in *.

Lemma run_app u w s : run (u ++ w) s = run w (run u s).
Proof. unfold run. apply fold_left_app. Qed.

Lemma run_cons o w s : run (o :: w) s = run w (step o s).
Proof. reflexivity. Qed.

Lemma peak_ge d w : d <= peak d w.
Proof.
  revert d. induction w as [|o w IH]; intros d; simpl; [lia|].
  destruct o; try lia. apply IH.
Qed.

Lemma peak_app_balanced u :
  balanced u -> forall d w, peak d (u ++ w) = Z.max (peak d u) (peak d w).
Proof.
  induction 1 as [|f u Hu IH|u1 u2 H1 IH1 H2 IH2]; intros d w.
  - simpl. pose proof (peak_ge d w). lia.
  - simpl. apply IH.
  - simpl. rewrite <- app_assoc. simpl.
    rewrite !IH1. simpl. replace (d + 1 - 1) with d by lia.
    rewrite IH2. pose proof (peak_ge d u2). pose proof (peak_ge d w).
    pose proof (peak_ge (d + 1) u1). lia.
Qed.

(** What one push does below capacity. *)
Lemma rlPushMatrix_spec s :
  well_formed s -> 0 <= stackCounter s < MAX_MATRIX_STACK_SIZE ->
  let s1 := rlPushMatrix s in
  currentMatrix s1
  = (if currentMatrixMode s =? RL_MODELVIEW then RefTransform else currentMatrix s)
  /\ currentMatrixMode s1 = currentMatrixMode s
  /\ (forall r, deref r s1 = deref r s)
  /\ stackCounter s1 = stackCounter s + 1
  /\ stack s1 = <[Z.to_nat (stackCounter s) := (deref (currentMatrix s1) s)]> (stack s)
  /\ well_formed s1
  /\ tracelog s1 = tracelog s /\ faults s1 = faults s.
Proof.
  intros Hwf Hc. destruct s as [mode cur mv pr prb tr trq st c lg fl].
  unfold well_formed, rlPushMatrix in *. fields.
  assert (E1 : (c >=? MAX_MATRIX_STACK_SIZE) = false) by (unfold MAX_MATRIX_STACK_SIZE in *; lia).
  assert (E2 : in_bounds c = true) by (unfold in_bounds, MAX_MATRIX_STACK_SIZE in *; lia).
  rewrite E1.
  destruct (mode =? RL_MODELVIEW); fields; rewrite E2; fields;
    (repeat split; try reflexivity; try (intros r; destruct r; reflexivity);
     rewrite length_insert; exact Hwf).
Qed.

(** What one pop does on a stack with a saved matrix on top. *)
Lemma rlPopMatrix_spec s m :
  0 < stackCounter s <= MAX_MATRIX_STACK_SIZE ->
  stack s !! Z.to_nat (stackCounter s - 1) = Some m ->
  let s3 := rlPopMatrix s in
  stackCounter s3 = stackCounter s - 1
  /\ currentMatrixMode s3 = currentMatrixMode s
  /\ stack s3 = stack s
  /\ currentMatrix s3
     = (if (stackCounter s - 1 =? 0) && (currentMatrixMode s =? RL_MODELVIEW)
        then RefModelview else currentMatrix s)
  /\ deref (currentMatrix s) s3 = m
  /\ (forall r, r <> currentMatrix s -> deref r s3 = deref r s)
  /\ tracelog s3 = tracelog s /\ faults s3 = faults s.
Proof.
  intros Hc Hm. destruct s as [mode cur mv pr prb tr trq st c lg fl].
  unfold rlPopMatrix. fields.
  assert (E1 : (c >? 0) = true) by lia.
  assert (E2 : in_bounds (c - 1) = true) by (unfold in_bounds, MAX_MATRIX_STACK_SIZE in *; lia).
  rewrite E1, E2, Hm.
  destruct cur; fields;
    destruct ((c - 1 =? 0) && (mode =? RL_MODELVIEW)); fields;
    (repeat split; try reflexivity;
     intros r Hr; destruct r; try reflexivity; contradiction).
Qed.

Lemma edit_current_spec f s :
  let s1 := edit_current f s in
  currentMatrix s1 = currentMatrix s
  /\ currentMatrixMode s1 = currentMatrixMode s
  /\ stackCounter s1 = stackCounter s
  /\ stack s1 = stack s
  /\ deref (currentMatrix s) s1 = f (current s)
  /\ (forall r, r <> currentMatrix s -> deref r s1 = deref r s).
Proof.
  destruct s as [mode cur mv pr prb tr trq st c lg fl].
  unfold edit_current. fields.
  destruct cur; fields;
    (repeat split; try reflexivity;
     intros r Hr; destruct r; try reflexivity; contradiction).
Qed.

(** A push, a program that preserves, and the pop: everything is as
    before, the current matrix included. *)
Lemma bracket w :
  inner w ->
  forall s, well_formed s -> 0 <= stackCounter s ->
            peak (stackCounter s + 1) w <= MAX_MATRIX_STACK_SIZE -> steady s ->
            let s' := rlPopMatrix (run w (rlPushMatrix s)) in
            preserved s s' /\ deref (currentMatrix s) s' = deref (currentMatrix s) s.
Proof.
  intros Hw s Hwf H0 Hpk Hst. cbv zeta.
  pose proof (peak_ge (stackCounter s + 1) w) as Hge.
  assert (Hc : 0 <= stackCounter s < MAX_MATRIX_STACK_SIZE) by lia.
  destruct (rlPushMatrix_spec s Hwf Hc) as (C1 & M1 & D1 & K1 & S1 & W1 & _).
  cbv zeta in *. set (s1 := rlPushMatrix s) in *.
  assert (C1' : currentMatrix s1 = currentMatrix s).
  { rewrite C1. destruct (Z.eqb_spec (currentMatrixMode s) RL_MODELVIEW) as [E|E]; [|reflexivity].
    destruct Hst as [Hst|[_ Hst]]; [contradiction|symmetry; exact Hst]. }
  assert (St1 : steady s1).
  { destruct Hst as [Hst|[_ Hst]]; [left; rewrite M1; exact Hst|].
    right. split; [lia|]. rewrite C1'. exact Hst. }
  assert (Hpk1 : peak (stackCounter s1) w <= MAX_MATRIX_STACK_SIZE) by (rewrite K1; exact Hpk).
  assert (H01 : 0 <= stackCounter s1) by lia.
  destruct (Hw s1 W1 H01 Hpk1 St1) as (W2 & K2 & C2 & M2 & D2 & S2).
  set (s2 := run w s1) in *.
  assert (Top : stack s2 !! Z.to_nat (stackCounter s2 - 1)
                = Some (deref (currentMatrix s) s)).
  { rewrite K2, K1. replace (stackCounter s + 1 - 1) with (stackCounter s) by lia.
    rewrite S2 by (rewrite K1; lia).
    rewrite S1, C1'. apply list_lookup_insert_eq.
    unfold well_formed, MAX_MATRIX_STACK_SIZE in *. lia. }
  assert (Hc2 : 0 < stackCounter s2 <= MAX_MATRIX_STACK_SIZE) by lia.
  destruct (rlPopMatrix_spec s2 _ Hc2 Top) as (K3 & M3 & S3 & C3 & D3 & D3' & _).
  cbv zeta in *. set (s3 := rlPopMatrix s2) in *.
  assert (C3' : currentMatrix s3 = currentMatrix s).
  { rewrite C3, C2, C1'.
    destruct (Z.eqb_spec (currentMatrixMode s2) RL_MODELVIEW) as [E|E];
      [|rewrite andb_false_r; reflexivity].
    destruct Hst as [Hst|[Hst _]]; [rewrite M2, M1 in E; contradiction|].
    replace (stackCounter s2 - 1 =? 0) with false by (symmetry; apply Z.eqb_neq; lia).
    reflexivity. }
  split; [repeat split|].
  - unfold well_formed in *. rewrite S3. exact W2.
  - lia.
  - exact C3'.
  - congruence.
  - intros r Hr. rewrite D3' by congruence. rewrite D2 by congruence. apply D1.
  - intros i Hi. rewrite S3. rewrite S2 by lia.
    rewrite S1. apply list_lookup_insert_ne. lia.
  - assert (E : currentMatrix s2 = currentMatrix s) by congruence.
    rewrite <- E at 1. exact D3.
Qed.

Lemma preserved_trans s1 s2 s3 :
  preserved s1 s2 -> preserved s2 s3 -> preserved s1 s3.
Proof.
  intros (W2 & K2 & C2 & M2 & D2 & S2) (W3 & K3 & C3 & M3 & D3 & S3).
  repeat split; try congruence.
  - intros r Hr. rewrite D3 by congruence. apply D2, Hr.
  - intros i Hi. rewrite S3 by (rewrite K2; exact Hi). apply S2, Hi.
Qed.

Lemma steady_preserved s s' : steady s -> preserved s s' -> steady s'.
Proof.
  intros Hst (_ & K & C & M & _). destruct Hst as [H|[H1 H2]]; [left|right]; [congruence|].
  split; congruence.
Qed.

(** Every balanced program within capacity preserves. *)
Lemma balanced_inner w : balanced w -> inner w.
Proof.
  induction 1 as [|f w Hw IH|u w Hu IHu Hw IHw]; intros s Hwf H0 Hpk Hst.
  - repeat split; try reflexivity. exact Hwf.
  - rewrite run_cons. cbn [step peak] in *.
    destruct (edit_current_spec f s) as (C1 & M1 & K1 & S1 & _ & D1). cbv zeta in *.
    assert (P1 : preserved s (edit_current f s)).
    { repeat split; try assumption.
      - unfold well_formed in *. rewrite S1. exact Hwf.
      - intros i _. rewrite S1. reflexivity. }
    eapply preserved_trans; [exact P1|].
    apply IH.
    + apply P1.
    + rewrite K1. exact H0.
    + rewrite K1. exact Hpk.
    + eapply steady_preserved; eassumption.
  - rewrite run_cons, run_app, run_cons. cbn [step].
    cbn [peak] in Hpk. rewrite (peak_app_balanced u Hu) in Hpk. cbn [peak] in Hpk.
    replace (stackCounter s + 1 - 1) with (stackCounter s) in Hpk by lia.
    destruct (bracket u IHu s Hwf H0 ltac:(lia) Hst) as (P1 & _).
    eapply preserved_trans; [exact P1|].
    destruct P1 as (W1 & K1 & C1 & M1 & D1 & S1).
    apply IHw.
    + exact W1.
    + rewrite K1. exact H0.
    + rewrite K1. lia.
    + eapply steady_preserved; [exact Hst|]. repeat split; assumption.
Qed.

End MatrixStackFacts.


Section MatrixStackClaims.

Import MatrixStack.

(** What a push does once the counter has reached the capacity. *)
Lemma rlPushMatrix_at_capacity s :
  stackCounter s = MAX_MATRIX_STACK_SIZE ->
  let s1 := rlPushMatrix s in
  tracelog s1 = tracelog s ++ [(LOG_ERROR, MatrixStackOverflow)]
  /\ faults s1 = faults s ++ [StoreOutOfBounds MAX_MATRIX_STACK_SIZE]
  /\ stackCounter s1 = MAX_MATRIX_STACK_SIZE + 1
  /\ stack s1 = stack s.
Proof.
  intros Hc. destruct s as [mode cur mv pr prb tr trq st c lg fl].
  cbn [stackCounter] in Hc. subst c.
  unfold rlPushMatrix.
  cbv beta iota zeta delta
    [currentMatrixMode currentMatrix stack stackCounter tracelog faults
     with_currentMatrix with_transformRequired with_stackCounter TRACELOG].
  change (MAX_MATRIX_STACK_SIZE >=? MAX_MATRIX_STACK_SIZE) with true. cbv iota.
  destruct (mode =? RL_MODELVIEW); repeat split; reflexivity.
Qed.

(** **** C3 *)

(** C3, evaluated on the code: with the stack filled by 32 pushes the
    counter equals the capacity; the next push reports the overflow, and
    then goes on to store at index 32, past the last slot, and to raise
    the counter to 33. *)
Theorem push_at_capacity_overflows :
  stackCounter full_stack = 32
  /\ length (stack full_stack) = 32%nat
  /\ faults full_stack = []
  /\ tracelog (rlPushMatrix full_stack) = [(LOG_ERROR, MatrixStackOverflow)]
  /\ faults (rlPushMatrix full_stack) = [StoreOutOfBounds 32]
  /\ stackCounter (rlPushMatrix full_stack) = 33.
Proof.
  assert (Hc : stackCounter full_stack = MAX_MATRIX_STACK_SIZE) by (vm_compute; reflexivity).
  destruct (rlPushMatrix_at_capacity full_stack Hc) as (Hl & Hf & Hk & _).
  cbv zeta in *.
  assert (Hf0 : faults full_stack = []) by (vm_compute; reflexivity).
  assert (Hl0 : tracelog full_stack = []) by (vm_compute; reflexivity).
  rewrite Hl, Hf, Hk, Hl0, Hf0.
  repeat split; vm_compute; reflexivity.
Qed.

(** **** C6 *)

(** C6, as stated, fails: in Modelview mode with the counter above 0 and
    the current matrix still the modelview matrix (the state after a
    camera mode has pushed the projection), a push and its pop stay
    within capacity, yet leave the Transform matrix current, not the
    matrix that was current before the push. *)
Lemma push_pop_restores_refuted :
  well_formed camera_mode
  /\ balanced [Push; Pop]
  /\ stackCounter camera_mode = 1
  /\ peak (stackCounter camera_mode) [Push; Pop] <= MAX_MATRIX_STACK_SIZE
  /\ current camera_mode = camera
  /\ current (run [Push; Pop] camera_mode) = MatrixIdentity
  /\ current (run [Push; Pop] camera_mode) <> current camera_mode.
Proof.
  split; [reflexivity|].
  split; [exact (balanced_nest [] [] balanced_nil balanced_nil)|].
  repeat split; try (vm_compute; reflexivity).
  - vm_compute. intros H. discriminate H.
  - vm_compute. intros H. discriminate H.
Qed.

(** C6, amended: take a push, any balanced program of pushes, pops and
    edits of the current matrix, and the matching pop, all within the
    capacity of 32.  If the matrix mode is not Modelview, or the counter
    is 0 and the modelview matrix is current, or the counter is above 0
    and the Transform matrix is current, then after the pop the current
    matrix equals the matrix that was current before the push, and the
    counter is back at its value. *)
Theorem push_pop_restores (s : State) (w : list Op) :
  well_formed s ->
  balanced w ->
  0 <= stackCounter s ->
  peak (stackCounter s + 1) w <= MAX_MATRIX_STACK_SIZE ->
  settled s ->
  let s' := run (Push :: w ++ [Pop]) s in
  current s' = current s /\ stackCounter s' = stackCounter s.
Proof.
  intros Hwf Hw H0 Hpk Hset. cbv zeta.
  rewrite run_cons, run_app. cbn [step run fold_left].
  assert (Hsteady : steady s ->
                    current (rlPopMatrix (run w (rlPushMatrix s))) = current s
                    /\ stackCounter (rlPopMatrix (run w (rlPushMatrix s))) = stackCounter s).
  { intros Hst.
    destruct (bracket w (balanced_inner w Hw) s Hwf H0 Hpk Hst)
      as ((_ & K & C & _) & D).
    split; [|exact K]. unfold current. rewrite C. exact D. }
  destruct (Z.eq_dec (currentMatrixMode s) RL_MODELVIEW) as [Emode|Emode];
    [|apply Hsteady; left; exact Emode].
  destruct Hset as [Hset|[[Hk Hcur]|Hset]];
    [contradiction| |apply Hsteady; right; exact Hset].
  (* Modelview mode, counter 0, the modelview matrix current *)
  pose proof (peak_ge (stackCounter s + 1) w) as Hge.
  assert (Hc : 0 <= stackCounter s < MAX_MATRIX_STACK_SIZE) by lia.
  destruct (rlPushMatrix_spec s Hwf Hc) as (C1 & M1 & D1 & K1 & S1 & W1 & _).
  cbv zeta in *. set (s1 := rlPushMatrix s) in *.
  rewrite Emode in C1. change (RL_MODELVIEW =? RL_MODELVIEW) with true in C1.
  cbv iota in C1.
  assert (St1 : steady s1) by (right; split; [lia|exact C1]).
  assert (Hpk1 : peak (stackCounter s1) w <= MAX_MATRIX_STACK_SIZE) by (rewrite K1; exact Hpk).
  assert (H01 : 0 <= stackCounter s1) by lia.
  destruct (balanced_inner w Hw s1 W1 H01 Hpk1 St1) as (W2 & K2 & C2 & M2 & D2 & S2).
  set (s2 := run w s1) in *.
  assert (Top : stack s2 !! Z.to_nat (stackCounter s2 - 1)
                = Some (deref (currentMatrix s1) s)).
  { rewrite K2, K1, Hk. rewrite S2 by (rewrite K1, Hk; simpl; lia).
    rewrite S1, Hk. apply list_lookup_insert_eq.
    unfold well_formed, MAX_MATRIX_STACK_SIZE in *. simpl. lia. }
  assert (Hc2 : 0 < stackCounter s2 <= MAX_MATRIX_STACK_SIZE) by lia.
  destruct (rlPopMatrix_spec s2 _ Hc2 Top) as (K3 & M3 & S3 & C3 & _ & D3 & _).
  cbv zeta in *. set (s3 := rlPopMatrix s2) in *.
  rewrite K2, K1, Hk, M2, M1, Emode in C3.
  change ((0 + 1 - 1 =? 0) && (RL_MODELVIEW =? RL_MODELVIEW)) with true in C3.
  cbv iota in C3.
  split; [|lia].
  unfold current. rewrite C3, Hcur.
  rewrite D3 by (rewrite C2, C1; discriminate).
  rewrite D2 by (rewrite C1; discriminate).
  apply D1.
Qed.

Lemma push_pop_restores_witness :
  current (run (Push :: [Edit (fun _ => camera); Push; Pop] ++ [Pop])
             (rlMatrixMode RL_MODELVIEW rlglInit))
  = current (rlMatrixMode RL_MODELVIEW rlglInit)
  /\ stackCounter (run (Push :: [Edit (fun _ => camera); Push; Pop] ++ [Pop])
                     (rlMatrixMode RL_MODELVIEW rlglInit))
     = stackCounter (rlMatrixMode RL_MODELVIEW rlglInit).
Proof.
  apply (push_pop_restores (rlMatrixMode RL_MODELVIEW rlglInit)
           [Edit (fun _ => camera); Push; Pop]).
  - reflexivity.
  - apply balanced_edit. exact (balanced_nest [] [] balanced_nil balanced_nil).
  - vm_compute. discriminate.
  - vm_compute. discriminate.
  - right. left. split; reflexivity.
Defined.

End MatrixStackClaims.


(** ** Texture swizzle and registry *)

Section TextureFacts.

Import Texture.

Lemma fold_left_ext_in {A B} (f g : A -> B -> A) (l : list B) (a : A) :
  (forall x acc, f acc x = g acc x) -> fold_left f l a = fold_left g l a.
Proof.
  intros H. revert a. induction l as [|x l IH]; intros a; simpl; [reflexivity|].
  rewrite H. apply IH.
Qed.

Lemma fold_left_flat_map {A B C} (f : A -> C -> A) (g : B -> list C) (l : list B) (a : A) :
  fold_left (fun acc x => fold_left f (g x) acc) l a = fold_left f (flat_map g l) a.
Proof.
  revert a. induction l as [|x l IH]; intros a; simpl; [reflexivity|].
  rewrite fold_left_app. apply IH.
Qed.

Lemma fold_left_through_map {A B C} (f : A -> C -> A) (g : B -> C) (l : list B) (a : A) :
  fold_left (fun acc x => f acc (g x)) l a = fold_left f (map g l) a.
Proof.
  revert a. induction l as [|x l IH]; intros a; simpl; [reflexivity|]. apply IH.
Qed.

(** A loop whose body is a run of stores is the run of all its stores. *)
Lemma for_loop_writes hi step (body : Z -> list (option u8) -> list (option u8))
    (g : Z -> list Write) buf :
  (forall i b, body i b = fold_left write (g i) b) ->
  for_loop hi step body buf = fold_left write (flat_map g (iterations hi step)) buf.
Proof.
  intros H. unfold for_loop. rewrite <- fold_left_flat_map.
  apply fold_left_ext_in. intros x acc. apply H.
Qed.

Lemma swizzle_loops_writes data width height bpp :
  swizzle_loops data width height bpp
  = fold_left write (writes data width height bpp)
      (replicate (Z.to_nat (Z.quot (width * height * bpp) 8)) None).
Proof.
  unfold swizzle_loops, writes.
  apply for_loop_writes; intros w buf.
  apply for_loop_writes; intros h buf1.
  apply for_loop_writes; intros i buf2.
  cbv zeta.
  apply for_loop_writes; intros j buf3.
  unfold for_loop. rewrite <- fold_left_through_map. reflexivity.
Qed.

Lemma length_store off v buf : length (store off v buf) = length buf.
Proof. unfold store. destruct (0 <=? off); [apply length_insert|reflexivity]. Qed.

Lemma length_fold_write ws buf : length (fold_left write ws buf) = length buf.
Proof.
  revert buf. induction ws as [|x ws IH]; intros buf; simpl; [reflexivity|].
  rewrite IH. apply length_store.
Qed.

Lemma fold_write_untouched ws : forall buf (d : Z),
  0 <= d -> ~ In d (map fst ws) ->
  fold_left write ws buf !! Z.to_nat d = buf !! Z.to_nat d.
Proof.
  induction ws as [|[d' v'] ws IH]; intros buf d Hd Hn; simpl; [reflexivity|].
  simpl in Hn. rewrite IH by tauto.
  unfold write, store; simpl.
  destruct (Z.leb_spec 0 d'); [|reflexivity].
  apply list_lookup_insert_ne. intros E. apply Hn. left. lia.
Qed.

(** The last store to an offset decides its content; when all stores to
    it carry one value, that value is the content. *)
Lemma fold_write_lookup ws : forall buf (d : Z) v,
  0 <= d -> (Z.to_nat d < length buf)%nat ->
  In (d, v) ws ->
  (forall v', In (d, v') ws -> v' = v) ->
  fold_left write ws buf !! Z.to_nat d = Some v.
Proof.
  induction ws as [|[d' v'] ws IH]; intros buf d v Hd Hlen Hin Huniq; [contradiction|].
  simpl.
  destruct (in_dec Z.eq_dec d (map fst ws)) as [Hlater|Hlater].
  - apply in_map_iff in Hlater. destruct Hlater as ([d2 v2] & E & Hin2).
    simpl in E. subst d2.
    assert (v2 = v) by (apply Huniq; right; exact Hin2). subst v2.
    apply IH; try assumption.
    + unfold write. rewrite length_store. exact Hlen.
    + intros v3 H3. apply Huniq. right. exact H3.
  - rewrite fold_write_untouched by assumption.
    destruct Hin as [E|Hin].
    + inversion E; subst d' v'. unfold write, store; simpl.
      destruct (Z.leb_spec 0 d); [|lia].
      apply list_lookup_insert_eq. exact Hlen.
    + exfalso. apply Hlater. apply in_map_iff. exists (d, v). split; [reflexivity|exact Hin].
Qed.

(** Checking a decidable property of the numbers below a bound by
    running through them. *)
Lemma below_forallb (n : nat) (P : Z -> bool) :
  forallb P (below n) = true -> forall i, 0 <= i < Z.of_nat n -> P i = true.
Proof.
  intros H i Hi. rewrite forallb_forall in H. apply H.
  unfold below. apply in_map_iff. exists (Z.to_nat i). split; [lia|].
  apply in_seq. lia.
Qed.

Lemma in_iterations_1 hi x : In x (iterations hi 1) <-> 0 <= x < hi.
Proof.
  unfold iterations. rewrite in_map_iff.
  replace ((hi + 1 - 1) / 1) with hi by (rewrite Z.div_1_r; lia).
  split.
  - intros (n & E & Hn). apply in_seq in Hn. lia.
  - intros Hx. exists (Z.to_nat x). split; [lia|]. apply in_seq. lia.
Qed.

Lemma in_iterations_64_2 x :
  In x (iterations 64 2) <-> exists n, 0 <= n < 32 /\ x = 2 * n.
Proof.
  unfold iterations. rewrite in_map_iff.
  change (Z.to_nat ((64 + 2 - 1) / 2)) with 32%nat.
  split.
  - intros (n & E & Hn). apply in_seq in Hn. exists (Z.of_nat n). lia.
  - intros (n & Hn & E). exists (Z.to_nat n). split; [lia|]. apply in_seq. lia.
Qed.

(** The table is a permutation of [0 .. 63] that keeps each even entry
    and its successor adjacent. *)
Lemma swizzle_at_facts i :
  0 <= i < 64 ->
  0 <= swizzle_at i < 64
  /\ unswizzle (swizzle_at i) = i
  /\ swizzle_at (2 * (i / 2)) + i mod 2 = swizzle_at i
  /\ Z.rem (2 * (i / 2)) 8 + i mod 2 = i mod 8
  /\ Z.quot (2 * (i / 2)) 8 = i / 8.
Proof.
  intros Hi.
  pose proof (below_forallb 64
    (fun i => (0 <=? swizzle_at i) && (swizzle_at i <? 64)
              && (unswizzle (swizzle_at i) =? i)
              && (swizzle_at (2 * (i / 2)) + i mod 2 =? swizzle_at i)
              && (Z.rem (2 * (i / 2)) 8 + i mod 2 =? i mod 8)
              && (Z.quot (2 * (i / 2)) 8 =? i / 8))) as H.
  specialize (H ltac:(vm_compute; reflexivity) i Hi). cbv beta in H.
  repeat (apply andb_prop in H; destruct H as [H ?]).
  repeat split; try (apply Z.eqb_eq; assumption); lia.
Qed.

Lemma swizzle_at_inj i1 i2 :
  0 <= i1 < 64 -> 0 <= i2 < 64 -> swizzle_at i1 = swizzle_at i2 -> i1 = i2.
Proof.
  intros H1 H2 E.
  destruct (swizzle_at_facts i1 H1) as (_ & U1 & _).
  destruct (swizzle_at_facts i2 H2) as (_ & U2 & _).
  congruence.
Qed.

Lemma checkTexSize_true n :
  checkTexSize n = true -> exists a, n = 8 * a /\ 1 <= a <= 128.
Proof.
  intros H.
  assert (Hr : 0 <= n < Z.of_nat 1025).
  { unfold checkTexSize in H.
    destruct (Z.ltb_spec n 8); [discriminate|].
    destruct (Z.gtb_spec n 1024); [discriminate|]. lia. }
  pose proof (below_forallb 1025
    (fun n => implb (checkTexSize n) ((n mod 8 =? 0) && (8 <=? n) && (n <=? 1024)))) as F.
  specialize (F ltac:(vm_compute; reflexivity) n Hr). cbv beta in F.
  rewrite H in F. simpl in F.
  apply andb_prop in F. destruct F as [F F3].
  apply andb_prop in F. destruct F as [F1 F2].
  exists (n / 8). apply Z.eqb_eq in F1.
  pose proof (Z.div_mod n 8 ltac:(lia)). lia.
Qed.

Lemma quot8 x : Z.quot (8 * x) 8 = x.
Proof. rewrite Z.mul_comm. apply Z.quot_mul. discriminate. Qed.

Lemma quot8_mul x y : Z.quot (x * (8 * y)) 8 = x * y.
Proof.
  replace (x * (8 * y)) with (x * y * 8) by ring. apply Z.quot_mul. discriminate.
Qed.

Lemma numBytes_of nb :
  1 <= nb -> (if Z.quot (8 * nb) 8 =? 0 then 1 else Z.quot (8 * nb) 8) = nb.
Proof.
  intros H. rewrite quot8. destruct (Z.eqb_spec nb 0); [lia|reflexivity].
Qed.

(** The store the loop nest makes at its indices [2*(i/2)], [i mod 2]
    and [k] is the store of byte [k] of pixel [i]. *)
Lemma loop_store data a b nb w h i k :
  1 <= nb -> 0 <= i < 64 ->
  let i0 := 2 * (i / 2) in
  let j := i mod 2 in
  let pixelNum := w * 8 + Z.rem i0 8 + (8 * b - (h * 8 + Z.quot i0 8) - 1) * (8 * a) in
  let src := Z.quot (pixelNum * (8 * nb)) 8 in
  let dest := Z.quot ((w + Z.quot (h * (8 * a)) 8) * 64 * (8 * nb)) 8
              + Z.quot (swizzle_at i0 * (8 * nb)) 8 in
  let numBytes := if Z.quot (8 * nb) 8 =? 0 then 1 else Z.quot (8 * nb) 8 in
  (dest + numBytes * j + numBytes - k - 1, load data (src + k + numBytes * j))
  = (dest_offset a nb w h i k, load data (source_offset a b nb w h i k)).
Proof.
  intros Hnb Hi. cbv zeta.
  destruct (swizzle_at_facts i Hi) as (_ & _ & F2 & F4 & F5).
  rewrite (numBytes_of nb Hnb), !quot8_mul, F5.
  replace (Z.rem (2 * (i / 2)) 8) with (i mod 8 - i mod 2) by lia.
  unfold dest_offset, source_offset. rewrite <- F2.
  f_equal; [ring|f_equal; ring].
Qed.

Lemma writes_complete data a b nb w h i k :
  1 <= nb -> 0 <= w < a -> 0 <= h < b -> 0 <= i < 64 -> 0 <= k < nb ->
  In (dest_offset a nb w h i k, load data (source_offset a b nb w h i k))
     (writes data (8 * a) (8 * b) (8 * nb)).
Proof.
  intros Hnb Hw Hh Hi Hk.
  unfold writes.
  apply in_flat_map. exists w. split; [apply in_iterations_1; rewrite quot8; exact Hw|].
  apply in_flat_map. exists h. split; [apply in_iterations_1; rewrite quot8; exact Hh|].
  apply in_flat_map. exists (2 * (i / 2)). split.
  { apply in_iterations_64_2. exists (i / 2). split; [|reflexivity].
    split; [apply Z.div_pos; lia|apply Z.div_lt_upper_bound; lia]. }
  cbv zeta.
  apply in_flat_map. exists (i mod 2). split.
  { apply in_iterations_1. apply Z.mod_pos_bound. lia. }
  apply in_map_iff. exists k. split.
  - apply (loop_store data a b nb w h i k Hnb Hi).
  - apply in_iterations_1. rewrite (numBytes_of nb Hnb). exact Hk.
Qed.

Lemma writes_sound data a b nb d v :
  1 <= nb ->
  In (d, v) (writes data (8 * a) (8 * b) (8 * nb)) ->
  exists w h i k,
    (0 <= w < a /\ 0 <= h < b /\ 0 <= i < 64 /\ 0 <= k < nb)
    /\ d = dest_offset a nb w h i k
    /\ v = load data (source_offset a b nb w h i k).
Proof.
  intros Hnb H. unfold writes in H.
  apply in_flat_map in H. destruct H as (w & Hw & H).
  apply in_flat_map in H. destruct H as (h & Hh & H).
  apply in_flat_map in H. destruct H as (i0 & Hi0 & H).
  cbv zeta in H.
  apply in_flat_map in H. destruct H as (j & Hj & H).
  apply in_map_iff in H. destruct H as (k & E & Hk).
  apply in_iterations_1 in Hw, Hh, Hj, Hk. rewrite quot8 in Hw, Hh.
  rewrite (numBytes_of nb Hnb) in Hk.
  apply in_iterations_64_2 in Hi0. destruct Hi0 as (n & Hn & ->).
  set (i := 2 * n + j).
  assert (Hi : 0 <= i < 64) by (unfold i; lia).
  assert (Ediv : i / 2 = n).
  { symmetry. apply (Z.div_unique i 2 n j); [lia|unfold i; ring]. }
  assert (Emod : i mod 2 = j).
  { symmetry. apply (Z.mod_unique i 2 n j); [lia|unfold i; ring]. }
  pose proof (loop_store data a b nb w h i k Hnb Hi) as L. cbv zeta in L.
  rewrite Ediv, Emod in L. rewrite L in E.
  exists w, h, i, k. inversion E. repeat split; try lia.
Qed.

(** Distinct bytes of distinct pixels go to distinct offsets. *)
Lemma dest_offset_inj a nb w1 h1 i1 k1 w2 h2 i2 k2 :
  1 <= nb ->
  0 <= w1 < a -> 0 <= i1 < 64 -> 0 <= k1 < nb ->
  0 <= w2 < a -> 0 <= i2 < 64 -> 0 <= k2 < nb ->
  dest_offset a nb w1 h1 i1 k1 = dest_offset a nb w2 h2 i2 k2 ->
  w1 = w2 /\ h1 = h2 /\ i1 = i2 /\ k1 = k2.
Proof.
  intros Hnb Hw1 Hi1 Hk1 Hw2 Hi2 Hk2 E. unfold dest_offset in E.
  destruct (swizzle_at_facts i1 Hi1) as (P1 & _).
  destruct (swizzle_at_facts i2 Hi2) as (P2 & _).
  destruct (Z.div_mod_unique nb
              ((w1 + h1 * a) * 64 + swizzle_at i1) ((w2 + h2 * a) * 64 + swizzle_at i2)
              (nb - 1 - k1) (nb - 1 - k2)) as (E1 & Ek); [left; lia|left; lia|lia|].
  destruct (Z.div_mod_unique 64 (w1 + h1 * a) (w2 + h2 * a)
              (swizzle_at i1) (swizzle_at i2)) as (E2 & Ep); [left; lia|left; lia|lia|].
  destruct (Z.div_mod_unique a h1 h2 w1 w2) as (Eh & Ew); [left; lia|left; lia|lia|].
  repeat split; try lia.
  apply swizzle_at_inj; assumption.
Qed.

Lemma dest_offset_bound a b nb w h i k :
  1 <= nb -> 0 <= w < a -> 0 <= h < b -> 0 <= i < 64 -> 0 <= k < nb ->
  0 <= dest_offset a nb w h i k < 8 * a * (8 * b) * nb.
Proof.
  intros Hnb Hw Hh Hi Hk. unfold dest_offset.
  destruct (swizzle_at_facts i Hi) as (P & _).
  assert (H1 : 0 <= h * a <= (b - 1) * a) by nia.
  set (t := (w + h * a) * 64 + swizzle_at i).
  assert (Ht : 0 <= t <= a * b * 64 - 1) by (unfold t; nia).
  assert (H2 : 0 <= t * nb <= (a * b * 64 - 1) * nb) by nia.
  nia.
Qed.

Lemma source_offset_bound a b nb w h i k :
  1 <= nb -> 0 <= w < a -> 0 <= h < b -> 0 <= i < 64 -> 0 <= k < nb ->
  0 <= source_offset a b nb w h i k < 8 * a * (8 * b) * nb.
Proof.
  intros Hnb Hw Hh Hi Hk. unfold source_offset.
  assert (Hq : 0 <= i / 8 < 8)
    by (split; [apply Z.div_pos; lia|apply Z.div_lt_upper_bound; lia]).
  pose proof (Z.mod_pos_bound i 8 ltac:(lia)) as Hr.
  set (row := 8 * b - (h * 8 + i / 8) - 1).
  set (col := w * 8 + i mod 8).
  assert (Hrow : 0 <= row <= 8 * b - 1) by (unfold row; lia).
  assert (Hcol : 0 <= col <= 8 * a - 1) by (unfold col; lia).
  assert (H1 : 0 <= row * (8 * a) <= (8 * b - 1) * (8 * a)) by nia.
  set (p := row * (8 * a) + col).
  assert (Hp : 0 <= p <= 8 * a * (8 * b) - 1) by (unfold p; nia).
  assert (H2 : 0 <= p * nb <= (8 * a * (8 * b) - 1) * nb) by nia.
  nia.
Qed.

End TextureFacts.


Section TextureClaims.

Import Texture.

Lemma rlNewPica200Tex_loop_in curr : forall newId upto,
  In (fst (rlNewPica200Tex_loop newId upto curr))
     (ids (snd (rlNewPica200Tex_loop newId upto curr))).
Proof.
  induction curr as [|c next IH]; intros newId upto; simpl.
  - unfold ids. rewrite map_app. apply in_or_app. right. left. reflexivity.
  - destruct (newId <? id c); [|apply IH].
    simpl. unfold ids. rewrite map_app. apply in_or_app. right. left. reflexivity.
Qed.

Lemma rlNewPica200Tex_in root :
  In (fst (rlNewPica200Tex root)) (ids (snd (rlNewPica200Tex root))).
Proof.
  destruct root as [|r rest]; [left; reflexivity|].
  apply rlNewPica200Tex_loop_in.
Qed.

Lemma rlGetPica200Tex_assign id0 t root :
  In id0 (ids root) ->
  rlGetPica200Tex id0 (assign_tex id0 t root) = Some (mkNode id0 t).
Proof.
  induction root as [|c next IH]; intros H; [contradiction|].
  simpl. destruct (Z.eqb_spec (id c) id0) as [E|E].
  - simpl. rewrite E, Z.eqb_refl. reflexivity.
  - simpl. destruct (Z.eqb_spec (id c) id0); [contradiction|].
    apply IH. destruct H as [H|H]; [contradiction|exact H].
Qed.

(** **** C7 *)

(** C7: for a width and a height that pass the size check and a supported
    format of at least 8 bits per pixel, [rlLoadTexture] uploads a buffer
    of exactly [width*height*bpp/8] bytes in which, for every tile
    [(w, h)], every pixel index [i] below 64 and every byte [k] of the
    pixel, the byte at pixel slot [tileNum*64 + swizzleArr[i]], position
    [numBytes - 1 - k], is byte [k] of the source pixel in column
    [w*8 + i mod 8] of row [height - (h*8 + i/8) - 1], where
    [tileNum = w + h*(width/8)]. *)
Theorem swizzle_layout (data : list u8) (width height : Z) (format : PixelFormat)
    (texColor : GPU_TEXCOLOR) (mipmapCount : Z) (s : State) :
  checkTexSize width = true ->
  checkTexSize height = true ->
  rlGetPica200TextureFormat format = Some texColor ->
  8 <= rlGetPica200TextureBpp texColor ->
  Z.of_nat (length data) = width * height * (rlGetPica200TextureBpp texColor / 8) ->
  let bpp := rlGetPica200TextureBpp texColor in
  let numBytes := bpp / 8 in
  let out := swizzle_loops data width height bpp in
  let r := rlLoadTexture data width height format mipmapCount s in
  rlGetPica200Tex (fst r) (rootTex (snd r))
  = Some (mkNode (fst r) (Some (mkTex width height texColor out)))
  /\ Z.of_nat (length out) = width * height * bpp / 8
  /\ forall w h i k,
       0 <= w < width / 8 -> 0 <= h < height / 8 -> 0 <= i < 64 -> 0 <= k < numBytes ->
       let tileNum := w + h * (width / 8) in
       let column := w * 8 + i mod 8 in
       let row := height - (h * 8 + i / 8) - 1 in
       exists byte,
         data !! Z.to_nat ((row * width + column) * numBytes + k) = Some byte
         /\ out !! Z.to_nat ((tileNum * 64 + swizzle_at i) * numBytes + (numBytes - 1 - k))
            = Some (Some byte).
Proof.
  intros Hwd Hht Hfmt Hbpp Hlen bpp numBytes out r.
  destruct (checkTexSize_true width Hwd) as (a & -> & Ha).
  destruct (checkTexSize_true height Hht) as (b & -> & Hb).
  assert (Hnb : exists nb, bpp = 8 * nb /\ 1 <= nb <= 4).
  { unfold bpp in *. destruct texColor; simpl in Hbpp |- *;
      first [ exists 4; lia | exists 3; lia | exists 2; lia | exists 1; lia | lia ]. }
  destruct Hnb as (nb & Ebpp & Hnb).
  assert (EnumBytes : numBytes = nb).
  { unfold numBytes. rewrite Ebpp, Z.mul_comm. apply Z.div_mul. discriminate. }
  assert (Elen : length out = Z.to_nat (8 * a * (8 * b) * nb)).
  { unfold out. rewrite swizzle_loops_writes, length_fold_write, length_replicate.
    rewrite Ebpp. f_equal.
    replace (8 * a * (8 * b) * (8 * nb)) with (8 * (8 * a * (8 * b) * nb)) by ring.
    apply quot8. }
  split; [|split].
  - unfold r, rlLoadTexture. rewrite Hfmt.
    destruct (rlNewPica200Tex (rootTex s)) as [newId root] eqn:Enew.
    unfold C3D_TexInit, u32.
    rewrite !Z.mod_small by lia. rewrite Hwd, Hht. simpl andb. cbv iota.
    cbn [fst snd rootTex TRACELOG].
    pose proof (rlNewPica200Tex_in (rootTex s)) as Hin. rewrite Enew in Hin.
    rewrite rlGetPica200Tex_assign by exact Hin. reflexivity.
  - rewrite Elen. fold bpp. rewrite Ebpp.
    replace (8 * a * (8 * b) * (8 * nb)) with (8 * a * (8 * b) * nb * 8) by ring.
    rewrite Z.div_mul by discriminate. lia.
  - intros w h i k Hw Hh Hi Hk tileNum column row.
    assert (Ea : 8 * a / 8 = a) by (rewrite Z.mul_comm; apply Z.div_mul; discriminate).
    assert (Eb : 8 * b / 8 = b) by (rewrite Z.mul_comm; apply Z.div_mul; discriminate).
    rewrite Ea in Hw. rewrite Eb in Hh. rewrite EnumBytes in Hk |- *.
    assert (Hk' : 0 <= k < nb) by exact Hk.
    assert (Hnb1 : 1 <= nb) by lia.
    assert (ED : (tileNum * 64 + swizzle_at i) * nb + (nb - 1 - k)
                 = dest_offset a nb w h i k).
    { unfold tileNum, dest_offset. rewrite Ea. reflexivity. }
    assert (ES : (row * (8 * a) + column) * nb + k = source_offset a b nb w h i k).
    { unfold row, column, source_offset. reflexivity. }
    rewrite ED, ES.
    pose proof (dest_offset_bound a b nb w h i k Hnb1 Hw Hh Hi Hk') as BD.
    pose proof (source_offset_bound a b nb w h i k Hnb1 Hw Hh Hi Hk') as BS.
    assert (Hsome : is_Some (data !! Z.to_nat (source_offset a b nb w h i k))).
    { apply lookup_lt_is_Some. fold bpp in Hlen. rewrite Ebpp in Hlen.
      replace (8 * nb / 8) with nb in Hlen
        by (symmetry; rewrite Z.mul_comm; apply Z.div_mul; discriminate).
      lia. }
    destruct Hsome as (byte & Hbyte). exists byte. split; [exact Hbyte|].
    unfold out. rewrite swizzle_loops_writes, Ebpp.
    assert (Hload : load data (source_offset a b nb w h i k) = Some byte).
    { unfold load. destruct (Z.leb_spec 0 (source_offset a b nb w h i k)); [exact Hbyte|lia]. }
    rewrite <- Hload.
    apply fold_write_lookup.
    + lia.
    + rewrite length_replicate.
      replace (8 * a * (8 * b) * (8 * nb)) with (8 * (8 * a * (8 * b) * nb)) by ring.
      rewrite quot8. lia.
    + apply writes_complete; assumption.
    + intros v' Hv'.
      apply (writes_sound data a b nb) in Hv'; [|exact Hnb1].
      destruct Hv' as (w2 & h2 & i2 & k2 & (Hw2 & Hh2 & Hi2 & Hk2) & Ed & ->).
      destruct (dest_offset_inj a nb w h i k w2 h2 i2 k2) as (-> & -> & -> & ->);
        try assumption.
      reflexivity.
Qed.

Lemma swizzle_layout_witness :
  exists byte,
    gradient 64
      !! Z.to_nat ((((8 - (0 * 8 + 10 / 8) - 1) * 8 + (0 * 8 + 10 mod 8)) * (8 / 8)) + 0)
    = Some byte
    /\ swizzle_loops (gradient 64) 8 8 8
         !! Z.to_nat (((0 + 0 * (8 / 8)) * 64 + swizzle_at 10) * (8 / 8) + (8 / 8 - 1 - 0))
       = Some (Some byte).
Proof.
  destruct (swizzle_layout (gradient 64) 8 8 PIXELFORMAT_UNCOMPRESSED_GRAYSCALE GPU_L8 1
              empty_registry) as (_ & _ & H).
  - reflexivity.
  - reflexivity.
  - reflexivity.
  - vm_compute. discriminate.
  - reflexivity.
  - apply (H 0 0 10 0); vm_compute; split; discriminate || reflexivity.
Defined.

(** **** C4 *)

(** C4, evaluated on the code.  Three allocations give 1, 2, 3, and after
    [rlRemovePica200Tex(2)] the next one returns 2, but in linking the new
    node it drops node 3 from the list.  With only id 2 live (two
    allocations, then id 1 removed) the next allocation returns 2 again,
    not the free id 1, and the list then holds id 2 twice. *)
Theorem allocate_returns_held_id :
  ids (allocations 3) = [1; 2; 3]
  /\ fst (rlNewPica200Tex (allocations 0)) = 1
  /\ fst (rlNewPica200Tex (allocations 1)) = 2
  /\ fst (rlNewPica200Tex (allocations 2)) = 3
  /\ ids (rlRemovePica200Tex 2 (allocations 3)) = [1; 3]
  /\ fst (rlNewPica200Tex (rlRemovePica200Tex 2 (allocations 3))) = 2
  /\ ids (snd (rlNewPica200Tex (rlRemovePica200Tex 2 (allocations 3)))) = [1; 2]
  /\ ids (rlRemovePica200Tex 1 (allocations 2)) = [2]
  /\ fst (rlNewPica200Tex (rlRemovePica200Tex 1 (allocations 2))) = 2
  /\ ids (snd (rlNewPica200Tex (rlRemovePica200Tex 1 (allocations 2)))) = [2; 2].
Proof. repeat split; vm_compute; reflexivity. Qed.

(** **** C5 *)

(** With a supported format and a size the native driver refuses,
    [rlLoadTexture] returns 0 only after it has linked a new node. *)
Lemma rlLoadTexture_invalid_size data width height format texColor mipmapCount s :
  rlGetPica200TextureFormat format = Some texColor ->
  checkTexSize (u32 width) && checkTexSize (u32 height) = false ->
  let r := rlLoadTexture data width height format mipmapCount s in
  fst r = 0 /\ rootTex (snd r) = snd (rlNewPica200Tex (rootTex s)).
Proof.
  intros Hfmt Hsize. cbv zeta. unfold rlLoadTexture. rewrite Hfmt.
  destruct (rlNewPica200Tex (rootTex s)) as [newId root].
  unfold C3D_TexInit. rewrite Hsize. split; reflexivity.
Qed.

(** C5, evaluated on the code: loading a 10 by 8 grayscale image into an
    empty registry returns handle 0 and reports the invalid size, and no
    native texture is initialised, yet the registry is left holding a new
    node with id 1.  A load refused for its format leaves the registry
    empty. *)
Theorem load_invalid_size_keeps_node :
  let r := rlLoadTexture (white 80) 10 8 PIXELFORMAT_UNCOMPRESSED_GRAYSCALE 1
             empty_registry in
  rlGetPica200TextureFormat PIXELFORMAT_UNCOMPRESSED_GRAYSCALE = Some GPU_L8
  /\ checkTexSize (u32 10) = false
  /\ fst r = 0
  /\ tracelog (snd r) = [(LOG_WARNING, TextureInvalidSize false true)]
  /\ rootTex (snd r) = [mkNode 1 None]
  /\ rootTex (snd r) <> rootTex empty_registry
  /\ rootTex (snd (rlLoadTexture (white 64) 8 8 PIXELFORMAT_COMPRESSED_DXT1_RGB 1
                     empty_registry)) = [].
Proof.
  cbv zeta.
  destruct (rlLoadTexture_invalid_size (white 80) 10 8 PIXELFORMAT_UNCOMPRESSED_GRAYSCALE
              GPU_L8 1 empty_registry) as (H0 & Hroot); [reflexivity|reflexivity|].
  cbv zeta in *. rewrite H0, Hroot.
  repeat split; try (vm_compute; reflexivity).
  vm_compute. intros H. discriminate H.
Qed.

End TextureClaims.


(** * Further properties *)

(** ** Attribute assembler: whole primitives *)

Section AssemblerStreamFacts.

Import Assembler.

(** A send loop over three active attributes. *)
Lemma rlSendAttr_three (f : State -> Slots Vector4) s :
  (f = lastParams \/ f = backupParams) ->
  shaderNumParams s = 3 ->
  let s' := rlSendAttr f s in
  gpu s' = gpu s ++ sent 3 (f s)
  /\ cleared s'
  /\ at_normal (paramsUsed s') = at_normal (paramsUsed s)
  /\ lastParams s' = lastParams s /\ backupParams s' = backupParams s
  /\ paramMode s' = paramMode s /\ paramNum s' = paramNum s.
Proof.
  intros Hf HN. destruct s as [u l b N m n d g fl]. cbn [shaderNumParams] in HN. subst N.
  destruct Hf as [-> | ->]; unfold cleared; cbv zeta;
    unfold rlSendAttr, for_slots, sent; simpl;
    rewrite <- ?app_assoc; simpl; repeat split; reflexivity.
Qed.

Lemma rlBackupParams_three s :
  shaderNumParams s = 3 ->
  let s' := for_slots (shaderNumParams (rlBackupParams s))
              (fun i acc => with_paramsUsed (set i false (paramsUsed acc)) acc)
              (rlBackupParams s) in
  gpu s' = gpu s
  /\ cleared s'
  /\ at_normal (paramsUsed s') = at_normal (paramsUsed s)
  /\ lastParams s' = lastParams s /\ backupParams s' = lastParams s
  /\ paramMode s' = paramMode s /\ paramNum s' = paramNum s.
Proof.
  intros HN. destruct s as [u l b N m n d g fl]. cbn [shaderNumParams] in HN. subst N.
  destruct l as [[? ? ? ?] [? ? ? ?] [? ? ? ?] [? ? ? ?]].
  unfold cleared; cbv zeta. unfold rlBackupParams, for_slots; simpl.
  repeat split; reflexivity.
Qed.

(** A flush in a mode that is neither Lines nor Quads, three attributes
    active. *)
Lemma flush_other s :
  paramMode s <> RL_LINES -> paramMode s <> RL_QUADS ->
  shaderNumParams s = 3 ->
  let s' := rlPicaAttrFlush s in
  gpu s' = gpu s ++ sent 3 (lastParams s)
  /\ cleared s'
  /\ lastParams s' = lastParams s
  /\ paramMode s' = paramMode s.
Proof.
  intros H1 H2 HN. cbv zeta. unfold rlPicaAttrFlush.
  change (paramMode (note_flush s)) with (paramMode s).
  apply Z.eqb_neq in H1, H2. rewrite H1, H2.
  destruct (rlSendAttr_three lastParams (note_flush s) (or_introl eq_refl) HN)
    as (G & C & _ & L & _ & M & _).
  split; [exact G|split; [exact C|split; [exact L|exact M]]].
Qed.

(** A flush in Quads mode, three attributes active, by phase. *)
Lemma flush_quads s :
  paramMode s = RL_QUADS ->
  shaderNumParams s = 3 ->
  let s' := rlPicaAttrFlush s in
  cleared s'
  /\ lastParams s' = lastParams s
  /\ paramMode s' = RL_QUADS
  /\ paramNum s' = Z.rem (paramNum s + 1) 4
  /\ (paramNum s = 2 -> gpu s' = gpu s /\ backupParams s' = lastParams s)
  /\ (paramNum s = 3 ->
      gpu s' = gpu s ++ sent 3 (lastParams s) ++ sent 3 (backupParams s)
      /\ backupParams s' = backupParams s)
  /\ (paramNum s <> 2 -> paramNum s <> 3 ->
      gpu s' = gpu s ++ sent 3 (lastParams s)
      /\ backupParams s' = backupParams s).
Proof.
  intros Hm HN. cbv zeta. unfold rlPicaAttrFlush.
  set (s1 := note_flush s).
  assert (E1 : paramMode s1 = RL_QUADS) by exact Hm.
  assert (E2 : shaderNumParams s1 = 3) by exact HN.
  change (gpu s) with (gpu s1). change (lastParams s) with (lastParams s1).
  change (backupParams s) with (backupParams s1). change (paramNum s) with (paramNum s1).
  clearbody s1. rewrite E1.
  change (RL_QUADS =? RL_LINES) with false. change (RL_QUADS =? RL_QUADS) with true.
  cbv iota.
  destruct (Z.eqb_spec (paramNum s1) 2) as [P2|P2].
  - destruct (rlBackupParams_three s1 E2) as (G & C & _ & L & B & M & P).
    cbv zeta in *.
    set (s2 := for_slots _ _ _) in *.
    cbn [gpu lastParams backupParams paramNum paramMode with_paramNum].
    unfold cleared in *. cbn [shaderNumParams paramsUsed with_paramNum].
    rewrite P. repeat split; try tauto; try congruence; intros; try congruence; lia.
  - destruct (Z.eqb_spec (paramNum s1) 3) as [P3|P3].
    + destruct (rlSendAttr_three lastParams s1 (or_introl eq_refl) E2)
        as (G1 & C1 & _ & L1 & B1 & M1 & P1).
      destruct C1 as (N1 & _).
      destruct (rlSendAttr_three backupParams (rlSendAttr lastParams s1)
                  (or_intror eq_refl) N1) as (G2 & C2 & _ & L2 & B2 & M2 & Q2).
      cbv zeta in *.
      set (s3 := rlSendAttr backupParams (rlSendAttr lastParams s1)) in *.
      cbn [gpu lastParams backupParams paramNum paramMode with_paramNum].
      unfold cleared in *. cbn [shaderNumParams paramsUsed with_paramNum].
      rewrite Q2, P1, G2, G1, B1, <- app_assoc.
      repeat split; try tauto; try congruence; intros; congruence.
    + destruct (rlSendAttr_three lastParams s1 (or_introl eq_refl) E2)
        as (G1 & C1 & _ & L1 & B1 & M1 & P1).
      cbv zeta in *.
      set (s3 := rlSendAttr lastParams s1) in *.
      cbn [gpu lastParams backupParams paramNum paramMode with_paramNum].
      unfold cleared in *. cbn [shaderNumParams paramsUsed with_paramNum].
      rewrite P1.
      repeat split; try tauto; try congruence; intros; congruence.
Qed.

Lemma submit_after_flush slot c s :
  get slot (paramsUsed s) = true ->
  slot_index slot < shaderNumParams s ->
  get slot (paramsUsed (rlPicaAttrFlush s)) = false ->
  submit slot (fun _ => c) s = submit slot (fun _ => c) (rlPicaAttrFlush s).
Proof.
  intros Hu HN Hc. unfold submit.
  rewrite Hu, Hc. apply Z.ltb_lt in HN. rewrite HN. reflexivity.
Qed.

(** A vertex submitted while nothing is pending is cached whole, in any
    order of its attributes, without a flush. *)
Lemma give_vertex_cleared o v s :
  In o orders -> cleared s ->
  let s' := give_vertex (o, v) s in
  loaded v s'
  /\ gpu s' = gpu s /\ flushes s' = flushes s
  /\ paramMode s' = paramMode s /\ paramNum s' = paramNum s
  /\ backupParams s' = backupParams s.
Proof.
  intros Ho (HN & H1 & H2 & H3).
  destruct s as [[u1 u2 u3 u4] l b N m n d g fl].
  cbn [shaderNumParams paramsUsed at_position at_texcoord at_color] in *. subst.
  unfold loaded. cbv zeta.
  unfold orders in Ho. simpl in Ho.
  repeat (destruct Ho as [E|Ho]; [subst o; simpl; repeat split; reflexivity|]).
  destruct Ho.
Qed.

(** A vertex submitted while the previous one is pending first flushes
    it. *)
Lemma give_vertex_pending o v w s :
  In o orders -> loaded w s -> cleared (rlPicaAttrFlush s) ->
  give_vertex (o, v) s = give_vertex (o, v) (rlPicaAttrFlush s).
Proof.
  intros Ho (HN & H1 & H2 & H3 & _) (_ & C1 & C2 & C3).
  unfold orders in Ho. simpl in Ho.
  unfold give_vertex. cbn [fst snd].
  repeat (destruct Ho as [E|Ho];
          [subst o; cbn [fold_left give]; unfold rlVertex3f, rlTexCoord2f, rlColor4f;
           rewrite (submit_after_flush _ _ s); [reflexivity|assumption|rewrite HN; reflexivity|assumption]|]).
  destruct Ho.
Qed.

Lemma rlEnd_gpu s : gpu (rlEnd s) = gpu (rlPicaAttrFlush s) ++ [C3D_ImmDrawEnd].
Proof. reflexivity. Qed.

Lemma rlBegin_gpu mode bottom pr prb mv s :
  gpu (rlBegin mode bottom pr prb mv s) = gpu s ++ begin_calls mode bottom pr prb mv.
Proof.
  unfold rlBegin, begin_calls.
  destruct (mode =? RL_LINES); [|destruct (mode =? RL_TRIANGLES);
                                  [|destruct (mode =? RL_QUADS)]];
    cbn [gpu emit with_paramMode with_paramNum with_lastParams with_paramsUsed for_slots
         fold_left all_slots];
    repeat match goal with
           | |- context [if ?c then _ else _] => destruct c
           end;
    cbn [gpu emit with_paramMode with_paramNum with_lastParams with_paramsUsed];
    rewrite <- ?app_assoc; try rewrite app_nil_r; reflexivity.
Qed.

Lemma rlBegin_cleared mode bottom pr prb mv s :
  shaderNumParams s = 3 ->
  let s' := rlBegin mode bottom pr prb mv s in
  cleared s' /\ paramMode s' = mode /\ paramNum s' = 0
  /\ sent 3 (lastParams s') = default_attrs.
Proof.
  intros HN. cbv zeta.
  destruct (rlBegin_resets mode bottom pr prb mv s) as (Hu & Hl & Hm & Hn & EN & _).
  unfold cleared. rewrite Hu, Hl, Hm, Hn, EN, HN. repeat split; reflexivity.
Qed.

(** From a cached vertex on, in a mode that is neither Lines nor Quads:
    every vertex reaches the sink once, in order. *)
Lemma triangles_run vs : forall s w,
  paramMode s <> RL_LINES -> paramMode s <> RL_QUADS ->
  loaded w s ->
  Forall (fun ov => In (fst ov) orders) vs ->
  gpu (rlEnd (give_vertices vs s))
  = gpu s ++ attrs_of w ++ flat_map (fun ov => attrs_of (snd ov)) vs ++ [C3D_ImmDrawEnd].
Proof.
  induction vs as [|[o v] vs IH]; intros s w H1 H2 Hw Hvs.
  - cbn [give_vertices fold_left flat_map app].
    destruct Hw as (HN & _ & _ & _ & Hsent).
    destruct (flush_other s H1 H2 HN) as (G & _).
    rewrite rlEnd_gpu, G, Hsent, <- app_assoc. reflexivity.
  - apply Forall_cons in Hvs. destruct Hvs as [Ho Hvs]. cbn [fst] in Ho.
    cbn [give_vertices fold_left]. fold (give_vertices vs).
    pose proof Hw as (HN & _ & _ & _ & Hsent).
    destruct (flush_other s H1 H2 HN) as (G & C & L & M).
    rewrite (give_vertex_pending o v w s Ho Hw C).
    destruct (give_vertex_cleared o v (rlPicaAttrFlush s) Ho C) as (Lv & Gv & _ & Mv & _).
    cbv zeta in *.
    rewrite (IH _ v); try assumption; try congruence.
    rewrite Gv, G, Hsent. cbn [flat_map snd]. rewrite <- !app_assoc. reflexivity.
Qed.

(** One more vertex in Quads mode while the previous one is pending. *)
Lemma quads_vertex o v w s :
  In o orders -> paramMode s = RL_QUADS -> loaded w s ->
  let s' := give_vertex (o, v) s in
  loaded v s' /\ paramMode s' = RL_QUADS
  /\ paramNum s' = Z.rem (paramNum s + 1) 4
  /\ (paramNum s = 2 -> gpu s' = gpu s /\ sent 3 (backupParams s') = attrs_of w)
  /\ (paramNum s = 3 ->
      gpu s' = gpu s ++ attrs_of w ++ sent 3 (backupParams s)
      /\ backupParams s' = backupParams s)
  /\ (paramNum s <> 2 -> paramNum s <> 3 ->
      gpu s' = gpu s ++ attrs_of w /\ backupParams s' = backupParams s).
Proof.
  intros Ho Hm Hw. cbv zeta.
  pose proof Hw as (HN & _ & _ & _ & Hsent).
  destruct (flush_quads s Hm HN) as (C & L & M & P & F2 & F3 & F01).
  cbv zeta in *.
  rewrite (give_vertex_pending o v w s Ho Hw C).
  destruct (give_vertex_cleared o v (rlPicaAttrFlush s) Ho C)
    as (Lv & Gv & _ & Mv & Pv & Bv).
  cbv zeta in *. rewrite Gv, Bv, Mv, Pv, <- Hsent.
  split; [exact Lv|]. split; [exact M|]. split; [exact P|].
  split; [|split].
  - intros E. destruct (F2 E) as (G & B). rewrite G, B. split; reflexivity.
  - intros E. destruct (F3 E) as (G & B). rewrite G, B. split; reflexivity.
  - intros E2 E3. destruct (F01 E2 E3) as (G & B). rewrite G, B. split; reflexivity.
Qed.

(** The last three corners of a quad, the first one being cached in
    phase 0. *)
Lemma quads_corners v0 v1 v2 v3 s :
  In (fst v1) orders -> In (fst v2) orders -> In (fst v3) orders ->
  paramMode s = RL_QUADS -> paramNum s = 0 -> loaded v0 s ->
  let s' := give_vertex v3 (give_vertex v2 (give_vertex v1 s)) in
  loaded (snd v3) s' /\ paramMode s' = RL_QUADS /\ paramNum s' = 3
  /\ sent 3 (backupParams s') = attrs_of (snd v2)
  /\ gpu s' = gpu s ++ attrs_of v0 ++ attrs_of (snd v1).
Proof.
  intros O1 O2 O3 Hm Hp Hw. cbv zeta.
  destruct v1 as [o1 w1], v2 as [o2 w2], v3 as [o3 w3]. cbn [fst snd] in *.
  destruct (quads_vertex o1 w1 v0 s O1 Hm Hw) as (L1 & M1 & P1 & _ & _ & G1).
  cbv zeta in *. rewrite Hp in P1. change (Z.rem (0 + 1) 4) with 1 in P1.
  destruct G1 as (G1 & _); [lia|lia|].
  set (s1 := give_vertex (o1, w1) s) in *.
  destruct (quads_vertex o2 w2 w1 s1 O2 M1 L1) as (L2 & M2 & P2 & _ & _ & G2).
  cbv zeta in *. rewrite P1 in P2. change (Z.rem (1 + 1) 4) with 2 in P2.
  destruct G2 as (G2 & _); [lia|lia|].
  set (s2 := give_vertex (o2, w2) s1) in *.
  destruct (quads_vertex o3 w3 w2 s2 O3 M2 L2) as (L3 & M3 & P3 & G3 & _).
  cbv zeta in *. rewrite P2 in P3. change (Z.rem (2 + 1) 4) with 3 in P3.
  destruct (G3 P2) as (G3' & B3).
  repeat split; try assumption; try apply L3.
  rewrite G3', G2, G1, <- app_assoc. reflexivity.
Qed.

(** From the end of one quad on: every further quad reaches the sink as
    the strip of its corners 0, 1, 3, 2. *)
Lemma quads_run qs : forall s v3 v2,
  paramMode s = RL_QUADS -> paramNum s = 3 -> loaded v3 s ->
  sent 3 (backupParams s) = attrs_of v2 ->
  Forall quad_orders_ok qs ->
  gpu (rlEnd (give_quads qs s))
  = gpu s ++ attrs_of v3 ++ attrs_of v2 ++ flat_map strip_of qs ++ [C3D_ImmDrawEnd].
Proof.
  induction qs as [|[[[w0 w1] w2] w3] qs IH]; intros s v3 v2 Hm Hp Hw Hb Hqs.
  - cbn [give_quads fold_left flat_map app].
    pose proof Hw as (HN & _ & _ & _ & Hsent).
    destruct (flush_quads s Hm HN) as (_ & _ & _ & _ & _ & F3 & _).
    destruct (F3 Hp) as (G & _).
    rewrite rlEnd_gpu, G, Hsent, Hb, <- !app_assoc. reflexivity.
  - apply Forall_cons in Hqs. destruct Hqs as [(O0 & O1 & O2 & O3) Hqs].
    cbn [give_quads fold_left give_quad]. fold (give_quads qs).
    destruct w0 as [o0 u0]. cbn [fst] in O0.
    destruct (quads_vertex o0 u0 v3 s O0 Hm Hw) as (L0 & M0 & P0 & _ & G0 & _).
    cbv zeta in *. rewrite Hp in P0. change (Z.rem (3 + 1) 4) with 0 in P0.
    destruct (G0 Hp) as (G0' & _).
    set (s0 := give_vertex (o0, u0) s) in *.
    destruct (quads_corners u0 w1 w2 w3 s0 O1 O2 O3 M0 P0 L0) as (L & M & P & B & G).
    cbv zeta in *.
    rewrite (IH _ (snd w3) (snd w2)); try assumption.
    rewrite G, G0', Hb. cbn [flat_map strip_of snd]. rewrite <- !app_assoc. reflexivity.
Qed.

Lemma submit_lines slot v s :
  paramMode s = RL_LINES ->
  gpu (submit slot v s) = gpu s /\ paramMode (submit slot v s) = RL_LINES.
Proof.
  intros Hm.
  destruct (submit_frame slot v s) as (_ & M & _). cbv zeta in M.
  split; [|congruence].
  unfold submit.
  destruct (get slot (paramsUsed s) && (slot_index slot <? shaderNumParams s)).
  - destruct (rlPicaAttrFlush_lines s Hm) as (G & _).
    destruct slot; cbn [gpu with_paramsUsed with_lastParams]; exact G.
  - destruct slot; reflexivity.
Qed.

End AssemblerStreamFacts.

Section AssemblerStreamTheorems.

Import Assembler.

(** X1: in Triangles mode (and in any mode other than Lines and Quads),
    with the three attributes active, a primitive of one or more vertices
    reaches the sink as the calls of [rlBegin], then each vertex exactly
    once and in submission order as position, texture coordinate,
    colour, then the end of the primitive, whatever the order in which
    the three attributes of each vertex were submitted. *)
Theorem triangles_stream (mode : Z) (bottom : bool) (pr prb mv : Matrix) (s : State)
    (ov : list Pica200ShaderParams * Vertex)
    (vs : list (list Pica200ShaderParams * Vertex)) :
  mode <> RL_LINES -> mode <> RL_QUADS ->
  shaderNumParams s = 3 ->
  Forall (fun ov => In (fst ov) orders) (ov :: vs) ->
  gpu (rlEnd (give_vertices (ov :: vs) (rlBegin mode bottom pr prb mv s)))
  = gpu s ++ begin_calls mode bottom pr prb mv
    ++ flat_map (fun ov => attrs_of (snd ov)) (ov :: vs)
    ++ [C3D_ImmDrawEnd].
Proof.
  intros H1 H2 HN Hvs.
  apply Forall_cons in Hvs. destruct Hvs as [Ho Hvs].
  destruct ov as [o v]. cbn [fst] in Ho.
  destruct (rlBegin_cleared mode bottom pr prb mv s HN) as (C & M & _).
  cbv zeta in *. set (s0 := rlBegin mode bottom pr prb mv s) in *.
  cbn [give_vertices fold_left]. fold (give_vertices vs).
  destruct (give_vertex_cleared o v s0 Ho C) as (Lv & Gv & _ & Mv & _).
  cbv zeta in *.
  rewrite (triangles_run vs _ v); try assumption; try congruence.
  rewrite Gv. unfold s0. rewrite rlBegin_gpu.
  cbn [flat_map snd]. rewrite <- !app_assoc. reflexivity.
Qed.

Lemma triangles_stream_witness :
  gpu (rlEnd (give_vertices
                [(position_first, corner 0 0); (colour_first, corner 1 0);
                 (position_first, corner 1 1)]
                (rlBegin RL_TRIANGLES false MatrixIdentity MatrixIdentity MatrixIdentity
                   rlglInit)))
  = gpu rlglInit
    ++ begin_calls RL_TRIANGLES false MatrixIdentity MatrixIdentity MatrixIdentity
    ++ flat_map (fun ov : list Pica200ShaderParams * Vertex => attrs_of (snd ov))
         [(position_first, corner 0 0); (colour_first, corner 1 0);
          (position_first, corner 1 1)]
    ++ [C3D_ImmDrawEnd].
Proof.
  apply (triangles_stream RL_TRIANGLES false MatrixIdentity MatrixIdentity MatrixIdentity
           rlglInit (position_first, corner 0 0)
           [(colour_first, corner 1 0); (position_first, corner 1 1)]).
  - vm_compute. discriminate.
  - vm_compute. discriminate.
  - reflexivity.
  - repeat (constructor; [simpl; repeat (first [left; reflexivity | right])|]).
    constructor.
Defined.

(** X2: in Quads mode, with the three attributes active, a primitive of
    one or more quads reaches the sink as the calls of [rlBegin], then
    for each quad the four vertices 0, 1, 3, 2 (four attribute sets per
    quad, each as position, texture coordinate, colour), then the end of
    the primitive, whatever the order in which the attributes of each
    vertex were submitted. *)
Theorem quads_stream (bottom : bool) (pr prb mv : Matrix) (s : State)
    (q : Quad) (qs : list Quad) :
  shaderNumParams s = 3 ->
  Forall quad_orders_ok (q :: qs) ->
  gpu (rlEnd (give_quads (q :: qs) (rlBegin RL_QUADS bottom pr prb mv s)))
  = gpu s ++ begin_calls RL_QUADS bottom pr prb mv
    ++ flat_map strip_of (q :: qs)
    ++ [C3D_ImmDrawEnd].
Proof.
  intros HN Hqs.
  apply Forall_cons in Hqs. destruct Hqs as [Hq Hqs].
  destruct q as [[[w0 w1] w2] w3]. destruct Hq as (O0 & O1 & O2 & O3).
  destruct (rlBegin_cleared RL_QUADS bottom pr prb mv s HN) as (C & M & P & _).
  cbv zeta in *. set (sb := rlBegin RL_QUADS bottom pr prb mv s) in *.
  cbn [give_quads fold_left give_quad]. fold (give_quads qs).
  destruct w0 as [o0 u0]. cbn [fst] in O0.
  destruct (give_vertex_cleared o0 u0 sb O0 C) as (L0 & G0 & _ & M0 & P0 & _).
  cbv zeta in *. set (s0 := give_vertex (o0, u0) sb) in *.
  destruct (quads_corners u0 w1 w2 w3 s0 O1 O2 O3) as (L & Mq & Pq & B & G);
    [congruence|congruence|exact L0|].
  cbv zeta in *.
  rewrite (quads_run qs _ (snd w3) (snd w2)); try assumption.
  rewrite G, G0. unfold sb. rewrite rlBegin_gpu.
  cbn [flat_map strip_of snd]. rewrite <- !app_assoc. reflexivity.
Qed.

Lemma quads_stream_witness :
  gpu (rlEnd (give_quads [unit_square]
                (rlBegin RL_QUADS false MatrixIdentity MatrixIdentity MatrixIdentity
                   rlglInit)))
  = gpu rlglInit
    ++ begin_calls RL_QUADS false MatrixIdentity MatrixIdentity MatrixIdentity
    ++ flat_map strip_of [unit_square]
    ++ [C3D_ImmDrawEnd].
Proof.
  apply (quads_stream false MatrixIdentity MatrixIdentity MatrixIdentity rlglInit
           unit_square []).
  - reflexivity.
  - constructor; [|constructor].
    repeat split; simpl; repeat (first [left; reflexivity | right]).
Defined.

(** X3: a primitive without vertices still sends one: [rlEnd] right
    after [rlBegin] flushes the default attribute set, position and
    texture coordinate 0 and colour (1,1,1,1), in every mode but Lines,
    where nothing is sent. *)
Theorem empty_primitive_sends_defaults (mode : Z) (bottom : bool) (pr prb mv : Matrix)
    (s : State) :
  shaderNumParams s = 3 ->
  gpu (rlEnd (rlBegin mode bottom pr prb mv s))
  = gpu s ++ begin_calls mode bottom pr prb mv
    ++ (if mode =? RL_LINES then [] else default_attrs)
    ++ [C3D_ImmDrawEnd].
Proof.
  intros HN.
  destruct (rlBegin_cleared mode bottom pr prb mv s HN) as ((N0 & _) & M & P & D).
  cbv zeta in *. set (s0 := rlBegin mode bottom pr prb mv s) in *.
  rewrite rlEnd_gpu.
  assert (G0 : gpu s0 = gpu s ++ begin_calls mode bottom pr prb mv)
    by apply rlBegin_gpu.
  destruct (Z.eqb_spec mode RL_LINES) as [E|E].
  - destruct (rlPicaAttrFlush_lines s0) as (G & _); [congruence|].
    rewrite G, G0, <- app_assoc. reflexivity.
  - destruct (Z.eq_dec mode RL_QUADS) as [Q|Q].
    + destruct (flush_quads s0) as (_ & _ & _ & _ & _ & _ & F); [congruence|exact N0|].
      destruct F as (G & _); [lia|lia|].
      rewrite G, G0, D, <- !app_assoc. reflexivity.
    + destruct (flush_other s0) as (G & _); [congruence|congruence|exact N0|].
      rewrite G, G0, D, <- !app_assoc. reflexivity.
Qed.

Lemma empty_primitive_sends_defaults_witness :
  gpu (rlEnd (rlBegin RL_TRIANGLES false MatrixIdentity MatrixIdentity MatrixIdentity
                rlglInit))
  = gpu rlglInit
    ++ begin_calls RL_TRIANGLES false MatrixIdentity MatrixIdentity MatrixIdentity
    ++ (if RL_TRIANGLES =? RL_LINES then [] else default_attrs)
    ++ [C3D_ImmDrawEnd].
Proof.
  apply (empty_primitive_sends_defaults RL_TRIANGLES false MatrixIdentity MatrixIdentity
           MatrixIdentity rlglInit).
  reflexivity.
Defined.

(** X4: a Quads primitive left at three vertices sends only the first
    two: the flush that [rlEnd] forces finds the assembler in phase 2,
    where the third vertex is saved in the backup and not sent. *)
Theorem incomplete_quad_drops_third (bottom : bool) (pr prb mv : Matrix) (s : State)
    (v0 v1 v2 : list Pica200ShaderParams * Vertex) :
  shaderNumParams s = 3 ->
  In (fst v0) orders -> In (fst v1) orders -> In (fst v2) orders ->
  gpu (rlEnd (give_vertices [v0; v1; v2] (rlBegin RL_QUADS bottom pr prb mv s)))
  = gpu s ++ begin_calls RL_QUADS bottom pr prb mv
    ++ attrs_of (snd v0) ++ attrs_of (snd v1)
    ++ [C3D_ImmDrawEnd].
Proof.
  intros HN O0 O1 O2.
  destruct v0 as [o0 u0], v1 as [o1 u1], v2 as [o2 u2]. cbn [fst snd] in *.
  destruct (rlBegin_cleared RL_QUADS bottom pr prb mv s HN) as (C & M & P & _).
  cbv zeta in *. set (sb := rlBegin RL_QUADS bottom pr prb mv s) in *.
  cbn [give_vertices fold_left].
  destruct (give_vertex_cleared o0 u0 sb O0 C) as (L0 & G0 & _ & M0 & P0 & _).
  cbv zeta in *. set (s0 := give_vertex (o0, u0) sb) in *.
  assert (M0' : paramMode s0 = RL_QUADS) by congruence.
  destruct (quads_vertex o1 u1 u0 s0 O1 M0' L0) as (L1 & M1 & P1 & _ & _ & G1).
  cbv zeta in *. rewrite P0, P in P1. change (Z.rem (0 + 1) 4) with 1 in P1.
  destruct G1 as (G1 & _); [lia|lia|].
  set (s1 := give_vertex (o1, u1) s0) in *.
  destruct (quads_vertex o2 u2 u1 s1 O2 M1 L1) as (L2 & M2 & P2 & _ & _ & G2).
  cbv zeta in *. rewrite P1 in P2. change (Z.rem (1 + 1) 4) with 2 in P2.
  destruct G2 as (G2 & _); [lia|lia|].
  set (s2 := give_vertex (o2, u2) s1) in *.
  destruct L2 as (N2 & _).
  destruct (flush_quads s2 M2 N2) as (_ & _ & _ & _ & F2 & _).
  destruct (F2 P2) as (G & _).
  rewrite rlEnd_gpu, G, G2, G1, G0. unfold sb. rewrite rlBegin_gpu.
  rewrite <- !app_assoc. reflexivity.
Qed.

Lemma incomplete_quad_drops_third_witness :
  gpu (rlEnd (give_vertices
                [(position_first, corner 0 0); (colour_first, corner 0 1);
                 (position_first, corner 1 1)]
                (rlBegin RL_QUADS false MatrixIdentity MatrixIdentity MatrixIdentity
                   rlglInit)))
  = gpu rlglInit
    ++ begin_calls RL_QUADS false MatrixIdentity MatrixIdentity MatrixIdentity
    ++ attrs_of (corner 0 0) ++ attrs_of (corner 0 1)
    ++ [C3D_ImmDrawEnd].
Proof.
  apply (incomplete_quad_drops_third false MatrixIdentity MatrixIdentity MatrixIdentity
           rlglInit (position_first, corner 0 0) (colour_first, corner 0 1)
           (position_first, corner 1 1)).
  - reflexivity.
  - simpl; repeat (first [left; reflexivity | right]).
  - simpl; repeat (first [left; reflexivity | right]).
  - simpl; repeat (first [left; reflexivity | right]).
Defined.

(** X5: in Lines mode no attribute reaches the sink: whatever the
    setters submit between [rlBegin(RL_LINES)] and [rlEnd], the sink
    receives the calls of [rlBegin] and the end of the primitive, and
    nothing between them. *)
Theorem lines_never_send (bottom : bool) (pr prb mv : Matrix) (s : State)
    (calls : list Submission) :
  gpu (rlEnd (submit_all calls (rlBegin RL_LINES bottom pr prb mv s)))
  = gpu s ++ begin_calls RL_LINES bottom pr prb mv ++ [C3D_ImmDrawEnd].
Proof.
  assert (H : forall cs t, paramMode t = RL_LINES ->
              gpu (submit_all cs t) = gpu t /\ paramMode (submit_all cs t) = RL_LINES).
  { induction cs as [|[slot v] cs IH]; intros t Ht; [split; [reflexivity|exact Ht]|].
    change (submit_all ((slot, v) :: cs) t) with (submit_all cs (submit slot v t)).
    destruct (submit_lines slot v t Ht) as (G & M).
    destruct (IH _ M) as (G' & M'). split; congruence. }
  destruct (rlBegin_resets RL_LINES bottom pr prb mv s) as (_ & _ & M & _).
  cbv zeta in M.
  destruct (H calls _ M) as (G & M').
  destruct (rlPicaAttrFlush_lines _ M') as (G' & _).
  rewrite rlEnd_gpu, G', G, rlBegin_gpu, <- app_assoc. reflexivity.
Qed.

(** X6: while three attributes are active a normal is cached but inert:
    [rlNormal3f] never flushes, sends nothing, leaves the other slots
    and their pending flags alone, and does not change what a later
    flush sends. *)
Theorem normal_is_inert (s : State) (x y z : float) :
  shaderNumParams s <= 3 ->
  let s' := rlNormal3f x y z s in
  gpu s' = gpu s
  /\ flushes s' = flushes s
  /\ get SHD_NORMAL (lastParams s') = mkVector4 x y z Float32.zero
  /\ (forall slot, slot <> SHD_NORMAL ->
        get slot (lastParams s') = get slot (lastParams s)
        /\ get slot (paramsUsed s') = get slot (paramsUsed s))
  /\ sent (shaderNumParams s') (lastParams s') = sent (shaderNumParams s) (lastParams s).
Proof.
  intros HN. cbv zeta. unfold rlNormal3f, submit.
  assert (E : (slot_index SHD_NORMAL <? shaderNumParams s) = false)
    by (apply Z.ltb_ge; exact HN).
  rewrite E, andb_false_r.
  cbn [gpu flushes lastParams paramsUsed shaderNumParams with_lastParams with_paramsUsed].
  repeat split; try reflexivity;
    try (destruct slot; try reflexivity; contradiction).
  unfold sent. cbn [all_slots List.filter slot_index].
  cbn [slot_index] in E. rewrite E.
  destruct (0 <? shaderNumParams s), (1 <? shaderNumParams s), (2 <? shaderNumParams s);
    reflexivity.
Qed.

Lemma normal_is_inert_witness :
  gpu (rlNormal3f (fz 0) (fz 0) (fz 1) rlglInit) = gpu rlglInit
  /\ flushes (rlNormal3f (fz 0) (fz 0) (fz 1) rlglInit) = flushes rlglInit.
Proof.
  destruct (normal_is_inert rlglInit (fz 0) (fz 0) (fz 1)) as (H1 & H2 & _).
  - vm_compute. discriminate.
  - split; [exact H1|exact H2].
Defined.

Lemma span_forallb (lo : Z) (n : nat) (P : Z -> bool) :
  forallb P (span lo n) = true -> forall i, lo <= i < lo + Z.of_nat n -> P i = true.
Proof.
  intros H i Hi. rewrite forallb_forall in H. apply H.
  unfold span. apply in_map_iff. exists (Z.to_nat (i - lo)). split; [lia|].
  apply in_seq. lia.
Qed.

(** X7: [rlColor4ub] stores for each byte [c] the float nearest to
    [c/255]: it is 0 for 0 and 1 for 255 and for no other byte, lies
    between 0 and 1, is within 2^-25 of [c/255], and grows strictly with
    [c], so distinct bytes give distinct channels. *)
Theorem rlColor4ub_channels (r g b a : Z) (s : State) :
  get SHD_COLOR (lastParams (rlColor4ub r g b a s))
  = mkVector4 (channel r) (channel g) (channel b) (channel a)
  /\ (forall c, 0 <= c < 256 ->
        SFleb Float32.zero (channel c) = true
        /\ SFleb (channel c) Float32.one = true
        /\ (channel c = Float32.zero <-> c = 0)
        /\ (channel c = Float32.one <-> c = 255)
        /\ ((c # 255) - (1 # 33554432) <= Float32.to_Q (channel c)
            <= (c # 255) + (1 # 33554432))%Q)
  /\ (forall c1 c2, 0 <= c1 < c2 -> c2 < 256 ->
        (Float32.to_Q (channel c1) < Float32.to_Q (channel c2))%Q).
Proof.
  split; [|split].
  - unfold rlColor4ub. rewrite submit_lastParams by reflexivity.
    destruct (lastParams s); reflexivity.
  - intros c Hc.
    pose proof (span_forallb 0 256
      (fun c => SFleb Float32.zero (channel c) && SFleb (channel c) Float32.one
                && Bool.eqb (SFeqb (channel c) Float32.zero) (c =? 0)
                && Bool.eqb (SFeqb (channel c) Float32.one) (c =? 255)
                && Qle_bool ((c # 255) - (1 # 33554432)) (Float32.to_Q (channel c))
                && Qle_bool (Float32.to_Q (channel c)) ((c # 255) + (1 # 33554432))
                && match channel c with S754_finite false _ _ | S754_zero false => true
                   | _ => false end)) as F.
    specialize (F ltac:(vm_compute; reflexivity) c ltac:(lia)). cbv beta in F.
    repeat (apply andb_prop in F; destruct F as [F ?]).
    apply Bool.eqb_prop in H3, H2. apply Qle_bool_iff in H1, H0.
    repeat split; try assumption.
    + intros E. rewrite E in H3. apply Z.eqb_eq. rewrite <- H3. reflexivity.
    + intros E. subst c. reflexivity.
    + intros E. rewrite E in H2. apply Z.eqb_eq. rewrite <- H2. reflexivity.
    + intros E. subst c. reflexivity.
  - intros c1 c2 H1 H2.
    assert (B : forall c, 0 <= c < 256 ->
              ((c # 255) - (1 # 33554432) <= Float32.to_Q (channel c)
               <= (c # 255) + (1 # 33554432))%Q).
    { intros c Hc.
      pose proof (span_forallb 0 256
        (fun c => Qle_bool ((c # 255) - (1 # 33554432)) (Float32.to_Q (channel c))
                  && Qle_bool (Float32.to_Q (channel c)) ((c # 255) + (1 # 33554432)))) as F.
      specialize (F ltac:(vm_compute; reflexivity) c ltac:(lia)). cbv beta in F.
      apply andb_prop in F. destruct F as [F1 F2].
      apply Qle_bool_iff in F1, F2. split; assumption. }
    destruct (B c1 ltac:(lia)) as (_ & U1).
    destruct (B c2 ltac:(lia)) as (L2 & _).
    eapply Qle_lt_trans; [exact U1|].
    eapply Qlt_le_trans; [|exact L2].
    unfold Qlt, Qplus, Qminus, Qopp. cbn [Qnum Qden Qplus Qopp]. lia.
Qed.

Lemma rlColor4ub_channels_witness :
  (Float32.to_Q (channel 127) < Float32.to_Q (channel 128))%Q.
Proof.
  destruct (rlColor4ub_channels 127 128 0 255 rlglInit) as (_ & _ & H).
  apply (H 127 128); lia.
Defined.

(** X8: [rlVertex2i] stores integer coordinates without rounding (here
    for coordinates up to 4096 in size), with third and fourth
    component 0: unlike [rlVertex2f] it does not stamp the depth
    counter. *)
Theorem rlVertex2i_exact (x y : Z) (s : State) :
  - 4096 <= x <= 4096 -> - 4096 <= y <= 4096 ->
  let p := get SHD_POSITION (lastParams (rlVertex2i x y s)) in
  (Float32.to_Q (vx p) == inject_Z x)%Q
  /\ (Float32.to_Q (vy p) == inject_Z y)%Q
  /\ vz p = Float32.zero /\ vw p = Float32.zero.
Proof.
  intros Hx Hy. cbv zeta.
  unfold rlVertex2i. rewrite submit_lastParams by reflexivity.
  assert (F : forall n, - 4096 <= n <= 4096 ->
                        (Float32.to_Q (Float32.of_Z n) == inject_Z n)%Q).
  { intros n Hn.
    pose proof (span_forallb (- 4096) (Z.to_nat 8193)
      (fun n => Qeq_bool (Float32.to_Q (Float32.of_Z n)) (inject_Z n))) as F.
    specialize (F ltac:(vm_compute; reflexivity) n ltac:(lia)). cbv beta in F.
    apply Qeq_bool_iff. exact F. }
  destruct (lastParams s); cbn [get set at_position vx vy vz vw].
  repeat split; try reflexivity; apply F; assumption.
Qed.

Lemma rlVertex2i_exact_witness :
  (Float32.to_Q (vx (get SHD_POSITION (lastParams (rlVertex2i 320 (- 240) rlglInit))))
   == inject_Z 320)%Q
  /\ (Float32.to_Q (vy (get SHD_POSITION (lastParams (rlVertex2i 320 (- 240) rlglInit))))
      == inject_Z (- 240))%Q.
Proof.
  destruct (rlVertex2i_exact 320 (- 240) rlglInit) as (H1 & H2 & _).
  - lia.
  - lia.
  - split; [exact H1|exact H2].
Defined.

End AssemblerStreamTheorems.

(** ** Matrix stack: safety and invariants *)

Section MatrixCallFacts.

Import MatrixStack.

Ltac fields :=
  cbv beta iota zeta delta
    [currentMatrixMode currentMatrix modelview projection projectionBottom
     transform transformRequired stack stackCounter tracelog faults
     with_mode with_currentMatrix with_transformRequired with_stack
     with_stackCounter TRACELOG fault deref assign current stack_store] in *.

Lemma rlPopMatrix_empty s :
  stackCounter s = 0 ->
  let s' := rlPopMatrix s in
  stackCounter s' = 0
  /\ stack s' = stack s
  /\ (forall r, deref r s' = deref r s)
  /\ faults s' = faults s /\ tracelog s' = tracelog s
  /\ currentMatrixMode s' = currentMatrixMode s
  /\ currentMatrix s'
     = (if currentMatrixMode s =? RL_MODELVIEW then RefModelview else currentMatrix s)
  /\ transformRequired s'
     = (if currentMatrixMode s =? RL_MODELVIEW then false else transformRequired s).
Proof.
  intros Hc. destruct s as [mode cur mv pr prb tr trq st c lg fl].
  cbn [stackCounter] in Hc. subst c.
  unfold rlPopMatrix. fields.
  change (0 >? 0) with false. cbv iota. change (0 =? 0) with true. cbv iota.
  simpl andb.
  destruct (mode =? RL_MODELVIEW); fields;
    repeat split; try reflexivity; intros r; destruct r; reflexivity.
Qed.

Lemma rlMatrixMode_frame mode s :
  let s' := rlMatrixMode mode s in
  stackCounter s' = stackCounter s /\ stack s' = stack s
  /\ faults s' = faults s /\ tracelog s' = tracelog s
  /\ (forall r, deref r s' = deref r s)
  /\ transformRequired s' = transformRequired s
  /\ currentMatrixMode s' = mode
  /\ (mode = RL_MODELVIEW -> currentMatrix s' = RefModelview)
  /\ (currentMatrix s' = RefTransform -> currentMatrix s = RefTransform).
Proof.
  destruct s as [m cur mv pr prb tr trq st c lg fl].
  unfold rlMatrixMode.
  destruct (Z.eqb_spec mode RL_PROJECTION) as [E1|E1];
    [|destruct (Z.eqb_spec mode RL_PROJECTION_BOTTOM) as [E2|E2];
      [|destruct (Z.eqb_spec mode RL_MODELVIEW) as [E3|E3]]];
    fields; repeat split; try reflexivity;
    try (intros r; destruct r; reflexivity);
    try (intros E; subst mode; discriminate);
    try (intros E; discriminate);
    try (intros E; contradiction);
    try (intros E; exact E).
Qed.

Lemma edit_current_frame f s :
  let s' := edit_current f s in
  stackCounter s' = stackCounter s /\ stack s' = stack s
  /\ faults s' = faults s /\ tracelog s' = tracelog s
  /\ transformRequired s' = transformRequired s
  /\ currentMatrixMode s' = currentMatrixMode s
  /\ currentMatrix s' = currentMatrix s.
Proof.
  destruct s as [m cur mv pr prb tr trq st c lg fl].
  unfold edit_current. fields. destruct cur; fields; repeat split; reflexivity.
Qed.




(** X9: a pop on an empty stack changes no matrix, no stack slot and not
    the counter, and accesses nothing out of bounds; its only effect, in
    Modelview mode, is to put the current-matrix pointer back on the
    modelview matrix and clear the transform flag. *)
Theorem pop_on_empty_stack (s : State) :
  stackCounter s = 0 ->
  let s' := rlPopMatrix s in
  stackCounter s' = 0
  /\ stack s' = stack s
  /\ (forall r, deref r s' = deref r s)
  /\ faults s' = faults s /\ tracelog s' = tracelog s
  /\ currentMatrixMode s' = currentMatrixMode s
  /\ currentMatrix s'
     = (if currentMatrixMode s =? RL_MODELVIEW then RefModelview else currentMatrix s)
  /\ transformRequired s'
     = (if currentMatrixMode s =? RL_MODELVIEW then false else transformRequired s).
Proof.
  intros Hc. exact (rlPopMatrix_empty s Hc).
Qed.

Lemma pop_on_empty_stack_witness :
  stackCounter (rlPopMatrix (rlMatrixMode RL_PROJECTION rlglInit)) = 0
  /\ stack (rlPopMatrix (rlMatrixMode RL_PROJECTION rlglInit))
     = stack (rlMatrixMode RL_PROJECTION rlglInit).
Proof.
  destruct (pop_on_empty_stack (rlMatrixMode RL_PROJECTION rlglInit)) as (H1 & H2 & _).
  - reflexivity.
  - split; [exact H1|exact H2].
Defined.





Lemma rlPushMatrix_modelview s :
  currentMatrixMode s = RL_MODELVIEW ->
  let s1 := rlPushMatrix s in
  currentMatrix s1 = RefTransform
  /\ (forall r, deref r s1 = deref r s).
Proof.
  intros Hm. destruct s as [m cur mv pr prb tr trq st c lg fl].
  cbn [currentMatrixMode] in Hm. subst m.
  cbv zeta. unfold rlPushMatrix. cbn [stackCounter].
  destruct (c >=? MAX_MATRIX_STACK_SIZE); fields;
    change (RL_MODELVIEW =? RL_MODELVIEW) with true; fields;
    destruct (in_bounds c); fields;
    (split; [reflexivity|intros r; destruct r; reflexivity]).
Qed.

Lemma edits_on_transform fs : forall s,
  currentMatrix s = RefTransform ->
  let s' := calls (map CallEdit fs) s in
  currentMatrix s' = RefTransform
  /\ modelview s' = modelview s /\ projection s' = projection s
  /\ projectionBottom s' = projectionBottom s
  /\ transform s' = fold_left (fun m f => f m) fs (transform s).
Proof.
  induction fs as [|f fs IH]; intros s Hc; cbv zeta.
  - repeat split; try reflexivity. exact Hc.
  - change (calls (map CallEdit (f :: fs)) s)
      with (calls (map CallEdit fs) (edit_current f s)).
    destruct (edit_current_spec f s) as (C & _ & _ & _ & D & D'). cbv zeta in *.
    destruct (IH (edit_current f s)) as (C' & M & P & B & T); [congruence|].
    cbv zeta in *. rewrite Hc in D, D'.
    pose proof (D' RefModelview ltac:(discriminate)) as D1.
    pose proof (D' RefProjection ltac:(discriminate)) as D2.
    pose proof (D' RefProjectionBottom ltac:(discriminate)) as D3.
    unfold current in D. rewrite Hc in D. cbn [deref] in D, D1, D2, D3.
    rewrite M, P, B, T, D1, D2, D3, D. cbn [fold_left].
    repeat split; try reflexivity. exact C'.
Qed.

(** X11: in Modelview mode the edits made after a push (translations,
    rotations, scalings, multiplications) accumulate in the Transform
    matrix and leave the modelview and projection matrices as they were,
    so an [rlBegin] issued after them uploads the same two matrices, and
    leaves the assembler in the same state, as one issued before the
    push. *)
Theorem transform_edits_never_uploaded (s : State) (fs : list (Matrix -> Matrix))
    (mode : Z) (bottom : bool) (a : Assembler.State) :
  currentMatrixMode s = RL_MODELVIEW ->
  let s' := calls (CallPush :: map CallEdit fs) s in
  transform s' = fold_left (fun m f => f m) fs (transform s)
  /\ modelview s' = modelview s
  /\ rlBegin_with s' mode bottom a = rlBegin_with s mode bottom a.
Proof.
  intros Hm. cbv zeta.
  change (calls (CallPush :: map CallEdit fs) s)
    with (calls (map CallEdit fs) (rlPushMatrix s)).
  destruct (rlPushMatrix_modelview s Hm) as (C & D). cbv zeta in *.
  destruct (edits_on_transform fs (rlPushMatrix s) C) as (_ & M & P & B & T).
  cbv zeta in *.
  pose proof (D RefModelview) as D1. pose proof (D RefProjection) as D2.
  pose proof (D RefProjectionBottom) as D3. pose proof (D RefTransform) as D4.
  cbn [deref] in D1, D2, D3, D4.
  split; [rewrite T, D4; reflexivity|].
  split; [rewrite M, D1; reflexivity|].
  unfold rlBegin_with. rewrite M, P, B, D1, D2, D3. reflexivity.
Qed.

Lemma transform_edits_never_uploaded_witness :
  rlBegin_with (calls (CallPush :: map CallEdit [fun _ : Matrix => camera])
                  (rlMatrixMode RL_MODELVIEW rlglInit))
    RL_QUADS false Assembler.rlglInit
  = rlBegin_with (rlMatrixMode RL_MODELVIEW rlglInit) RL_QUADS false Assembler.rlglInit.
Proof.
  destruct (transform_edits_never_uploaded (rlMatrixMode RL_MODELVIEW rlglInit)
              [fun _ : Matrix => camera] RL_QUADS false Assembler.rlglInit)
    as (_ & _ & H).
  - reflexivity.
  - exact H.
Defined.


(** X13: a program whose pushes all find the counter below the capacity
    never accesses the stack out of bounds and never reports an
    overflow; the counter stays between 0 and 32. *)
Theorem within_capacity_is_safe (cs : list Call) (s : State) :
  well_formed s ->
  0 <= stackCounter s <= MAX_MATRIX_STACK_SIZE ->
  within_capacity (stackCounter s) cs = true ->
  let s' := calls cs s in
  faults s' = faults s /\ tracelog s' = tracelog s
  /\ well_formed s' /\ 0 <= stackCounter s' <= MAX_MATRIX_STACK_SIZE.
Proof.
  revert s. induction cs as [|c cs IH]; intros s Hwf Hc Hw; cbv zeta.
  - change (calls [] s) with s. repeat split; try assumption; lia.
  - change (calls (c :: cs) s) with (calls cs (call c s)).
    destruct c as [| |f|mode]; cbn [call within_capacity] in *.
    + apply andb_prop in Hw. destruct Hw as [Hlt Hw]. apply Z.ltb_lt in Hlt.
      destruct (rlPushMatrix_spec s Hwf ltac:(lia)) as (_ & _ & _ & K & _ & W & L & F).
      cbv zeta in *.
      destruct (IH (rlPushMatrix s) W ltac:(lia) ltac:(rewrite K; exact Hw))
        as (F' & L' & W' & K').
      cbv zeta in *. repeat split; try assumption; try congruence; lia.
    + destruct (Z.gtb_spec (stackCounter s) 0) as [Hpos|Hzero].
      * assert (Hsome : is_Some (stack s !! Z.to_nat (stackCounter s - 1))).
        { apply lookup_lt_is_Some. unfold well_formed, MAX_MATRIX_STACK_SIZE in *. lia. }
        destruct Hsome as (m & Hm).
        destruct (rlPopMatrix_spec s m ltac:(lia) Hm) as (K & _ & S & _ & _ & _ & L & F).
        cbv zeta in *.
        assert (W : well_formed (rlPopMatrix s)) by (unfold well_formed; rewrite S; exact Hwf).
        destruct (IH (rlPopMatrix s) W ltac:(lia) ltac:(rewrite K; exact Hw))
          as (F' & L' & W' & K').
        cbv zeta in *. repeat split; try assumption; try congruence; lia.
      * assert (E0 : stackCounter s = 0) by lia.
        destruct (rlPopMatrix_empty s E0) as (K & S & _ & F & L & _). cbv zeta in *.
        assert (W : well_formed (rlPopMatrix s)) by (unfold well_formed; rewrite S; exact Hwf).
        destruct (IH (rlPopMatrix s) W ltac:(lia) ltac:(rewrite K, <- E0; exact Hw))
          as (F' & L' & W' & K').
        cbv zeta in *. repeat split; try assumption; try congruence; lia.
    + destruct (edit_current_frame f s) as (K & S & F & L & _). cbv zeta in *.
      assert (W : well_formed (edit_current f s))
        by (unfold well_formed; rewrite S; exact Hwf).
      destruct (IH (edit_current f s) W ltac:(lia) ltac:(rewrite K; exact Hw))
        as (F' & L' & W' & K').
      cbv zeta in *. repeat split; try assumption; try congruence; lia.
    + destruct (rlMatrixMode_frame mode s) as (K & S & F & L & _). cbv zeta in *.
      assert (W : well_formed (rlMatrixMode mode s))
        by (unfold well_formed; rewrite S; exact Hwf).
      destruct (IH (rlMatrixMode mode s) W ltac:(lia) ltac:(rewrite K; exact Hw))
        as (F' & L' & W' & K').
      cbv zeta in *. repeat split; try assumption; try congruence; lia.
Qed.

Lemma within_capacity_is_safe_witness :
  faults (calls [CallMode RL_PROJECTION; CallPush; CallMode RL_MODELVIEW; CallPush;
                 CallEdit (fun _ : Matrix => camera); CallPop; CallPop; CallPop]
            rlglInit)
  = faults rlglInit.
Proof.
  destruct (within_capacity_is_safe
              [CallMode RL_PROJECTION; CallPush; CallMode RL_MODELVIEW; CallPush;
               CallEdit (fun _ : Matrix => camera); CallPop; CallPop; CallPop]
              rlglInit) as (H & _).
  - reflexivity.
  - vm_compute. split; discriminate.
  - reflexivity.
  - exact H.
Defined.

End MatrixCallFacts.

(** ** Texture registry: lookup, allocation, removal *)

Section RegistryFacts.

Import Texture.

Lemma rlGetPica200Tex_None id0 root :
  rlGetPica200Tex id0 root = None <-> ~ In id0 (ids root).
Proof.
  induction root as [|c next IH]; simpl; [tauto|].
  destruct (Z.eqb_spec (id c) id0) as [E|E].
  - split; [discriminate|]. intros H. exfalso. apply H. left. exact E.
  - rewrite IH. tauto.
Qed.

Lemma rlGetPica200Tex_Some id0 root n :
  rlGetPica200Tex id0 root = Some n -> id n = id0 /\ In n root.
Proof.
  induction root as [|c next IH]; simpl; [discriminate|].
  destruct (Z.eqb_spec (id c) id0) as [E|E].
  - intros H. inversion H; subst. split; [reflexivity|left; reflexivity].
  - intros H. destruct (IH H) as (H1 & H2). split; [exact H1|right; exact H2].
Qed.

Lemma ascending_from_weaken lo lo' l :
  lo' <= lo -> ascending_from lo l -> ascending_from lo' l.
Proof. destruct l; simpl; [tauto|]. intros H (H1 & H2). split; [lia|exact H2]. Qed.

Lemma ascending_from_above lo l x : ascending_from lo l -> In x l -> lo < x.
Proof.
  revert lo. induction l as [|y l IH]; intros lo H Hin; [contradiction|].
  destruct H as (H1 & H2). destruct Hin as [->|Hin]; [exact H1|].
  specialize (IH y H2 Hin). lia.
Qed.

Lemma ascending_from_app lo l x l' :
  ascending_from lo (l ++ x :: l') <->
  ascending_from lo (l ++ [x]) /\ ascending_from x l'.
Proof.
  revert lo. induction l as [|y l IH]; intros lo; simpl; [tauto|].
  rewrite IH. tauto.
Qed.

(** The loop of the allocator on an ascending rest of the list. *)
Lemma rlNewPica200Tex_loop_spec curr : forall newId upto,
  0 < newId ->
  ascending_from (newId - 1) (ids curr) ->
  Forall (fun x => 0 <= x < 2 ^ 32 - 1) (ids curr) ->
  let r := rlNewPica200Tex_loop newId upto curr in
  newId <= fst r
  /\ ~ In (fst r) (ids curr)
  /\ (forall k, newId <= k < fst r -> In k (ids curr))
  /\ exists kept rest,
       ids (snd r) = ids upto ++ kept ++ fst r :: rest
       /\ ascending_from (newId - 1) (kept ++ fst r :: rest)
       /\ ((ids curr = kept /\ rest = [])
           \/ exists dropped, ids curr = kept ++ dropped :: rest /\ fst r < dropped).
Proof.
  induction curr as [|c next IH]; intros newId upto Hpos Hasc Hb; cbv zeta.
  - simpl. repeat split; try lia; try tauto.
    exists [], []. unfold ids. rewrite map_app. simpl.
    repeat split; try lia. left. split; reflexivity.
  - simpl in Hasc. destruct Hasc as (Hc & Hasc).
    apply Forall_cons in Hb. destruct Hb as [Hbc Hb].
    cbn [rlNewPica200Tex_loop].
    destruct (Z.ltb_spec newId (id c)) as [Hlt|Hge].
    + cbn [fst snd]. split; [lia|]. split.
      { simpl. intros [E|Hin]; [lia|].
        pose proof (ascending_from_above _ _ _ Hasc Hin). lia. }
      split; [intros k Hk; lia|].
      exists [], (ids next). unfold ids. rewrite map_app. cbn [map app id new_node].
      repeat split; try lia.
      * apply (ascending_from_weaken (id c)); [lia|exact Hasc].
      * right. exists (id c). split; [reflexivity|exact Hlt].
    + assert (Ec : id c = newId) by lia.
      assert (Eu : u32 (id c + 1) = newId + 1).
      { unfold u32. rewrite Z.mod_small; lia. }
      rewrite Eu.
      specialize (IH (newId + 1) (upto ++ [c]) ltac:(lia)).
      replace (newId + 1 - 1) with (id c) in IH by lia.
      specialize (IH Hasc Hb). cbv zeta in IH.
      destruct IH as (I1 & I2 & I3 & kept & rest & I4 & I5 & I6).
      split; [lia|]. split.
      { simpl. intros [E|Hin]; [lia|exact (I2 Hin)]. }
      split.
      { intros k Hk. simpl. destruct (Z.eq_dec k newId) as [->|Hne]; [left; exact Ec|].
        right. apply I3. lia. }
      exists (id c :: kept), rest.
      split; [|split].
      * rewrite I4. unfold ids. rewrite map_app. cbn [map]. rewrite <- app_assoc.
        reflexivity.
      * cbn [app ascending_from]. split; [lia|exact I5].
      * destruct I6 as [(E1 & E2)|(dropped & E1 & E2)].
        -- left. split; [simpl; rewrite E1; reflexivity|exact E2].
        -- right. exists dropped. split; [simpl; rewrite E1; reflexivity|exact E2].
Qed.

Lemma ascending_from_last lo l x y :
  ascending_from lo (l ++ [x]) -> In y l -> y < x.
Proof.
  revert lo. induction l as [|z l IH]; intros lo H Hin; [contradiction|].
  cbn [app ascending_from] in H. destruct H as (H1 & H2).
  destruct Hin as [->|Hin]; [|exact (IH z H2 Hin)].
  apply (ascending_from_above y (l ++ [x])); [exact H2|].
  apply in_or_app. right. left. reflexivity.
Qed.

Lemma rlRemovePica200Tex_loop_absent id0 curr :
  ~ In id0 (ids curr) -> rlRemovePica200Tex_loop id0 curr = None.
Proof.
  induction curr as [|c next IH]; intros H; [reflexivity|].
  simpl. destruct (Z.eqb_spec (id c) id0) as [E|E].
  - exfalso. apply H. left. exact E.
  - apply IH. intros Hin. apply H. right. exact Hin.
Qed.

Lemma rlRemovePica200Tex_loop_found id0 mid c rest :
  ~ In id0 (ids mid) -> id c = id0 ->
  rlRemovePica200Tex_loop id0 (mid ++ c :: rest) = Some rest.
Proof.
  induction mid as [|m mid IH]; intros H E; simpl.
  - rewrite E, Z.eqb_refl. reflexivity.
  - destruct (Z.eqb_spec (id m) id0) as [E'|E'].
    + exfalso. apply H. left. exact E'.
    + apply IH; [|exact E]. intros Hin. apply H. right. exact Hin.
Qed.

Lemma first_occurrence id0 (l : list TexLinkedList_t) :
  In id0 (ids l) ->
  exists mid c rest, l = mid ++ c :: rest /\ ~ In id0 (ids mid) /\ id c = id0.
Proof.
  induction l as [|x l IH]; intros H; [contradiction|].
  destruct (Z.eq_dec (id x) id0) as [E|E].
  - exists [], x, l. repeat split; [tauto|exact E].
  - destruct H as [H|H]; [contradiction|].
    destruct (IH H) as (mid & c & rest & -> & Hn & Hc).
    exists (x :: mid), c, rest. repeat split; [|exact Hc].
    simpl. intros [H1|H1]; [contradiction|exact (Hn H1)].
Qed.

Lemma removal_then_lookup id0 root :
  NoDup (ids root) ->
  rlGetPica200Tex id0 (rlRemovePica200Tex id0 root) = None.
Proof.
  intros Hnd. destruct root as [|x l]; [reflexivity|].
  cbn [ids map] in Hnd. apply NoDup_cons in Hnd. destruct Hnd as [Hx Hl].
  unfold rlRemovePica200Tex.
  destruct (Z.eqb_spec (id x) id0) as [E|E].
  - apply rlGetPica200Tex_None. rewrite <- E. rewrite list_elem_of_In in Hx. exact Hx.
  - destruct (in_dec Z.eq_dec id0 (ids l)) as [Hin|Hout].
    + destruct (first_occurrence id0 l Hin) as (mid & c & rest & -> & Hmid & Hc).
      rewrite rlRemovePica200Tex_loop_found by assumption.
      apply rlGetPica200Tex_None. cbn [ids map]. intros [H|H]; [contradiction|].
      unfold ids in Hl. rewrite map_app in Hl. cbn [map] in Hl.
      apply NoDup_app in Hl. destruct Hl as (_ & _ & Hl).
      apply NoDup_cons in Hl. destruct Hl as [Hl _].
      apply Hl. rewrite list_elem_of_In, Hc. exact H.
    + rewrite rlRemovePica200Tex_loop_absent by exact Hout.
      apply rlGetPica200Tex_None. cbn [ids map]. intros [H|H]; contradiction.
Qed.

Lemma rlRemovePica200Tex_subset id0 root n :
  In n (rlRemovePica200Tex id0 root) -> In n root.
Proof.
  destruct root as [|x l]; [tauto|].
  unfold rlRemovePica200Tex. destruct (id x =? id0); [intros H; right; exact H|].
  destruct (rlRemovePica200Tex_loop id0 l) as [next|] eqn:E; [|tauto].
  assert (Hsub : forall m, In m next -> In m l).
  { clear - E. revert E. induction l as [|c l IH]; [discriminate|].
    simpl. destruct (id c =? id0).
    - intros H; inversion H; subst. intros m Hm. right. exact Hm.
    - intros H m Hm. right. exact (IH H m Hm). }
  intros [H|H]; [left; exact H|right; exact (Hsub n H)].
Qed.

Lemma rlNewPica200Tex_positive root :
  ids_bounded root -> 1 <= fst (rlNewPica200Tex root).
Proof.
  intros Hb. destruct root as [|r rest]; [simpl; lia|].
  unfold rlNewPica200Tex.
  assert (H : forall curr newId upto,
             1 <= newId ->
             Forall (fun x => 0 <= x < 2 ^ 32 - 1) (ids curr) ->
             1 <= fst (rlNewPica200Tex_loop newId upto curr)).
  { induction curr as [|c next IH]; intros newId upto Hn Hf; [exact Hn|].
    apply Forall_cons in Hf. destruct Hf as [Hc Hf].
    cbn [rlNewPica200Tex_loop].
    destruct (newId <? id c); [exact Hn|].
    apply IH; [|exact Hf]. unfold u32. rewrite Z.mod_small; lia. }
  apply H; [vm_compute; discriminate|].
  unfold ids_bounded in Hb. simpl in Hb. apply Forall_cons in Hb. apply Hb.
Qed.

End RegistryFacts.

Section RegistryTheorems.

Import Texture.

(** X14: [rlGetPica200Tex] fails exactly on the ids no node carries, and
    what it returns otherwise is a node of the list with the id asked
    for. *)
Theorem lookup_finds_exactly_live_ids (id0 : Z) (root : list TexLinkedList_t) :
  (rlGetPica200Tex id0 root = None <-> ~ In id0 (ids root))
  /\ (forall n, rlGetPica200Tex id0 root = Some n -> id n = id0 /\ In n root).
Proof.
  split; [apply rlGetPica200Tex_None|intros n; apply rlGetPica200Tex_Some].
Qed.

(** X15: after any allocation the id returned is found by
    [rlGetPica200Tex], whatever the registry held before. *)
Theorem allocated_id_is_found (root : list TexLinkedList_t) :
  exists n,
    rlGetPica200Tex (fst (rlNewPica200Tex root)) (snd (rlNewPica200Tex root)) = Some n
    /\ id n = fst (rlNewPica200Tex root).
Proof.
  destruct (rlGetPica200Tex (fst (rlNewPica200Tex root)) (snd (rlNewPica200Tex root)))
    as [n|] eqn:E.
  - exists n. split; [reflexivity|]. apply (rlGetPica200Tex_Some _ _ _ E).
  - exfalso. apply rlGetPica200Tex_None in E. apply E, rlNewPica200Tex_in.
Qed.

(** X16: while the registry starts at id 1 and ascends strictly (as it
    does as long as the first texture stays loaded), an allocation
    returns the smallest positive id no node carries, links a node with
    it, and leaves the list starting at 1 and ascending; when no id above
    the new one is live, the new node is appended and every node is
    kept. *)
Theorem allocation_returns_smallest_free (root : list TexLinkedList_t) :
  rooted root -> ids_bounded root ->
  let r := rlNewPica200Tex root in
  1 <= fst r
  /\ ~ In (fst r) (ids root)
  /\ (forall k, 1 <= k < fst r -> In k (ids root))
  /\ In (fst r) (ids (snd r))
  /\ rooted (snd r)
  /\ ((forall x, In x (ids root) -> x < fst r) -> ids (snd r) = ids root ++ [fst r]).
Proof.
  intros Hr Hb. cbv zeta.
  split; [apply rlNewPica200Tex_positive, Hb|].
  destruct root as [|r0 rest].
  - simpl. repeat split; try tauto; try lia.
  - unfold rooted, ids_bounded in *. cbn [ids map] in Hr, Hb.
    destruct Hr as (E1 & Hasc). apply Forall_cons in Hb. destruct Hb as [_ Hb].
    unfold rlNewPica200Tex. change (u32 (1 + 1)) with 2.
    destruct (rlNewPica200Tex_loop_spec rest 2 [r0] ltac:(lia) Hasc Hb)
      as (I1 & I2 & I3 & kept & rest' & I4 & I5 & I6).
    cbv zeta in *.
    set (r := rlNewPica200Tex_loop 2 [r0] rest) in *.
    split; [|split; [|split; [|split]]].
    + cbn [ids map]. intros [E|Hin]; [lia|exact (I2 Hin)].
    + intros k Hk. cbn [ids map]. destruct (Z.eq_dec k 1) as [->|Hne]; [left; exact E1|].
      right. apply I3. lia.
    + rewrite I4. apply in_or_app. right. apply in_or_app. right. left. reflexivity.
    + rewrite I4. cbn [ids map app]. split; [exact E1|exact I5].
    + intros Hall. rewrite I4. cbn [ids map app].
      destruct I6 as [(E & ->)|(dropped & E & Hd)].
      * unfold ids in E. rewrite E. reflexivity.
      * exfalso. specialize (Hall dropped). cbn [ids map] in Hall.
        assert (dropped < fst r); [|lia].
        apply Hall. right. unfold ids in E. rewrite E.
        apply in_or_app. right. left. reflexivity.
Qed.

Lemma allocation_returns_smallest_free_witness :
  ~ In (fst (rlNewPica200Tex gapped_registry)) (ids gapped_registry)
  /\ (forall k, 1 <= k < fst (rlNewPica200Tex gapped_registry) ->
        In k (ids gapped_registry)).
Proof.
  destruct (allocation_returns_smallest_free gapped_registry) as (_ & H2 & H3 & _).
  - vm_compute. repeat split.
  - unfold ids_bounded. simpl. repeat (constructor; [lia|]). constructor.
  - split; [exact H2|exact H3].
Defined.

(** X17: when an allocation fills a gap, the node that followed the gap
    leaves the list: its id is live before the call and carried by no
    node after it, and the list is no longer than before. *)
Theorem allocation_in_gap_drops_node (root : list TexLinkedList_t) (x : Z) :
  rooted root -> ids_bounded root ->
  In x (ids root) -> fst (rlNewPica200Tex root) < x ->
  let r := rlNewPica200Tex root in
  exists kept dropped rest,
    ids root = kept ++ dropped :: rest
    /\ ids (snd r) = kept ++ fst r :: rest
    /\ fst r < dropped
    /\ ~ In dropped (ids (snd r))
    /\ length (snd r) = length root.
Proof.
  intros Hr Hb Hx Hlt. cbv zeta.
  destruct root as [|r0 rest]; [contradiction|].
  unfold rooted, ids_bounded in *. cbn [ids map] in Hr, Hb.
  destruct Hr as (E1 & Hasc). apply Forall_cons in Hb. destruct Hb as [_ Hb].
  unfold rlNewPica200Tex in *. change (u32 (1 + 1)) with 2 in *.
  destruct (rlNewPica200Tex_loop_spec rest 2 [r0] ltac:(lia) Hasc Hb)
    as (I1 & I2 & I3 & kept & rest' & I4 & I5 & I6).
  cbv zeta in *.
  set (r := rlNewPica200Tex_loop 2 [r0] rest) in *.
  destruct I6 as [(E & ->)|(dropped & E & Hd)].
  - exfalso. cbn [ids map] in Hx. destruct Hx as [Hx|Hx]; [lia|].
    unfold ids in E. rewrite E in Hx.
    pose proof (ascending_from_last _ _ _ _ I5 Hx). lia.
  - exists (1 :: kept), dropped, rest'.
    assert (Eids : ids (snd r) = (1 :: kept) ++ fst r :: rest').
    { rewrite I4. cbn [ids map app]. rewrite E1. reflexivity. }
    split; [cbn [ids map]; unfold ids in E; rewrite E, E1; reflexivity|].
    split; [exact Eids|].
    split; [exact Hd|].
    split.
    + rewrite Eids. cbn [app].
      unfold ids in E. rewrite E in Hasc.
      apply ascending_from_app in Hasc. destruct Hasc as (Hk & Hrest).
      intros [H1|Hin]; [lia|].
      apply in_app_or in Hin. destruct Hin as [Hin|[Hin|Hin]].
      * pose proof (ascending_from_last _ _ _ _ Hk Hin). lia.
      * lia.
      * pose proof (ascending_from_above _ _ _ Hrest Hin). lia.
    + assert (L1 : length (ids (snd r)) = length (ids (r0 :: rest))).
      { rewrite Eids. cbn [ids map]. unfold ids in E. rewrite E.
        cbn [length app]. rewrite !length_app. reflexivity. }
      unfold ids in L1. rewrite !length_map in L1. exact L1.
Qed.

Lemma allocation_in_gap_drops_node_witness :
  exists kept dropped rest,
    ids gapped_registry = kept ++ dropped :: rest
    /\ ids (snd (rlNewPica200Tex gapped_registry))
       = kept ++ fst (rlNewPica200Tex gapped_registry) :: rest
    /\ fst (rlNewPica200Tex gapped_registry) < dropped
    /\ ~ In dropped (ids (snd (rlNewPica200Tex gapped_registry)))
    /\ length (snd (rlNewPica200Tex gapped_registry)) = length gapped_registry.
Proof.
  apply (allocation_in_gap_drops_node gapped_registry 3).
  - vm_compute. repeat split.
  - unfold ids_bounded. simpl. repeat (constructor; [lia|]). constructor.
  - simpl. lia.
  - reflexivity.
Defined.

(** X18: [rlRemovePica200Tex] unlinks more than the node asked for: when
    the id sits behind other nodes that follow the root, the root is
    linked to the successors of the node found, so every node between
    the root and that node leaves the list with it.  Removing the root
    gives the rest of the list, and removing an id no node carries
    changes nothing. *)
Theorem removal_unlinks_up_to_the_node (id0 : Z)
    (r c : TexLinkedList_t) (mid rest : list TexLinkedList_t) :
  id r <> id0 -> ~ In id0 (ids mid) -> id c = id0 ->
  rlRemovePica200Tex id0 (r :: mid ++ c :: rest) = r :: rest
  /\ rlRemovePica200Tex (id r) (r :: mid ++ c :: rest) = mid ++ c :: rest
  /\ (forall root, ~ In id0 (ids root) -> rlRemovePica200Tex id0 root = root).
Proof.
  intros Hr Hmid Hc. split; [|split].
  - unfold rlRemovePica200Tex.
    destruct (Z.eqb_spec (id r) id0) as [E|_]; [contradiction|].
    rewrite rlRemovePica200Tex_loop_found by assumption. reflexivity.
  - unfold rlRemovePica200Tex. rewrite Z.eqb_refl. reflexivity.
  - intros root Hn. destruct root as [|x l]; [reflexivity|].
    unfold rlRemovePica200Tex.
    destruct (Z.eqb_spec (id x) id0) as [E|_].
    + exfalso. apply Hn. left. exact E.
    + rewrite rlRemovePica200Tex_loop_absent; [reflexivity|].
      intros Hin. apply Hn. right. exact Hin.
Qed.

Lemma removal_unlinks_up_to_the_node_witness :
  rlRemovePica200Tex 4
    (mkNode 1 None :: [mkNode 2 None; mkNode 3 None] ++ mkNode 4 None :: [mkNode 5 None])
  = [mkNode 1 None; mkNode 5 None].
Proof.
  destruct (removal_unlinks_up_to_the_node 4 (mkNode 1 None) (mkNode 4 None)
              [mkNode 2 None; mkNode 3 None] [mkNode 5 None])
    as (H & _).
  - simpl. lia.
  - simpl. lia.
  - reflexivity.
  - exact H.
Defined.

(** X19: in a registry without duplicate ids, an id that has been
    removed is no longer found, and no node appears that was not there
    before. *)
Theorem removed_id_is_not_found (id0 : Z) (root : list TexLinkedList_t) :
  NoDup (ids root) ->
  rlGetPica200Tex id0 (rlRemovePica200Tex id0 root) = None
  /\ (forall n, In n (rlRemovePica200Tex id0 root) -> In n root).
Proof.
  intros Hnd. split; [apply removal_then_lookup, Hnd|].
  intros n. apply rlRemovePica200Tex_subset.
Qed.

Lemma removed_id_is_not_found_witness :
  rlGetPica200Tex 3 (rlRemovePica200Tex 3 gapped_registry) = None.
Proof.
  destruct (removed_id_is_not_found 3 gapped_registry) as (H & _).
  - simpl.
    repeat (constructor; [intros E; apply list_elem_of_In in E; simpl in E; lia|]).
    constructor.
  - exact H.
Defined.

(** X20: [rlUnloadTexture] with an id no node carries only reports that
    it cannot unload and leaves the registry as it is; with a live id, in
    a registry without duplicate ids, it reports nothing and the id is no
    longer found afterwards. *)
Theorem unload_texture (id0 : Z) (s : State) :
  (~ In id0 (ids (rootTex s)) ->
   rlUnloadTexture id0 s
   = mkState (rootTex s) (tracelog s ++ [(LOG_WARNING, TextureUnableToUnload)]))
  /\ (In id0 (ids (rootTex s)) -> NoDup (ids (rootTex s)) ->
      tracelog (rlUnloadTexture id0 s) = tracelog s
      /\ rlGetPica200Tex id0 (rootTex (rlUnloadTexture id0 s)) = None).
Proof.
  split.
  - intros Hn. unfold rlUnloadTexture.
    apply rlGetPica200Tex_None in Hn. rewrite Hn. reflexivity.
  - intros Hin Hnd. unfold rlUnloadTexture.
    destruct (rlGetPica200Tex id0 (rootTex s)) as [n|] eqn:E.
    + cbn [tracelog rootTex]. split; [reflexivity|].
      assert (Hids : ids (assign_tex id0 None (rootTex s)) = ids (rootTex s)).
      { clear. induction (rootTex s) as [|c next IH]; [reflexivity|].
        cbn [assign_tex]. destruct (id c =? id0); cbn [ids map id]; [reflexivity|].
        f_equal. exact IH. }
      apply removal_then_lookup. rewrite Hids. exact Hnd.
    + apply rlGetPica200Tex_None in E. contradiction.
Qed.

Lemma unload_texture_witness :
  rlUnloadTexture 2 (mkState gapped_registry [])
  = mkState gapped_registry [(LOG_WARNING, TextureUnableToUnload)].
Proof.
  destruct (unload_texture 2 (mkState gapped_registry [])) as (H & _).
  apply H. simpl. lia.
Defined.

(** X21: [checkTexSize], applied to an [int] dimension converted to
    [u32], accepts exactly the eight sizes 8, 16, ..., 1024: every other
    value, negative ones included, is refused. *)
Theorem checkTexSize_accepts_eight_sizes (n : Z) :
  - 2 ^ 31 <= n < 2 ^ 31 ->
  (checkTexSize (u32 n) = true <-> In n texture_sizes).
Proof.
  intros Hn. split.
  - intros H.
    assert (Hr : 0 <= n < Z.of_nat 1025).
    { unfold checkTexSize in H.
      destruct (Z.ltb_spec (u32 n) 8); [discriminate|].
      destruct (Z.gtb_spec (u32 n) 1024); [discriminate|].
      unfold u32 in *.
      destruct (Z.lt_ge_cases n 0) as [Hneg|Hpos].
      - replace (n mod 2 ^ 32) with (n + 2 ^ 32) in *
          by (apply (Z.mod_unique n (2 ^ 32) (-1) (n + 2 ^ 32)); lia).
        lia.
      - rewrite Z.mod_small in * by lia. lia. }
    assert (E : u32 n = n) by (unfold u32; apply Z.mod_small; lia).
    rewrite E in H.
    pose proof (below_forallb 1025
      (fun n => implb (checkTexSize n) (existsb (Z.eqb n) texture_sizes))) as F.
    specialize (F ltac:(vm_compute; reflexivity) n Hr). cbv beta in F.
    rewrite H, Bool.implb_true_l in F.
    apply existsb_exists in F. destruct F as (x & Hx & Ex).
    apply Z.eqb_eq in Ex. subst x. exact Hx.
  - intros H. unfold texture_sizes in H. simpl in H.
    repeat (destruct H as [H|H]; [subst n; vm_compute; reflexivity|]).
    destruct H.
Qed.

Lemma checkTexSize_accepts_eight_sizes_witness :
  checkTexSize (u32 64) = true <-> In 64 texture_sizes.
Proof.
  apply (checkTexSize_accepts_eight_sizes 64). lia.
Defined.

(** X22: with ids that cannot wrap around, [rlLoadTexture] returns the
    failure handle 0 exactly when the format is not supported or a
    dimension is refused; an unsupported format leaves the registry as
    it was; and a handle other than 0 is found in the registry with a
    native texture of the dimensions asked for. *)
Theorem load_texture_result (data : list u8) (width height : Z) (format : PixelFormat)
    (mipmapCount : Z) (s : State) :
  ids_bounded (rootTex s) ->
  let r := rlLoadTexture data width height format mipmapCount s in
  (fst r = 0 <->
   rlGetPica200TextureFormat format = None
   \/ checkTexSize (u32 width) && checkTexSize (u32 height) = false)
  /\ (rlGetPica200TextureFormat format = None -> rootTex (snd r) = rootTex s)
  /\ (fst r <> 0 ->
      exists texColor texels,
        rlGetPica200TextureFormat format = Some texColor
        /\ rlGetPica200Tex (fst r) (rootTex (snd r))
           = Some (mkNode (fst r) (Some (mkTex width height texColor texels)))).
Proof.
  intros Hb. cbv zeta. unfold rlLoadTexture.
  destruct (rlGetPica200TextureFormat format) as [texColor|].
  - pose proof (rlNewPica200Tex_positive (rootTex s) Hb) as Hpos.
    pose proof (rlNewPica200Tex_in (rootTex s)) as Hin.
    destruct (rlNewPica200Tex (rootTex s)) as [newId root]. cbn [fst snd] in Hpos, Hin.
    unfold C3D_TexInit.
    destruct (checkTexSize (u32 width) && checkTexSize (u32 height));
      cbn [fst snd rootTex TRACELOG].
    + split; [|split].
      * split; [lia|]. intros [H|H]; discriminate.
      * discriminate.
      * intros _. exists texColor. eexists. split; [reflexivity|].
        rewrite rlGetPica200Tex_assign by exact Hin. reflexivity.
    + split; [|split].
      * split; [right; reflexivity|reflexivity].
      * discriminate.
      * intros H. contradiction H. reflexivity.
  - cbn [fst snd rootTex TRACELOG]. split; [|split].
    + split; [left; reflexivity|reflexivity].
    + reflexivity.
    + intros H. contradiction H. reflexivity.
Qed.

Lemma load_texture_result_witness :
  fst (rlLoadTexture (gradient 64) 8 8 PIXELFORMAT_UNCOMPRESSED_GRAYSCALE 1 empty_registry)
  = 0
  <-> rlGetPica200TextureFormat PIXELFORMAT_UNCOMPRESSED_GRAYSCALE = None
      \/ checkTexSize (u32 8) && checkTexSize (u32 8) = false.
Proof.
  destruct (load_texture_result (gradient 64) 8 8 PIXELFORMAT_UNCOMPRESSED_GRAYSCALE 1
              empty_registry) as (H & _).
  - constructor.
  - exact H.
Defined.

End RegistryTheorems.

(** ** Texture swizzle: bounds, coverage, injectivity *)

Section SwizzleFacts.

Import Texture.

Lemma unswizzle_facts p :
  0 <= p < 64 -> 0 <= unswizzle p < 64 /\ swizzle_at (unswizzle p) = p.
Proof.
  intros Hp.
  pose proof (below_forallb 64
    (fun p => (0 <=? unswizzle p) && (unswizzle p <? 64)
              && (swizzle_at (unswizzle p) =? p))) as F.
  specialize (F ltac:(vm_compute; reflexivity) p Hp). cbv beta in F.
  apply andb_prop in F. destruct F as [F F3].
  apply andb_prop in F. destruct F as [F1 F2].
  apply Z.eqb_eq in F3. lia.
Qed.

(** Every offset of the tiled buffer is the destination of some byte. *)
Lemma dest_offset_surj a b nb d :
  1 <= nb -> 1 <= a -> 1 <= b ->
  0 <= d < 8 * a * (8 * b) * nb ->
  exists w h i k,
    (0 <= w < a /\ 0 <= h < b /\ 0 <= i < 64 /\ 0 <= k < nb)
    /\ dest_offset a nb w h i k = d.
Proof.
  intros Hnb Ha Hb Hd.
  pose proof (Z.div_mod d nb ltac:(lia)) as E1.
  pose proof (Z.mod_pos_bound d nb ltac:(lia)) as B1.
  set (X := d / nb) in *. set (r := d mod nb) in *.
  assert (HX : 0 <= X < a * b * 64) by nia.
  pose proof (Z.div_mod X 64 ltac:(lia)) as E2.
  pose proof (Z.mod_pos_bound X 64 ltac:(lia)) as B2.
  set (t := X / 64) in *. set (p := X mod 64) in *.
  assert (Ht : 0 <= t < a * b) by nia.
  pose proof (Z.div_mod t a ltac:(lia)) as E3.
  pose proof (Z.mod_pos_bound t a ltac:(lia)) as B3.
  set (h := t / a) in *. set (w := t mod a) in *.
  assert (Hh : 0 <= h < b) by nia.
  destruct (unswizzle_facts p B2) as (Bi & Ei).
  exists w, h, (unswizzle p), (nb - 1 - r).
  split; [repeat split; lia|].
  unfold dest_offset. rewrite Ei. nia.
Qed.

(** Every offset of the source buffer is read for some byte. *)
Lemma source_offset_surj a b nb s :
  1 <= nb -> 1 <= a -> 1 <= b ->
  0 <= s < 8 * a * (8 * b) * nb ->
  exists w h i k,
    (0 <= w < a /\ 0 <= h < b /\ 0 <= i < 64 /\ 0 <= k < nb)
    /\ source_offset a b nb w h i k = s.
Proof.
  intros Hnb Ha Hb Hs.
  pose proof (Z.div_mod s nb ltac:(lia)) as E1.
  pose proof (Z.mod_pos_bound s nb ltac:(lia)) as B1.
  set (P := s / nb) in *. set (k := s mod nb) in *.
  assert (HP : 0 <= P < 8 * a * (8 * b)) by nia.
  pose proof (Z.div_mod P (8 * a) ltac:(lia)) as E2.
  pose proof (Z.mod_pos_bound P (8 * a) ltac:(lia)) as B2.
  set (row := P / (8 * a)) in *. set (col := P mod (8 * a)) in *.
  assert (Hrow : 0 <= row < 8 * b) by nia.
  pose proof (Z.div_mod col 8 ltac:(lia)) as E3.
  pose proof (Z.mod_pos_bound col 8 ltac:(lia)) as B3.
  set (w := col / 8) in *. set (c8 := col mod 8) in *.
  assert (Hw : 0 <= w < a) by lia.
  set (y := 8 * b - 1 - row).
  pose proof (Z.div_mod y 8 ltac:(lia)) as E4.
  pose proof (Z.mod_pos_bound y 8 ltac:(lia)) as B4.
  set (h := y / 8) in *. set (r8 := y mod 8) in *.
  assert (Hh : 0 <= h < b) by (unfold y in *; lia).
  set (i := r8 * 8 + c8).
  assert (Ei8 : i / 8 = r8).
  { symmetry. apply (Z.div_unique i 8 r8 c8); [lia|unfold i; ring]. }
  assert (Eim : i mod 8 = c8).
  { symmetry. apply (Z.mod_unique i 8 r8 c8); [lia|unfold i; ring]. }
  exists w, h, i, k.
  split; [repeat split; unfold i; lia|].
  unfold source_offset. rewrite Ei8, Eim.
  replace (8 * b - (h * 8 + r8) - 1) with row by (unfold y in *; lia).
  replace (w * 8 + c8) with col by lia.
  nia.
Qed.

(** The content of the tiled buffer, byte by byte. *)
Lemma swizzle_byte data a b nb w h i k :
  1 <= nb -> 0 <= w < a -> 0 <= h < b -> 0 <= i < 64 -> 0 <= k < nb ->
  swizzle_loops data (8 * a) (8 * b) (8 * nb) !! Z.to_nat (dest_offset a nb w h i k)
  = Some (load data (source_offset a b nb w h i k)).
Proof.
  intros Hnb Hw Hh Hi Hk.
  pose proof (dest_offset_bound a b nb w h i k Hnb Hw Hh Hi Hk) as BD.
  rewrite swizzle_loops_writes.
  apply fold_write_lookup.
  - lia.
  - rewrite length_replicate.
    replace (8 * a * (8 * b) * (8 * nb)) with (8 * (8 * a * (8 * b) * nb)) by ring.
    rewrite quot8. lia.
  - apply writes_complete; assumption.
  - intros v' Hv'.
    apply (writes_sound data a b nb) in Hv'; [|exact Hnb].
    destruct Hv' as (w2 & h2 & i2 & k2 & (Hw2 & Hh2 & Hi2 & Hk2) & Ed & ->).
    destruct (dest_offset_inj a nb w h i k w2 h2 i2 k2) as (-> & -> & -> & ->);
      try assumption.
    reflexivity.
Qed.

Lemma swizzle_length data a b nb :
  length (swizzle_loops data (8 * a) (8 * b) (8 * nb)) = Z.to_nat (8 * a * (8 * b) * nb).
Proof.
  rewrite swizzle_loops_writes, length_fold_write, length_replicate.
  f_equal.
  replace (8 * a * (8 * b) * (8 * nb)) with (8 * (8 * a * (8 * b) * nb)) by ring.
  apply quot8.
Qed.

(** The shape of a valid input: dimensions [8*a] and [8*b], [8*nb] bits
    per pixel. *)
Lemma valid_input width height format texColor :
  checkTexSize width = true -> checkTexSize height = true ->
  rlGetPica200TextureFormat format = Some texColor ->
  8 <= rlGetPica200TextureBpp texColor ->
  exists a b nb,
    width = 8 * a /\ height = 8 * b /\ rlGetPica200TextureBpp texColor = 8 * nb
    /\ 1 <= a <= 128 /\ 1 <= b <= 128 /\ 1 <= nb <= 4.
Proof.
  intros Hw Hh Hf Hbpp.
  destruct (checkTexSize_true width Hw) as (a & -> & Ha).
  destruct (checkTexSize_true height Hh) as (b & -> & Hb).
  exists a, b.
  destruct texColor; simpl in Hbpp |- *;
    first [ exists 4; repeat split; lia | exists 3; repeat split; lia
          | exists 2; repeat split; lia | exists 1; repeat split; lia | lia ].
Qed.

End SwizzleFacts.

Section SwizzleTheorems.

Import Texture.

(** X23: for accepted dimensions and a supported format of at least 8
    bits per pixel, with a source of [width*height*bpp/8] bytes, the loop
    nest of [rlLoadTexture] never leaves its buffers: every store lands
    inside the allocated [swizzled] buffer and every load inside the
    source. *)
Theorem swizzle_stays_in_bounds (data : list u8) (width height : Z)
    (format : PixelFormat) (texColor : GPU_TEXCOLOR) :
  checkTexSize width = true -> checkTexSize height = true ->
  rlGetPica200TextureFormat format = Some texColor ->
  8 <= rlGetPica200TextureBpp texColor ->
  Z.of_nat (length data) = width * height * (rlGetPica200TextureBpp texColor / 8) ->
  let bpp := rlGetPica200TextureBpp texColor in
  swizzle_loops data width height bpp
  = fold_left write (writes data width height bpp)
      (replicate (Z.to_nat (Z.quot (width * height * bpp) 8)) None)
  /\ Forall (fun x : Write =>
              0 <= fst x < Z.quot (width * height * bpp) 8 /\ is_Some (snd x))
           (writes data width height bpp).
Proof.
  intros Hw Hh Hf Hbpp Hlen bpp.
  split; [apply swizzle_loops_writes|].
  destruct (valid_input width height format texColor Hw Hh Hf Hbpp)
    as (a & b & nb & -> & -> & Eb & Ha & Hb & Hnb).
  unfold bpp. rewrite Eb in *.
  replace (8 * nb / 8) with nb in Hlen
    by (symmetry; rewrite Z.mul_comm; apply Z.div_mul; discriminate).
  replace (8 * a * (8 * b) * (8 * nb)) with (8 * (8 * a * (8 * b) * nb)) by ring.
  rewrite quot8.
  apply List.Forall_forall. intros [d v] Hin.
  apply (writes_sound data a b nb) in Hin; [|lia].
  destruct Hin as (w & h & i & k & (Hw' & Hh' & Hi & Hk) & -> & ->).
  cbn [fst snd].
  pose proof (dest_offset_bound a b nb w h i k ltac:(lia) Hw' Hh' Hi Hk) as BD.
  pose proof (source_offset_bound a b nb w h i k ltac:(lia) Hw' Hh' Hi Hk) as BS.
  split; [exact BD|].
  unfold load. destruct (Z.leb_spec 0 (source_offset a b nb w h i k)); [|lia].
  apply lookup_lt_is_Some. lia.
Qed.

Lemma swizzle_stays_in_bounds_witness :
  Forall (fun x : Write => 0 <= fst x < Z.quot (8 * 8 * 8) 8 /\ is_Some (snd x))
         (writes (gradient 64) 8 8 8).
Proof.
  destruct (swizzle_stays_in_bounds (gradient 64) 8 8 PIXELFORMAT_UNCOMPRESSED_GRAYSCALE
              GPU_L8) as (_ & H).
  - reflexivity.
  - reflexivity.
  - reflexivity.
  - vm_compute. discriminate.
  - reflexivity.
  - exact H.
Defined.

(** X24: under the same conditions every byte of the buffer handed to
    the driver has been written from the source: no byte of the fresh
    allocation is left as it was. *)
Theorem swizzle_output_initialised (data : list u8) (width height : Z)
    (format : PixelFormat) (texColor : GPU_TEXCOLOR) (j : nat) :
  checkTexSize width = true -> checkTexSize height = true ->
  rlGetPica200TextureFormat format = Some texColor ->
  8 <= rlGetPica200TextureBpp texColor ->
  Z.of_nat (length data) = width * height * (rlGetPica200TextureBpp texColor / 8) ->
  (j < length (swizzle_loops data width height (rlGetPica200TextureBpp texColor)))%nat ->
  exists byte,
    In byte data
    /\ swizzle_loops data width height (rlGetPica200TextureBpp texColor) !! j
       = Some (Some byte).
Proof.
  intros Hw Hh Hf Hbpp Hlen Hj.
  destruct (valid_input width height format texColor Hw Hh Hf Hbpp)
    as (a & b & nb & -> & -> & Eb & Ha & Hb & Hnb).
  rewrite Eb in *.
  replace (8 * nb / 8) with nb in Hlen
    by (symmetry; rewrite Z.mul_comm; apply Z.div_mul; discriminate).
  rewrite swizzle_length in Hj.
  destruct (dest_offset_surj a b nb (Z.of_nat j) ltac:(lia) ltac:(lia) ltac:(lia)
              ltac:(lia)) as (w & h & i & k & (Hw' & Hh' & Hi & Hk) & Ed).
  pose proof (swizzle_byte data a b nb w h i k ltac:(lia) Hw' Hh' Hi Hk) as Hbyte.
  rewrite Ed, Nat2Z.id in Hbyte.
  pose proof (source_offset_bound a b nb w h i k ltac:(lia) Hw' Hh' Hi Hk) as BS.
  unfold load in Hbyte.
  destruct (Z.leb_spec 0 (source_offset a b nb w h i k)); [|lia].
  destruct (lookup_lt_is_Some_2 data (Z.to_nat (source_offset a b nb w h i k)))
    as (byte & Hsome); [lia|].
  exists byte. split.
  - apply list_elem_of_In. eapply list_elem_of_lookup_2. exact Hsome.
  - rewrite Hbyte, Hsome. reflexivity.
Qed.

Lemma swizzle_output_initialised_witness :
  exists byte,
    In byte (gradient 64)
    /\ swizzle_loops (gradient 64) 8 8 8 !! 5%nat = Some (Some byte).
Proof.
  apply (swizzle_output_initialised (gradient 64) 8 8 PIXELFORMAT_UNCOMPRESSED_GRAYSCALE
           GPU_L8 5%nat).
  - reflexivity.
  - reflexivity.
  - reflexivity.
  - vm_compute. discriminate.
  - reflexivity.
  - vm_compute. lia.
Defined.

(** X25: under the same conditions the swizzle loses nothing: two
    sources that give the same tiled buffer are the same source. *)
Theorem swizzle_injective (data1 data2 : list u8) (width height : Z)
    (format : PixelFormat) (texColor : GPU_TEXCOLOR) :
  checkTexSize width = true -> checkTexSize height = true ->
  rlGetPica200TextureFormat format = Some texColor ->
  8 <= rlGetPica200TextureBpp texColor ->
  Z.of_nat (length data1) = width * height * (rlGetPica200TextureBpp texColor / 8) ->
  Z.of_nat (length data2) = width * height * (rlGetPica200TextureBpp texColor / 8) ->
  swizzle_loops data1 width height (rlGetPica200TextureBpp texColor)
  = swizzle_loops data2 width height (rlGetPica200TextureBpp texColor) ->
  data1 = data2.
Proof.
  intros Hw Hh Hf Hbpp Hlen1 Hlen2 Heq.
  destruct (valid_input width height format texColor Hw Hh Hf Hbpp)
    as (a & b & nb & -> & -> & Eb & Ha & Hb & Hnb).
  rewrite Eb in *.
  replace (8 * nb / 8) with nb in Hlen1, Hlen2
    by (symmetry; rewrite Z.mul_comm; apply Z.div_mul; discriminate).
  apply list_eq. intros n.
  destruct (Nat.lt_ge_cases n (length data1)) as [Hn|Hn].
  - destruct (source_offset_surj a b nb (Z.of_nat n) ltac:(lia) ltac:(lia) ltac:(lia)
                ltac:(lia)) as (w & h & i & k & (Hw' & Hh' & Hi & Hk) & Es).
    pose proof (swizzle_byte data1 a b nb w h i k ltac:(lia) Hw' Hh' Hi Hk) as B1.
    pose proof (swizzle_byte data2 a b nb w h i k ltac:(lia) Hw' Hh' Hi Hk) as B2.
    rewrite Heq, B2, Es in B1. unfold load in B1.
    destruct (Z.leb_spec 0 (Z.of_nat n)); [|lia].
    rewrite Nat2Z.id in B1. inversion B1. reflexivity.
  - rewrite !lookup_ge_None_2; [reflexivity|lia|lia].
Qed.

Lemma swizzle_injective_witness : gradient 64 = map (fun b : u8 => b) (gradient 64).
Proof.
  apply (swizzle_injective (gradient 64) (map (fun b : u8 => b) (gradient 64)) 8 8
           PIXELFORMAT_UNCOMPRESSED_GRAYSCALE GPU_L8).
  - reflexivity.
  - reflexivity.
  - reflexivity.
  - vm_compute. discriminate.
  - reflexivity.
  - reflexivity.
  - vm_compute. reflexivity.
Defined.

(** X26: the one supported format below 8 bits per pixel is ETC1
    (4 bits).  For it, and any accepted dimensions, the byte count per
    pixel is forced to 1, and the last store of the last tile lands at
    offset [width*height*4/8], the first byte past the end of the
    allocated buffer. *)
Theorem swizzle_etc1_stores_past_end (data : list u8) (width height : Z)
    (format : PixelFormat) (texColor : GPU_TEXCOLOR) :
  checkTexSize width = true -> checkTexSize height = true ->
  rlGetPica200TextureFormat format = Some texColor ->
  rlGetPica200TextureBpp texColor < 8 ->
  let bpp := rlGetPica200TextureBpp texColor in
  format = PIXELFORMAT_COMPRESSED_ETC1_RGB /\ bpp = 4
  /\ Z.of_nat (length (swizzle_loops data width height bpp))
     = Z.quot (width * height * bpp) 8
  /\ exists v, In (Z.quot (width * height * bpp) 8, v) (writes data width height bpp).
Proof.
  intros Hw Hh Hf Hbpp bpp.
  assert (Hfmt : format = PIXELFORMAT_COMPRESSED_ETC1_RGB /\ texColor = GPU_ETC1).
  { destruct format; simpl in Hf; inversion Hf; subst texColor; simpl in Hbpp;
      try lia; split; reflexivity. }
  destruct Hfmt as (-> & ->). unfold bpp. simpl rlGetPica200TextureBpp.
  destruct (checkTexSize_true width Hw) as (a & -> & Ha).
  destruct (checkTexSize_true height Hh) as (b & -> & Hb).
  assert (Esize : Z.quot (8 * a * (8 * b) * 4) 8 = 32 * a * b).
  { replace (8 * a * (8 * b) * 4) with (32 * a * b * 8) by ring.
    apply Z.quot_mul. discriminate. }
  split; [reflexivity|]. split; [reflexivity|]. split.
  - rewrite swizzle_loops_writes, length_fold_write, length_replicate, Esize. lia.
  - rewrite Esize. eexists.
    unfold writes.
    apply in_flat_map. exists (a - 1). split; [apply in_iterations_1; rewrite quot8; lia|].
    apply in_flat_map. exists (b - 1). split; [apply in_iterations_1; rewrite quot8; lia|].
    apply in_flat_map. exists 62. split.
    { apply in_iterations_64_2. exists 31. lia. }
    cbv zeta.
    change (if Z.quot 4 8 =? 0 then 1 else Z.quot 4 8) with 1.
    apply in_flat_map. exists 1. split; [apply in_iterations_1; lia|].
    apply in_map_iff. exists 0. split; [|apply in_iterations_1; lia].
    f_equal.
    change (swizzle_at 62) with 62. change (Z.quot (62 * 4) 8) with 31.
    replace (Z.quot ((b - 1) * (8 * a)) 8) with ((b - 1) * a)
      by (symmetry; apply quot8_mul).
    replace ((a - 1 + (b - 1) * a) * 64 * 4) with ((a * b - 1) * 32 * 8) by ring.
    rewrite Z.quot_mul by discriminate. ring.
Qed.

Lemma swizzle_etc1_stores_past_end_witness :
  exists v, In (Z.quot (8 * 8 * 4) 8, v) (writes (gradient 32) 8 8 4).
Proof.
  destruct (swizzle_etc1_stores_past_end (gradient 32) 8 8
              PIXELFORMAT_COMPRESSED_ETC1_RGB GPU_ETC1) as (_ & _ & _ & H).
  - reflexivity.
  - reflexivity.
  - reflexivity.
  - reflexivity.
  - exact H.
Defined.

End SwizzleTheorems.

Section LoadUnload.

Import Texture.

(** The allocator on a registry whose ids are consecutive: the new id
    follows the last one and the node is appended. *)
Lemma rlNewPica200Tex_loop_dense curr : forall newId upto,
  ids curr = map Z.of_nat (seq (Z.to_nat newId) (length curr)) ->
  0 < newId -> newId + Z.of_nat (length curr) < 2 ^ 32 ->
  rlNewPica200Tex_loop newId upto curr
  = (newId + Z.of_nat (length curr),
     upto ++ curr ++ [new_node (newId + Z.of_nat (length curr))]).
Proof.
  induction curr as [|c next IH]; intros newId upto Hids Hpos Hb.
  - simpl. rewrite Z.add_0_r. reflexivity.
  - cbn [length seq map ids] in Hids. injection Hids as Hc Hn.
    rewrite Z2Nat.id in Hc by lia.
    cbn [rlNewPica200Tex_loop]. rewrite Hc, Z.ltb_irrefl.
    assert (Eu : u32 (newId + 1) = newId + 1).
    { unfold u32. apply Z.mod_small. cbn [length] in Hb. lia. }
    rewrite Eu.
    rewrite (IH (newId + 1) (upto ++ [c])).
    + cbn [length]. rewrite <- !app_assoc. cbn [app].
      replace (newId + 1 + Z.of_nat (length next))
        with (newId + Z.of_nat (S (length next))) by lia.
      reflexivity.
    + unfold ids. rewrite Hn. f_equal. f_equal. lia.
    + lia.
    + cbn [length] in Hb. lia.
Qed.

Lemma assign_tex_last id0 t (l : list TexLinkedList_t) c :
  ~ In id0 (ids l) -> id c = id0 ->
  assign_tex id0 t (l ++ [c]) = l ++ [mkNode id0 t].
Proof.
  induction l as [|x l IH]; intros H E; simpl.
  - rewrite E, Z.eqb_refl. reflexivity.
  - destruct (Z.eqb_spec (id x) id0) as [E'|E'].
    + exfalso. apply H. left. exact E'.
    + f_equal. apply IH; [|exact E]. intros Hin. apply H. right. exact Hin.
Qed.

Lemma in_ids_dense k lo n :
  In k (map Z.of_nat (seq lo n)) -> Z.of_nat lo <= k < Z.of_nat lo + Z.of_nat n.
Proof.
  intros H. apply in_map_iff in H. destruct H as (x & <- & Hx).
  apply in_seq in Hx. lia.
Qed.

(** X27: on a registry that holds the ids 1 to [n] (the state after [n]
    loads and no unload), a successful [rlLoadTexture] returns [n+1] and
    appends its node; unloading that texture again does not give the
    registry back: every node but the first is unlinked with it, so the
    textures 2 to [n] can no longer be found. *)
Theorem load_then_unload_keeps_first (data : list u8) (width height : Z)
    (format : PixelFormat) (texColor : GPU_TEXCOLOR) (mipmapCount : Z) (s : State)
    (n : nat) :
  ids (rootTex s) = map Z.of_nat (seq 1 n) ->
  Z.of_nat n < 2 ^ 32 - 2 ->
  rlGetPica200TextureFormat format = Some texColor ->
  checkTexSize (u32 width) && checkTexSize (u32 height) = true ->
  let r := rlLoadTexture data width height format mipmapCount s in
  fst r = Z.of_nat n + 1
  /\ ids (rootTex (snd r)) = ids (rootTex s) ++ [Z.of_nat n + 1]
  /\ rootTex (rlUnloadTexture (fst r) (snd r)) = firstn 1 (rootTex s)
  /\ (forall k, 2 <= k <= Z.of_nat n ->
        In k (ids (rootTex s))
        /\ rlGetPica200Tex k (rootTex (rlUnloadTexture (fst r) (snd r))) = None).
Proof.
  intros Hids Hn Hf Hsz r.
  assert (Hlen : length (rootTex s) = n).
  { rewrite <- (length_map id (rootTex s)). fold (ids (rootTex s)).
    rewrite Hids, length_map, length_seq. reflexivity. }
  assert (Hnew : rlNewPica200Tex (rootTex s)
                 = (Z.of_nat n + 1, rootTex s ++ [new_node (Z.of_nat n + 1)])).
  { destruct (rootTex s) as [|r0 rest] eqn:Er.
    - simpl in Hlen. subst n. reflexivity.
    - cbn [length] in Hlen. destruct n as [|m]; [discriminate|].
      injection Hlen as Hlen.
      cbn [seq map ids] in Hids. injection Hids as Hr0 Hrest.
      unfold rlNewPica200Tex.
      assert (Eu : u32 (1 + 1) = 2) by reflexivity.
      rewrite Eu.
      rewrite (rlNewPica200Tex_loop_dense rest 2 [r0]).
      + rewrite Hlen. cbn [app].
        replace (2 + Z.of_nat m) with (Z.of_nat (S m) + 1) by lia.
        reflexivity.
      + unfold ids. rewrite Hrest, Hlen. reflexivity.
      + lia.
      + rewrite Hlen. lia. }
  assert (Hfresh : ~ In (Z.of_nat n + 1) (ids (rootTex s))).
  { rewrite Hids. intros Hin. apply in_ids_dense in Hin. lia. }
  set (id1 := Z.of_nat n + 1) in *.
  assert (Hr : exists t,
             r = (id1,
                  TRACELOG LOG_INFO (TextureLoaded id1 width height mipmapCount)
                    (mkState (rootTex s ++ [mkNode id1 (Some t)]) (tracelog s)))).
  { unfold r, rlLoadTexture. rewrite Hf, Hnew. unfold C3D_TexInit. rewrite Hsz.
    eexists. cbn [rootTex tracelog].
    rewrite (assign_tex_last id1 _ (rootTex s) (new_node id1) Hfresh eq_refl).
    reflexivity. }
  destruct Hr as (t & Hr). rewrite Hr. cbn [fst snd].
  unfold TRACELOG. cbn [rootTex tracelog].
  split; [reflexivity|]. split.
  { unfold ids. rewrite map_app. reflexivity. }
  assert (Hun : rootTex (rlUnloadTexture id1
                  (mkState (rootTex s ++ [mkNode id1 (Some t)])
                     (tracelog s ++ [(LOG_INFO, TextureLoaded id1 width height mipmapCount)])))
                = firstn 1 (rootTex s)).
  { unfold rlUnloadTexture. cbn [rootTex tracelog].
    destruct (rlGetPica200Tex id1 (rootTex s ++ [mkNode id1 (Some t)])) as [nd|] eqn:Eg.
    - cbn [rootTex].
      rewrite (assign_tex_last id1 None (rootTex s) (mkNode id1 (Some t)) Hfresh eq_refl).
      destruct (rootTex s) as [|r0 rest] eqn:Er.
      + simpl. rewrite Z.eqb_refl. reflexivity.
      + cbn [app rlRemovePica200Tex firstn].
        destruct (Z.eqb_spec (id r0) id1) as [E|E].
        * exfalso. apply Hfresh. left. exact E.
        * rewrite (rlRemovePica200Tex_loop_found id1 rest (mkNode id1 None) []).
          -- reflexivity.
          -- intros Hin. apply Hfresh. right. exact Hin.
          -- reflexivity.
    - exfalso. apply rlGetPica200Tex_None in Eg. apply Eg.
      unfold ids. rewrite map_app. apply in_or_app. right. left. reflexivity. }
  split; [exact Hun|].
  intros k Hk. split.
  - rewrite Hids. apply in_map_iff. exists (Z.to_nat k). split; [lia|].
    apply in_seq. lia.
  - rewrite Hun. apply rlGetPica200Tex_None.
    destruct (rootTex s) as [|r0 rest] eqn:Er; [intros []|].
    destruct n as [|m]; [discriminate|].
    cbn [seq map ids] in Hids. injection Hids as Hr0 _.
    cbn [firstn ids map]. intros [E|[]]. lia.
Qed.

Lemma load_then_unload_keeps_first_witness :
  rootTex (rlUnloadTexture
             (fst (rlLoadTexture (white 64) 8 8 PIXELFORMAT_UNCOMPRESSED_GRAYSCALE 1
                     (mkState (allocations 3) [])))
             (snd (rlLoadTexture (white 64) 8 8 PIXELFORMAT_UNCOMPRESSED_GRAYSCALE 1
                     (mkState (allocations 3) []))))
  = firstn 1 (rootTex (mkState (allocations 3) [])).
Proof.
  destruct (load_then_unload_keeps_first (white 64) 8 8 PIXELFORMAT_UNCOMPRESSED_GRAYSCALE
              GPU_L8 1 (mkState (allocations 3) []) 3) as (_ & _ & H & _).
  - reflexivity.
  - lia.
  - reflexivity.
  - reflexivity.
  - exact H.
Defined.

End LoadUnload.
